(** * Querya agent loop (agent.js): a shallow embedding and its properties

    The development follows [src/agent.js]: the JSON-like values that travel
    between the model endpoint and the loop, the response normaliser
    [parseAPIResponse], the tool dispatcher [executeTool], the message store
    behind [addMessage], the gateway [callLLM] with its endpoint fallback,
    and the bounded loop [agentLoop]; around them the entry point
    [sendMessage], the conversation housekeeping ([createNewConversation],
    [loadConversation], [clearConversationMessages], [showWelcomeMessage])
    and the model picker ([fetchAIpipeModels], [updateModelOptions]).

    Conventions.
    - A JavaScript value is a [jsval]; a function that may throw returns a
      [res]; a method that also changes [this.state] is a computation in
      [M], where a throw keeps the changes made before it.
    - What the browser supplies ([JSON.parse], [JSON.stringify], the
      network, the clock) is a [Host]; statements are quantified over it.
    - An [async] method is the computation it performs up to its result: a
      rejected promise is a throw.  The stubs and [executeTool] do all their
      work before their first suspension, so a single invocation of the loop
      is sequential; input arriving while the loop is suspended is not
      modelled.
    - Rendering ([displayMessage], [updateConversationList], toasts, the
      performance display) is left out: each of these catches its own
      exceptions and none writes to the conversations. *)

From Stdlib Require Import ZArith String Ascii List Bool Lia.
From stdpp Require Import base option list strings pretty gmap.

Local Open Scope string_scope.
Local Open Scope Z_scope.

(** ** JavaScript values

    Only values that JSON can carry occur in the loop: upstream payloads,
    tool arguments, tool results.  Numbers are the integers (HTTP statuses,
    lengths); no operation below computes on a fraction. *)

#[warnings="-register-all"]
Inductive jsval : Type :=
| JUndef
| JNull
| JBool (b : bool)
| JNum (z : Z)
| JStr (s : string)
| JArr (elems : list jsval)
| JObj (props : list (string * jsval)).

(** A thrown value.  Every throw in the source is an [Error] (or a
    [TypeError]/[SyntaxError] raised by the engine) and every handler reads
    only its [message]. *)
Inductive exn : Type := Error (message : string).

Definition message (e : exn) : string := let 'Error m := e in m.

(** Result of a computation that may throw. *)
Definition res (A : Type) : Type := exn + A.

Definition rret {A} (a : A) : res A := inr a.
Definition rthrow {A} (e : exn) : res A := inl e.
Definition rbind {A B} (m : res A) (k : A -> res B) : res B :=
  match m with inl e => inl e | inr a => k a end.

Notation "x <~ e ;; k" := (rbind e (fun x => k))
  (at level 100, e at next level, right associativity).

(** The engine's wording of a [TypeError] is its own; no statement depends
    on it. *)
Definition TypeError {A} (what : string) : res A :=
  rthrow (Error ("TypeError: " +:+ what)).

(** *** Truthiness, [||], property access *)

Definition nullish (v : jsval) : bool :=
  match v with JUndef | JNull => true | _ => false end.

Definition truthy (v : jsval) : bool :=
  match v with
  | JUndef | JNull => false
  | JBool b => b
  | JNum z => negb (z =? 0)
  | JStr s => negb (s =? EmptyString)%string
  | JArr _ | JObj _ => true
  end.

(** [a || b] *)
Definition jor (a b : jsval) : jsval := if truthy a then a else b.

Fixpoint assoc (k : string) (kvs : list (string * jsval)) : option jsval :=
  match kvs with
  | [] => None
  | (k', v) :: r => if (k =? k')%string then Some v else assoc k r
  end.

Definition has_key (k : string) (kvs : list (string * jsval)) : bool :=
  match assoc k kvs with Some _ => true | None => false end.

(** [v.k] on a value that is neither [undefined] nor [null].  The names the
    source reads ([choices], [message], [content], [text], [candidates],
    [parts], [function], [name], [arguments], [id], [error], [tool_calls],
    [query], ...) are own properties of objects only; [length] is also
    defined on arrays and strings, where only its being zero or not is ever
    observed. *)
Definition prop (v : jsval) (k : string) : jsval :=
  match v with
  | JObj kvs => default JUndef (assoc k kvs)
  | JArr l => if (k =? "length")%string then JNum (Z.of_nat (length l)) else JUndef
  | JStr s => if (k =? "length")%string then JNum (Z.of_nat (String.length s)) else JUndef
  | _ => JUndef
  end.

(** [v.k], throwing on [undefined] and [null]. *)
Definition getp (v : jsval) (k : string) : res jsval :=
  if nullish v then TypeError ("cannot read property " +:+ k)
  else rret (prop v k).

(** [v?.k] *)
Definition optp (v : jsval) (k : string) : jsval :=
  if nullish v then JUndef else prop v k.

(** [v[0]], throwing on [undefined] and [null]. *)
Definition first (v : jsval) : res jsval :=
  match v with
  | JUndef | JNull => TypeError "cannot read property 0"
  | JArr l => rret (nth 0 l JUndef)
  | JStr s => rret (match s with String c _ => JStr (String c EmptyString) | EmptyString => JUndef end)
  | JObj kvs => rret (default JUndef (assoc "0" kvs))
  | _ => rret JUndef
  end.

(** *** String conversion (template literals, [Array.prototype.join]) *)

Fixpoint concat_sep (sep : string) (l : list string) : string :=
  match l with
  | [] => EmptyString
  | [s] => s
  | s :: r => s +:+ sep +:+ concat_sep sep r
  end.

Fixpoint all_some {A} (l : list (option A)) : option (list A) :=
  match l with
  | [] => Some []
  | Some a :: r => match all_some r with Some r' => Some (a :: r') | None => None end
  | None :: _ => None
  end.

(** [ToString]: [None] stands for the [TypeError] that converting an object
    shadowing [toString] with a JSON value raises. *)
Fixpoint ToString (v : jsval) : option string :=
  match v with
  | JUndef => Some "undefined"
  | JNull => Some "null"
  | JBool true => Some "true"
  | JBool false => Some "false"
  | JNum z => Some (pretty z)
  | JStr s => Some s
  | JArr l =>
      option_map (concat_sep ",")
        (all_some (List.map (fun x => if nullish x then Some EmptyString else ToString x) l))
  | JObj kvs => if has_key "toString" kvs then None else Some "[object Object]"
  end.

(** A value spliced into a template literal. *)
Definition tpl (v : jsval) : res string :=
  match ToString v with
  | Some s => rret s
  | None => TypeError "cannot convert object to primitive value"
  end.

(** [arr.join(sep)] on the elements of an array. *)
Definition join (sep : string) (l : list jsval) : res string :=
  match all_some (List.map (fun x => if nullish x then Some EmptyString else ToString x) l) with
  | Some ss => rret (concat_sep sep ss)
  | None => TypeError "cannot convert object to primitive value"
  end.

Fixpoint rmap {A B} (f : A -> res B) (l : list A) : res (list B) :=
  match l with
  | [] => rret []
  | a :: r => b <~ f a ;; bs <~ rmap f r ;; rret (b :: bs)
  end.

(** ** Response normaliser *)

Definition parseAPIResponse_body (data : jsval) : res jsval :=
  if truthy (optp (optp data "choices") "length") then
    choices <~ getp data "choices" ;;
    c0 <~ first choices ;;
    m <~ getp c0 "message" ;;
    let msg := jor m (JObj []) in
    mc <~ getp msg "content" ;;
    ct <~ getp c0 "text" ;;
    rret (JObj [("content", jor (jor mc ct) (JStr EmptyString))])
  else if truthy (optp (optp data "candidates") "length") then
    candidates <~ getp data "candidates" ;;
    c0 <~ first candidates ;;
    cc <~ getp c0 "content" ;;
    let parts := jor (jor (optp cc "parts") cc) (JArr []) in
    match parts with
    | JArr ps =>
        ts <~ rmap (fun p => t <~ getp p "text" ;; rret (jor t p)) ps ;;
        text <~ join EmptyString ts ;;
        rret (JObj [("content", JStr text)])
    | _ => rret (JObj [("content", parts)])
    end
  else
    rret (JObj [("content",
                 match data with
                 | JStr _ => data
                 | _ => JStr "Received an unrecognized response format."
                 end)]).

Definition parseAPIResponse (data : jsval) : res jsval :=
  match parseAPIResponse_body data with
  | inr r => inr r
  | inl _ => rthrow (Error "Could not parse the API response.")
  end.

(** ** The host: what the browser supplies

    [JSON.parse] and [JSON.stringify] are the engine's; the network answers
    the n-th request with a response or by failing; [Date.now()] is read
    off a clock; [StringToNumber_pos s] tells whether the number that the
    string [s] converts to is greater than zero.  Every statement below is
    quantified over the host unless it names a concrete one. *)

Record Response : Type := {
  status : Z;
  statusText : string;
  json : res jsval          (* outcome of [resp.json()] *)
}.

(** [resp.ok] *)
Definition ok (r : Response) : bool := (200 <=? status r) && (status r <=? 299).

Record Request : Type := {
  url : string;
  method : string;
  headers : list (string * string);
  body : jsval
}.

Class Host : Type := {
  JSON_parse : string -> res jsval;
  JSON_stringify : jsval -> jsval;
  fetch_reply : nat -> Request -> res Response;
  Date_now : nat -> Z;
  StringToNumber_pos : string -> bool
}.

(** ** Message store *)

Inductive Role : Type := user | assistant | system | tool.

Definition role_name (r : Role) : string :=
  match r with
  | user => "user" | assistant => "assistant" | system => "system" | tool => "tool"
  end.

Definition is_system (r : Role) : bool :=
  match r with system => true | _ => false end.

Definition is_tool (r : Role) : bool :=
  match r with tool => true | _ => false end.

(** A message object; a field the object lacks reads [JUndef]. *)
Record Message : Type := {
  m_id : jsval;
  m_role : Role;
  m_content : jsval;
  m_timestamp : jsval;
  m_tool_calls : jsval;
  m_tool_call_id : jsval;
  m_name : jsval
}.

Record Conversation : Type := {
  c_id : string;
  c_title : string;
  c_messages : list Message;
  c_createdAt : Z;
  c_updatedAt : Z;
  c_preview : string
}.

(** [this.state.settings.llm]; a setting that is not there reads [JUndef],
    which is also how [callLLM] sees a missing [llm] object. *)
Record LLMSettings : Type := {
  provider : jsval;
  apiKey : jsval;
  model : jsval;
  maxTokens : jsval;
  temperature : jsval;
  baseUrl : jsval
}.

(** [this.state], with the environment's bookkeeping: the requests issued
    so far, the clock readings taken so far, and how often the loop called
    the model. *)
Record World : Type := {
  conversations : gmap string Conversation;
  currentConversationId : option string;
  settings_llm : LLMSettings;
  apiCalls : Z;
  requests : list Request;
  ticks : nat;
  modelCalls : nat
}.

Definition set_conversations (f : gmap string Conversation -> gmap string Conversation)
    (w : World) : World :=
  {| conversations := f (conversations w);
     currentConversationId := currentConversationId w;
     settings_llm := settings_llm w;
     apiCalls := apiCalls w;
     requests := requests w;
     ticks := ticks w;
     modelCalls := modelCalls w |}.

Definition set_apiCalls (f : Z -> Z) (w : World) : World :=
  {| conversations := conversations w;
     currentConversationId := currentConversationId w;
     settings_llm := settings_llm w;
     apiCalls := f (apiCalls w);
     requests := requests w;
     ticks := ticks w;
     modelCalls := modelCalls w |}.

Definition set_requests (f : list Request -> list Request) (w : World) : World :=
  {| conversations := conversations w;
     currentConversationId := currentConversationId w;
     settings_llm := settings_llm w;
     apiCalls := apiCalls w;
     requests := f (requests w);
     ticks := ticks w;
     modelCalls := modelCalls w |}.

Definition set_ticks (f : nat -> nat) (w : World) : World :=
  {| conversations := conversations w;
     currentConversationId := currentConversationId w;
     settings_llm := settings_llm w;
     apiCalls := apiCalls w;
     requests := requests w;
     ticks := f (ticks w);
     modelCalls := modelCalls w |}.

Definition set_modelCalls (f : nat -> nat) (w : World) : World :=
  {| conversations := conversations w;
     currentConversationId := currentConversationId w;
     settings_llm := settings_llm w;
     apiCalls := apiCalls w;
     requests := requests w;
     ticks := ticks w;
     modelCalls := f (modelCalls w) |}.

(** ** Computations that change [this.state] and may throw

    A throw keeps the changes made before it, as in the source. *)

Definition M (A : Type) : Type := World -> World * res A.

Definition ret {A} (a : A) : M A := fun w => (w, inr a).
Definition throw {A} (e : exn) : M A := fun w => (w, inl e).
Definition bind {A B} (m : M A) (k : A -> M B) : M B :=
  fun w => match m w with
           | (w', inr a) => k a w'
           | (w', inl e) => (w', inl e)
           end.
Definition lift {A} (r : res A) : M A := fun w => (w, r).
Definition try_catch {A} (m : M A) (h : exn -> M A) : M A :=
  fun w => match m w with
           | (w', inl e) => h e w'
           | r => r
           end.
Definition gets {A} (f : World -> A) : M A := fun w => (w, inr (f w)).
Definition modify (f : World -> World) : M unit := fun w => (f w, inr tt).

Notation "x <- e ;; k" := (bind e (fun x => k))
  (at level 100, e at next level, right associativity).
Notation "e ;;; k" := (bind e (fun _ => k))
  (at level 100, right associativity).

Section Agent.
Context `{H : Host}.

(** ** [addMessage] *)

Definition truthy_id (i : option string) : bool :=
  match i with Some s => negb (s =? EmptyString)%string | None => false end.

Definition is_string (v : jsval) : bool :=
  match v with JStr _ => true | _ => false end.

(** The display fields that follow a pushed message.  Strings are byte
    strings here; [substring] cuts code units in the source and bytes here,
    and the two agree on ASCII text. *)
Definition touch (role : Role) (content : jsval) (now : Z) (c : Conversation) : Conversation :=
  match content with
  | JStr s =>
      if is_system role then c
      else
        {| c_id := c_id c;
           c_title :=
             if (c_title c =? EmptyString)%string || (c_title c =? "New Conversation")%string
             then (if (substring 0 30 s =? EmptyString)%string then "Conversation" else substring 0 30 s)
             else c_title c;
           c_messages := c_messages c;
           c_createdAt := c_createdAt c;
           c_updatedAt := now;
           c_preview := substring 0 100 s |}
  | _ => c
  end.

Definition push (m : Message) (c : Conversation) : Conversation :=
  {| c_id := c_id c;
     c_title := c_title c;
     c_messages := (c_messages c ++ [m])%list;
     c_createdAt := c_createdAt c;
     c_updatedAt := c_updatedAt c;
     c_preview := c_preview c |}.

(** [conversation.messages.push(m)] through a reference held to the
    conversation stored under [convId]. *)
Definition pushMessage (convId : string) (m : Message) : M unit :=
  modify (set_conversations (fun cs =>
    match cs !! convId with
    | Some c => <[convId := push m c]> cs
    | None => cs
    end)).

Definition addMessage (role : Role) (content : jsval) (conversationId : option string) : M unit :=
  fun w =>
    let convId := if truthy_id conversationId then conversationId else currentConversationId w in
    match convId with
    | Some cid =>
        if negb (truthy_id convId) then (w, inr tt)
        else
          match conversations w !! cid with
          | None => (w, inr tt)
          | Some conversation =>
              if nullish content then (w, inr tt)
              else
                let t := ticks w in
                let message :=
                  {| m_id := JStr ("msg_" +:+ pretty (Date_now t));
                     m_role := role;
                     m_content := content;
                     m_timestamp := JNum (Date_now (S t));
                     m_tool_calls := JUndef;
                     m_tool_call_id := JUndef;
                     m_name := JUndef |} in
                let timed := is_string content && negb (is_system role) in
                let c' := touch role content (Date_now (S (S t))) (push message conversation) in
                (set_ticks (fun _ => if timed then S (S (S t)) else S (S t))
                   (set_conversations (insert cid c') w),
                 inr tt)
          end
    | None => (w, inr tt)
    end.

(** ** Tools *)

(** The stubs destructure their argument, which throws on [undefined] and
    [null]; [results] (default 5) and [data] are bound and not used. *)
Definition executeWebSearch (args : jsval) : res jsval :=
  query <~ getp args "query" ;;
  q <~ tpl query ;;
  rret (JObj [("status", JStr ("Simulated search for: " +:+ q)); ("items", JArr [])]).

Definition executeCode (args : jsval) : res jsval :=
  code <~ getp args "code" ;;
  c <~ tpl code ;;
  rret (JObj [("output", JStr ("Simulated execution of: " +:+ c))]).

Definition processFile (args : jsval) : res jsval :=
  fileId <~ getp args "fileId" ;;
  operation <~ getp args "operation" ;;
  o <~ tpl operation ;;
  f <~ tpl fileId ;;
  rret (JObj [("result", JStr ("Simulated " +:+ o +:+ " on file " +:+ f))]).

Definition dquote : string := String (ascii_of_nat 34) EmptyString.

Definition createVisualization (args : jsval) : res jsval :=
  type <~ getp args "type" ;;
  title <~ getp args "title" ;;
  ty <~ tpl type ;;
  ti <~ tpl title ;;
  rret (JObj [("chartUrl",
               JStr ("Simulated " +:+ ty +:+ " chart titled " +:+ dquote +:+ ti +:+ dquote))]).

(** The argument payload of a request, parsed defensively. *)
Definition parseToolArgs (toolCall : jsval) : jsval :=
  let a := prop toolCall "arguments" in
  if truthy a then
    match a with
    | JStr s => match JSON_parse s with inr v => v | inl _ => JObj [] end
    | _ => a
    end
  else JObj [].

Definition toolName (toolCall : jsval) : jsval :=
  jor (prop (jor (prop toolCall "function") (JObj [])) "name") (JStr "unknown").

(** The names declared by [initializeTools]. *)
Definition registeredTools : list string :=
  ["web_search"; "execute_code"; "process_file"; "create_visualization"].

(** The executor the [switch] of [executeTool] selects for a name, if any. *)
Definition executor (name : jsval) : option (jsval -> res jsval) :=
  match name with
  | JStr s =>
      if (s =? "web_search")%string then Some executeWebSearch
      else if (s =? "execute_code")%string then Some executeCode
      else if (s =? "process_file")%string then Some processFile
      else if (s =? "create_visualization")%string then Some createVisualization
      else None
  | _ => None
  end.

Definition executeTool (toolCall : jsval) : M jsval :=
  _f <- lift (getp toolCall "function") ;;
  let name := toolName toolCall in
  let args := parseToolArgs toolCall in
  n <- lift (tpl name) ;;
  cur <- gets currentConversationId ;;
  (addMessage system (JStr ("Executing tool: " +:+ n)) cur ;;;
  match executor name with
  | Some run => lift (run args)
  | None =>
      n' <- lift (tpl name) ;;
      ret (JObj [("error", JStr ("Unknown tool: " +:+ n'))])
  end).

(** [Promise.all(calls)]: every call is started, left to right, whatever
    the others do; the result is the list of their values in the order of
    the calls, or a rejection as soon as one of them rejects (the leftmost
    here; which one is reported when several reject depends on the order in
    which they settle). *)
Fixpoint startAll {A} (calls : list (M A)) (w : World) : World * list (res A) :=
  match calls with
  | [] => (w, [])
  | c :: r =>
      let '(w1, a) := c w in
      let '(w2, rs) := startAll r w1 in
      (w2, a :: rs)
  end.

Fixpoint settle {A} (rs : list (res A)) : res (list A) :=
  match rs with
  | [] => inr []
  | inl e :: _ => inl e
  | inr a :: r => match settle r with inl e => inl e | inr l => inr (a :: l) end
  end.

Definition Promise_all {A} (calls : list (M A)) : M (list A) :=
  fun w => let '(w', rs) := startAll calls w in (w', settle rs).

(** The tool dispatcher: [Promise.all(tool_calls.map(tc => this.executeTool(tc)))]. *)
Definition dispatchAll (toolCallRequests : list jsval) : M (list jsval) :=
  Promise_all (List.map executeTool toolCallRequests).

(** ** Model gateway *)

(** [typeof c === 'string' ? c : JSON.stringify(c)] *)
Definition apiContent (c : jsval) : jsval :=
  match c with JStr _ => c | _ => JSON_stringify c end.

Definition apiMessage (m : Message) : jsval :=
  JObj [("role", JStr (if is_tool (m_role m) then "system" else role_name (m_role m)));
        ("content", apiContent (m_content m))].

Definition messagesForApi (ms : list Message) : list jsval :=
  List.filter (fun m => truthy (prop m "content")) (List.map apiMessage ms).

(** [s.replace(/\/+$/, '')] *)
Fixpoint trimSlashes (s : string) : string :=
  match s with
  | EmptyString => EmptyString
  | String c r =>
      match trimSlashes r with
      | EmptyString => if Ascii.eqb c "/" then EmptyString else String c EmptyString
      | r' => String c r'
      end
  end.

Definition demoContent : string :=
  "💡 Demo response: add your AI Pipe token in Settings to query real models.".

Definition demoResponse : jsval :=
  JObj [("choices", JArr [JObj [("message", JObj [("content", JStr demoContent)])]])].

Definition fetch (rq : Request) : M Response :=
  fun w => (set_requests (fun l => (l ++ [rq])%list) w, fetch_reply (length (requests w)) rq).

(** The text describing a failed response: the upstream error message when
    the body carries one, the serialised body when it parses, the status
    line otherwise. *)
Definition errorText (resp : Response) : jsval :=
  let statusLine := JStr (pretty (status resp) +:+ " " +:+ statusText resp) in
  match json resp with
  | inr errJson =>
      if nullish errJson then statusLine
      else jor (optp (prop errJson "error") "message") (JSON_stringify errJson)
  | inl _ => statusLine
  end.

Definition chatBody (llm : LLMSettings) (ms : list Message) : jsval :=
  JObj [("model", jor (model llm) (JStr "openai/gpt-4o-mini"));
        ("messages", JArr (messagesForApi ms));
        ("max_tokens", maxTokens llm);
        ("temperature", temperature llm)].

(** The error thrown for a primary response that is not [ok]. *)
Definition primaryFailure (resp : Response) (body : jsval) : res jsval :=
  errText <~ tpl (errorText resp) ;;
  m <~ tpl (prop body "model") ;;
  rthrow (Error ("AI Pipe error (" +:+ pretty (status resp) +:+ "): " +:+ errText
                 +:+ ". Tip: ensure your token has access to **" +:+ m
                 +:+ "**, or pick a listed model in Settings.")).

(** The error thrown for a fallback response that is not [ok]. *)
Definition fallbackFailure (resp2 : Response) : res jsval :=
  errText <~ tpl (errorText resp2) ;;
  rthrow (Error ("AI Pipe (fallback) error (" +:+ pretty (status resp2) +:+ "): " +:+ errText)).

Definition primaryRequest (base : string) (hdrs : list (string * string)) (body : jsval)
    : Request :=
  {| url := base +:+ "/openrouter/v1/chat/completions"; method := "POST";
     headers := hdrs; body := JSON_stringify body |}.

Definition fallbackRequest (base : string) (hdrs : list (string * string)) (body : jsval)
    : Request :=
  {| url := base +:+ "/openai/v1/chat/completions"; method := "POST";
     headers := hdrs;
     body := JSON_stringify
               (JObj [("model", prop body "model");
                      ("messages", prop body "messages");
                      ("max_tokens", prop body "max_tokens");
                      ("temperature", prop body "temperature")]) |}.

Definition primaryCall (base : string) (hdrs : list (string * string)) (body : jsval) : M jsval :=
  resp <- fetch (primaryRequest base hdrs body) ;;
  if negb (ok resp) then lift (primaryFailure resp body)
  else lift (json resp).

Definition fallbackCall (base : string) (hdrs : list (string * string)) (body : jsval) : M jsval :=
  resp2 <- fetch (fallbackRequest base hdrs body) ;;
  if negb (ok resp2) then lift (fallbackFailure resp2)
  else lift (json resp2).

(** [err2.message || err.message || 'Network error'] *)
Definition finalMessage (err2 err : exn) : string :=
  if negb (message err2 =? EmptyString)%string then message err2
  else if negb (message err =? EmptyString)%string then message err
  else "Network error".

Definition callLLM (conversation : Conversation) : M jsval :=
  llm <- gets settings_llm ;;
  if negb (truthy (provider llm)) then throw (Error "No LLM provider configured.")
  else if negb (truthy (apiKey llm)) then ret demoResponse
  else
    match provider llm with
    | JStr "aipipe" =>
        match baseUrl llm with
        | JStr b =>
            let base := trimSlashes b in
            key <- lift (tpl (apiKey llm)) ;;
            let hdrs := [("Content-Type", "application/json");
                         ("Authorization", "Bearer " +:+ key)] in
            let body := chatBody llm (c_messages conversation) in
            try_catch (primaryCall base hdrs body)
              (fun err =>
                 try_catch (fallbackCall base hdrs body)
                   (fun err2 => throw (Error (finalMessage err2 err))))
        | _ => lift (TypeError "baseUrl.replace is not a function")
        end
    | _ => throw (Error "Only AI Pipe is supported in this build. (Provider forced to AI Pipe)")
    end.

(** ** Agent loop *)

Inductive ctl : Type := Continue | Break.

(** [v > 0] *)
Definition gt_zero (v : jsval) : res bool :=
  match v with
  | JNum z => rret (0 <? z)
  | JBool b => rret b
  | JStr s => rret (StringToNumber_pos s)
  | JArr _ => s <~ tpl v ;; rret (StringToNumber_pos s)
  | JObj _ => _s <~ tpl v ;; rret false
  | JUndef | JNull => rret false
  end.

Fixpoint forEach {A} (f : A -> M unit) (l : list A) : M unit :=
  match l with
  | [] => ret tt
  | a :: r => f a ;;; forEach f r
  end.

Definition toolNames (tcs : list jsval) : res (list jsval) :=
  rmap (fun tc => f <~ getp tc "function" ;; getp f "name") tcs.

(** What the loop appends for one settled tool call. *)
Definition appendToolResult (conversationId : string) (rt : jsval * jsval) : M unit :=
  let '(result, tc) := rt in
  i <- lift (getp tc "id") ;;
  f <- lift (getp tc "function") ;;
  n <- lift (getp f "name") ;;
  (pushMessage conversationId
    {| m_id := JUndef; m_role := tool; m_content := JSON_stringify result;
       m_timestamp := JUndef; m_tool_calls := JUndef;
       m_tool_call_id := i; m_name := n |} ;;;
  addMessage tool (JSON_stringify result) (Some conversationId)).

(** The tool branch of one turn. *)
Definition dispatchTools (conversationId : string) (tool_calls : jsval) : M unit :=
  match tool_calls with
  | JArr tcs =>
      names <- lift (toolNames tcs) ;;
      s <- lift (join ", " names) ;;
      (addMessage assistant (JStr ("Using tools: " +:+ s)) (Some conversationId) ;;;
      pushMessage conversationId
        {| m_id := JUndef; m_role := assistant; m_content := JNull;
           m_timestamp := JUndef; m_tool_calls := tool_calls;
           m_tool_call_id := JUndef; m_name := JUndef |} ;;;
      toolResults <- dispatchAll tcs ;;
      forEach (appendToolResult conversationId) (combine toolResults tcs))
  | _ => lift (TypeError "response.tool_calls.map is not a function")
  end.

Definition hasToolCalls (response : jsval) : res bool :=
  if truthy response && truthy (prop response "tool_calls")
  then gt_zero (prop (prop response "tool_calls") "length")
  else rret false.

(** What a turn does with the normalised response. *)
Definition handleResponse (conversationId : string) (response : jsval) : M ctl :=
  (if truthy response && truthy (prop response "content")
   then addMessage assistant (prop response "content") (Some conversationId)
   else ret tt) ;;;
  b <- lift (hasToolCalls response) ;;
  if b : bool then (dispatchTools conversationId (prop response "tool_calls") ;;; ret Continue)
  else ret Break.

(** [err.message || err] spliced into a template literal. *)
Definition errorLabel (err : exn) : string :=
  if (message err =? EmptyString)%string then "Error" else message err.

(** From the model call to the end of the [try] block.  The timing of the
    call only feeds the performance display and is left out. *)
Definition respond (conversationId : string) (conversation : Conversation) : M ctl :=
  responseData <- callLLM conversation ;;
  (modify (set_apiCalls (fun n => n + 1)) ;;;
  response <- lift (parseAPIResponse responseData) ;;
  handleResponse conversationId response).

(** The [catch] of a turn. *)
Definition onTurnError (conversationId : string) (err : exn) : M ctl :=
  addMessage system (JStr ("Agent iteration error: " +:+ errorLabel err))
    (Some conversationId) ;;;
  ret Break.

(** One pass through the body of the [while]: the [try] and its [catch].
    The loop holds a reference to the conversation object; nothing in the
    loop removes it from the map, so it is read back under its key.
    [modelCalls] counts the calls of [callLLM]: it is raised where the loop
    makes the call. *)
Definition turn (conversationId : string) : M ctl :=
  try_catch
    (cs <- gets conversations ;;
     match cs !! conversationId with
     | Some conversation =>
         modify (set_modelCalls S) ;;; respond conversationId conversation
     | None => ret Break
     end)
    (onTurnError conversationId).

(** [while (maxTurns-- > 0) { ... }] *)
Fixpoint loop (maxTurns : nat) (conversationId : string) : M unit :=
  match maxTurns with
  | O => ret tt
  | S n =>
      c <- turn conversationId ;;
      match c with
      | Continue => loop n conversationId
      | Break => ret tt
      end
  end.

Definition agentLoop (conversationId : string) : M unit :=
  cs <- gets conversations ;;
  match cs !! conversationId with
  | None => ret tt
  | Some _ => loop 5 conversationId
  end.

End Agent.

(** * The shell around the loop

    Conversation housekeeping, the model picker and the entry point that
    takes the user's text.  Besides [this.state] these read and write
    [this.cache] and the [isProcessing] flag.  The functions that redraw
    the page are taken to return normally and are left out, except where
    they convert a value of the state to text, which can throw.
    [this.state.settings.llm] is an object in every state the program
    builds: the constructor and [loadSettings] both make one. *)

Definition set_currentConversationId (f : option string -> option string) (w : World)
    : World :=
  {| conversations := conversations w;
     currentConversationId := f (currentConversationId w);
     settings_llm := settings_llm w;
     apiCalls := apiCalls w;
     requests := requests w;
     ticks := ticks w;
     modelCalls := modelCalls w |}.

Definition set_settings_llm (f : LLMSettings -> LLMSettings) (w : World) : World :=
  {| conversations := conversations w;
     currentConversationId := currentConversationId w;
     settings_llm := f (settings_llm w);
     apiCalls := apiCalls w;
     requests := requests w;
     ticks := ticks w;
     modelCalls := modelCalls w |}.

(** [llm.model = m] *)
Definition with_model (m : jsval) (llm : LLMSettings) : LLMSettings :=
  {| provider := provider llm;
     apiKey := apiKey llm;
     model := m;
     maxTokens := maxTokens llm;
     temperature := temperature llm;
     baseUrl := baseUrl llm |}.

Record App : Type := {
  world : World;
  isProcessing : bool;
  cache : gmap string (list jsval)
}.

Definition set_world (f : World -> World) (a : App) : App :=
  {| world := f (world a); isProcessing := isProcessing a; cache := cache a |}.

Definition set_isProcessing (b : bool) (a : App) : App :=
  {| world := world a; isProcessing := b; cache := cache a |}.

Definition set_cache (f : gmap string (list jsval) -> gmap string (list jsval)) (a : App)
    : App :=
  {| world := world a; isProcessing := isProcessing a; cache := f (cache a) |}.

Definition MA (A : Type) : Type := App -> App * res A.

Definition retA {A} (x : A) : MA A := fun a => (a, inr x).
Definition throwA {A} (e : exn) : MA A := fun a => (a, inl e).
Definition bindA {A B} (m : MA A) (k : A -> MA B) : MA B :=
  fun a => match m a with
           | (a', inr x) => k x a'
           | (a', inl e) => (a', inl e)
           end.
Definition try_catchA {A} (m : MA A) (h : exn -> MA A) : MA A :=
  fun a => match m a with
           | (a', inl e) => h e a'
           | r => r
           end.
(** A computation on [this.state] run inside the application. *)
Definition liftW {A} (m : M A) : MA A :=
  fun a => let '(w', r) := m (world a) in (set_world (fun _ => w') a, r).

Notation "x <<- e ;; k" := (bindA e (fun x => k))
  (at level 100, e at next level, right associativity).
Notation "e ;;> k" := (bindA e (fun _ => k))
  (at level 100, right associativity).

(** [===] on values that JSON can carry, as [Set] and [includes] use it:
    primitives by value, objects and arrays by identity -- and two values
    that come out of different places of a parsed payload are never the
    same object. *)
Definition same_value (a b : jsval) : bool :=
  match a, b with
  | JUndef, JUndef => true
  | JNull, JNull => true
  | JBool x, JBool y => Bool.eqb x y
  | JNum x, JNum y => (x =? y)%Z
  | JStr x, JStr y => (x =? y)%string
  | _, _ => false
  end.

Definition includes (l : list jsval) (v : jsval) : bool := existsb (same_value v) l.

Fixpoint uniq_from (seen l : list jsval) : list jsval :=
  match l with
  | [] => []
  | x :: r =>
      if includes seen x then uniq_from seen r else x :: uniq_from (x :: seen) r
  end.

(** [Array.from(new Set(arr.filter(Boolean)))] *)
Definition uniq (arr : list jsval) : list jsval := uniq_from [] (List.filter truthy arr).

(** The curated list appended to whatever the endpoints return. *)
Definition curatedModels : list jsval :=
  [JStr "openai/gpt-4o-mini"; JStr "openai/gpt-4o"; JStr "openai/gpt-4.1";
   JStr "openai/gpt-3.5-turbo"].

Definition welcomeText : string :=
  "Welcome to **Querya** (AI Pipe mode). Paste your AI Pipe token in **Settings → API Key** to get started.".

Definition demoNotice : string :=
  "_Demo mode_: add your **AI Pipe token** in Settings to use real models.".

Section Shell.
Context `{H : Host}.

(** *** Conversations *)

(** Only the assignment of the current conversation is kept of
    [loadConversation]; the rest redraws the page. *)
Definition loadConversation (id : option string) : M unit :=
  if truthy_id id then modify (set_currentConversationId (fun _ => id)) else ret tt.

Definition createNewConversation : M string :=
  fun w =>
    let t := ticks w in
    let id := "conv_" +:+ pretty (Date_now t) in
    let convObj :=
      {| c_id := id; c_title := "New Conversation"; c_messages := [];
         c_createdAt := Date_now (S t); c_updatedAt := Date_now (S (S t));
         c_preview := "..." |} in
    let w1 := set_ticks (fun _ => S (S (S t))) (set_conversations (insert id convObj) w) in
    (fst (loadConversation (Some id) w1), inr id).

(** [confirmed] is the answer to the [confirm] dialog. *)
Definition clearConversationMessages (confirmed : bool) : M unit :=
  fun w =>
    if negb (truthy_id (currentConversationId w)) then (w, inr tt)
    else if negb confirmed then (w, inr tt)
    else
      match currentConversationId w with
      | Some cid =>
          match conversations w !! cid with
          | Some conv =>
              let conv' :=
                {| c_id := c_id conv; c_title := c_title conv; c_messages := [];
                   c_createdAt := c_createdAt conv; c_updatedAt := Date_now (ticks w);
                   c_preview := "Cleared" |} in
              loadConversation (Some cid)
                (set_ticks S (set_conversations (insert cid conv') w))
          | None => (w, inr tt)
          end
      | None => (w, inr tt)
      end.

Definition showWelcomeMessage : M unit :=
  fun w =>
    match currentConversationId w with
    | Some cid =>
        match conversations w !! cid with
        | Some conv =>
            match c_messages conv with
            | [] => addMessage assistant (JStr welcomeText) None w
            | _ => (w, inr tt)
            end
        | None => (w, inr tt)
        end
    | None => (w, inr tt)
    end.

(** *** Model picker *)

(** [l.map(m => m.a || m.b)] *)
Definition namesOrIds (a b : string) (l : list jsval) : res (list jsval) :=
  rmap (fun m => x <~ getp m a ;; y <~ getp m b ;; rret (jor x y)) l.

Definition pickOpenrouter (d1 : jsval) : res (list jsval) :=
  match optp d1 "models" with
  | JArr ms => namesOrIds "name" "id" ms
  | _ => match d1 with
         | JArr ms => namesOrIds "name" "id" ms
         | _ => rret []
         end
  end.

Definition pickOpenai (d2 : jsval) : res (list jsval) :=
  match optp d2 "data" with
  | JArr ms => namesOrIds "id" "name" ms
  | _ => rret []
  end.

Definition modelsRequest (base path token : string) : Request :=
  {| url := base +:+ path; method := "GET";
     headers := [("Authorization", "Bearer " +:+ token)]; body := JUndef |}.

(** One of the two [try] blocks of [fetchAIpipeModels]: what it adds to
    [all]. *)
Definition listedModels (path : string) (pick : jsval -> res (list jsval))
    (token baseUrl : jsval) : M (list jsval) :=
  try_catch
    (base <- lift (match baseUrl with
                   | JStr b => rret (trimSlashes b)
                   | _ => TypeError "baseUrl.replace is not a function"
                   end) ;;
     t <- lift (tpl token) ;;
     r <- fetch (modelsRequest base path t) ;;
     if ok r then (d <- lift (json r) ;; lift (pick d)) else ret [])
    (fun _ => ret []).

Definition fetchAIpipeModels (token baseUrl : jsval) : MA (list jsval) :=
  let baseUrl := match baseUrl with JUndef => JStr "https://aipipe.org" | _ => baseUrl end in
  if negb (truthy token) then throwA (Error "AI Pipe token required")
  else
    sfx <<- liftW (lift (tpl baseUrl)) ;;
    let cacheKey := "models_aipipe_" +:+ sfx in
    fun a =>
      match cache a !! cacheKey with
      | Some cached => (a, inr cached)
      | None =>
          (l1 <<- liftW (listedModels "/openrouter/v1/models" pickOpenrouter token baseUrl) ;;
           l2 <<- liftW (listedModels "/openai/v1/models" pickOpenai token baseUrl) ;;
           let finalList := uniq ((l1 ++ l2) ++ curatedModels)%list in
           match finalList with
           | [] => throwA (Error "No models returned by AI Pipe. Check your token permissions.")
           | _ => fun a' => (set_cache (insert cacheKey finalList) a', inr finalList)
           end) a
      end.

(** [modelSelect] tells whether the page has the model select;
    [apiKeyValue] is the value of the key field, if the page has one. *)
Definition updateModelOptions (modelSelect : bool) (apiKeyValue : option string) : MA unit :=
  if negb modelSelect then retA tt
  else
    try_catchA
      (llm <<- liftW (gets settings_llm) ;;
       models <<- fetchAIpipeModels (JStr (default EmptyString apiKeyValue))
                    (jor (baseUrl llm) (JStr "https://aipipe.org")) ;;
       match models with
       | [] => retA tt
       | m0 :: _ =>
           (* each entry becomes the value of an option element, as text *)
           _texts <<- liftW (lift (rmap tpl models)) ;;
           current <<- liftW (gets (fun w => model (settings_llm w))) ;;
           if includes models current then retA tt
           else liftW (modify (set_settings_llm (with_model m0)))
       end)
      (fun _ => retA tt).

(** *** Sending a message *)

(** The test for a key pasted by mistake: made for the [aipipe] provider
    only, it converts [apiKey || ''] to text and matches it against a
    pattern.  A match shows a warning; only the conversion can be seen in
    the state, when it throws. *)
Definition keyTested (llm : LLMSettings) : res unit :=
  match provider llm with
  | JStr "aipipe" => _k <~ tpl (jor (apiKey llm) (JStr EmptyString)) ;; rret tt
  | _ => rret tt
  end.

Section Send.
(** [String.prototype.trim] *)
Variable trim : string -> string.

(** [userInput] is the value of the input element, if the page has one. *)
Definition sendMessage (userInput : option string) : MA unit :=
  fun a =>
    let input := match userInput with Some v => trim v | None => EmptyString end in
    if (input =? EmptyString)%string || isProcessing a then (a, inr tt)
    else
      (liftW (if negb (truthy (apiKey (settings_llm (world a))))
              then addMessage assistant (JStr demoNotice) None
              else ret tt) ;;>
       liftW (lift (keyTested (settings_llm (world a)))) ;;>
       (fun a1 => (set_isProcessing true a1, inr tt)) ;;>
       convId <<- liftW (cur <- gets currentConversationId ;;
                         match cur with
                         | Some c => if truthy_id cur then ret c else createNewConversation
                         | None => createNewConversation
                         end) ;;
       (liftW (addMessage user (JStr input) (Some convId)) ;;>
       fun a2 =>
         let '(a3, outcome) :=
           liftW (try_catch (agentLoop convId)
                    (fun error =>
                       addMessage system (JStr ("An error occurred: " +:+ errorLabel error))
                         (Some convId))) a2 in
         (set_isProcessing false a3, outcome))) a.

End Send.

End Shell.

(** ** A concrete host for closed examples

    [JSON_parse_ref] reads JSON texts whose numbers are integer literals and
    whose strings use the escapes for the quote, the backslash, the slash,
    [n], [t] and [r]; [JSON_stringify_ref] writes the same fragment. *)

Module Ref.

Definition is_ws (c : ascii) : bool :=
  let n := nat_of_ascii c in
  (n =? 32)%nat || (n =? 9)%nat || (n =? 10)%nat || (n =? 13)%nat.

Definition is_digit (c : ascii) : bool :=
  let n := nat_of_ascii c in (48 <=? n)%nat && (n <=? 57)%nat.

Fixpoint skip_ws (s : string) : string :=
  match s with
  | String c r => if is_ws c then skip_ws r else s
  | EmptyString => s
  end.

Fixpoint strip_prefix (p s : string) : option string :=
  match p, s with
  | EmptyString, _ => Some s
  | String a p', String b s' => if Ascii.eqb a b then strip_prefix p' s' else None
  | _, _ => None
  end.

Fixpoint digits (acc : Z) (s : string) : Z * string :=
  match s with
  | String c r =>
      if is_digit c then digits (10 * acc + Z.of_nat (nat_of_ascii c - 48)) r
      else (acc, s)
  | EmptyString => (acc, s)
  end.

(** The characters of a string literal, after its opening quote. *)
Fixpoint str_body (s : string) : option (string * string) :=
  match s with
  | EmptyString => None
  | String c r =>
      if Ascii.eqb c (ascii_of_nat 34) then Some (EmptyString, r)
      else if Ascii.eqb c (ascii_of_nat 92) then
        match r with
        | String e r' =>
            let n := nat_of_ascii e in
            let out :=
              if (n =? 34)%nat || (n =? 92)%nat || (n =? 47)%nat then Some e
              else if (n =? 110)%nat then Some (ascii_of_nat 10)
              else if (n =? 116)%nat then Some (ascii_of_nat 9)
              else if (n =? 114)%nat then Some (ascii_of_nat 13)
              else None in
            match out, str_body r' with
            | Some o, Some (t, rest) => Some (String o t, rest)
            | _, _ => None
            end
        | EmptyString => None
        end
      else if (nat_of_ascii c <? 32)%nat then None
      else match str_body r with
           | Some (t, rest) => Some (String c t, rest)
           | None => None
           end
  end.

Definition number (s : string) : option (jsval * string) :=
  match s with
  | String c r =>
      if Ascii.eqb c "-" then
        match r with
        | String d _ =>
            if is_digit d then let '(z, rest) := digits 0 r in Some (JNum (- z), rest)
            else None
        | EmptyString => None
        end
      else if is_digit c then let '(z, rest) := digits 0 s in Some (JNum z, rest)
      else None
  | EmptyString => None
  end.

Fixpoint value (fuel : nat) (s : string) : option (jsval * string) :=
  match fuel with
  | O => None
  | S fuel' =>
      let s := skip_ws s in
      match strip_prefix "null" s, strip_prefix "true" s, strip_prefix "false" s with
      | Some r, _, _ => Some (JNull, r)
      | _, Some r, _ => Some (JBool true, r)
      | _, _, Some r => Some (JBool false, r)
      | _, _, _ =>
          match s with
          | String c r =>
              if Ascii.eqb c (ascii_of_nat 34) then
                match str_body r with
                | Some (t, rest) => Some (JStr t, rest)
                | None => None
                end
              else if Ascii.eqb c "[" then
                match skip_ws r with
                | String "]" rest => Some (JArr [], rest)
                | _ =>
                    match elems fuel' r with
                    | Some (vs, rest) => Some (JArr vs, rest)
                    | None => None
                    end
                end
              else if Ascii.eqb c "{" then
                match skip_ws r with
                | String "}" rest => Some (JObj [], rest)
                | _ =>
                    match members fuel' r with
                    | Some (kvs, rest) => Some (JObj kvs, rest)
                    | None => None
                    end
                end
              else number s
          | EmptyString => None
          end
      end
  end
with elems (fuel : nat) (s : string) : option (list jsval * string) :=
  match fuel with
  | O => None
  | S fuel' =>
      match value fuel' s with
      | Some (v, rest) =>
          match skip_ws rest with
          | String "," rest' =>
              match elems fuel' rest' with
              | Some (vs, rest'') => Some (v :: vs, rest'')
              | None => None
              end
          | String "]" rest' => Some ([v], rest')
          | _ => None
          end
      | None => None
      end
  end
with members (fuel : nat) (s : string) : option (list (string * jsval) * string) :=
  match fuel with
  | O => None
  | S fuel' =>
      match skip_ws s with
      | String q s1 =>
          if Ascii.eqb q (ascii_of_nat 34) then
            match str_body s1 with
            | Some (k, s2) =>
                match skip_ws s2 with
                | String ":" s3 =>
                    match value fuel' s3 with
                    | Some (v, rest) =>
                        match skip_ws rest with
                        | String "," rest' =>
                            match members fuel' rest' with
                            | Some (kvs, rest'') => Some ((k, v) :: kvs, rest'')
                            | None => None
                            end
                        | String "}" rest' => Some ([(k, v)], rest')
                        | _ => None
                        end
                    | None => None
                    end
                | _ => None
                end
            | None => None
            end
          else None
      | EmptyString => None
      end
  end.

Definition JSON_parse_ref (s : string) : res jsval :=
  match value (2 * String.length s + 2) s with
  | Some (v, rest) =>
      match skip_ws rest with
      | EmptyString => inr v
      | _ => inl (Error "SyntaxError: unexpected token after JSON value")
      end
  | None => inl (Error "SyntaxError: unexpected token in JSON")
  end.

Definition escape_char (c : ascii) : string :=
  let n := nat_of_ascii c in
  if (n =? 34)%nat then String (ascii_of_nat 92) (String c EmptyString)
  else if (n =? 92)%nat then String c (String c EmptyString)
  else if (n =? 10)%nat then String (ascii_of_nat 92) "n"
  else if (n =? 9)%nat then String (ascii_of_nat 92) "t"
  else if (n =? 13)%nat then String (ascii_of_nat 92) "r"
  else String c EmptyString.

Fixpoint escape (s : string) : string :=
  match s with
  | EmptyString => EmptyString
  | String c r => escape_char c +:+ escape r
  end.

Definition quote (s : string) : string :=
  String (ascii_of_nat 34) (escape s +:+ String (ascii_of_nat 34) EmptyString).

(** [None] is [undefined]: what [JSON.stringify(undefined)] returns, and the
    reason a member is left out of an object. *)
Fixpoint stringify (v : jsval) : option string :=
  match v with
  | JUndef => None
  | JNull => Some "null"
  | JBool true => Some "true"
  | JBool false => Some "false"
  | JNum z => Some (pretty z)
  | JStr s => Some (quote s)
  | JArr l =>
      Some ("[" +:+ concat_sep "," (List.map (fun x => default "null" (stringify x)) l) +:+ "]")
  | JObj kvs =>
      Some ("{" +:+ concat_sep ","
              ((fix go (kvs : list (string * jsval)) : list string :=
                  match kvs with
                  | [] => []
                  | (k, x) :: r =>
                      match stringify x with
                      | Some t => (quote k +:+ ":" +:+ t) :: go r
                      | None => go r
                      end
                  end) kvs) +:+ "}")
  end.

Definition JSON_stringify_ref (v : jsval) : jsval :=
  match stringify v with Some s => JStr s | None => JUndef end.

(** Whether a string of decimal digits denotes a number above zero; any
    other string counts as not above zero. *)
Definition StringToNumber_pos_ref (s : string) : bool :=
  match number s with
  | Some (JNum z, EmptyString) => 0 <? z
  | _ => false
  end.

(** The host whose network answers the n-th request with the n-th entry of
    [script], and fails once the script is exhausted. *)
Definition host (script : list (res Response)) : Host :=
  {| JSON_parse := JSON_parse_ref;
     JSON_stringify := JSON_stringify_ref;
     fetch_reply := fun n _ => nth n script (inl (Error "Failed to fetch"));
     Date_now := fun n => 1700000000000 + Z.of_nat n;
     StringToNumber_pos := StringToNumber_pos_ref |}.

End Ref.

(** * Vocabulary of the statements *)

(** The messages stored for a conversation. *)
Definition messagesOf (cid : string) (w : World) : list Message :=
  match conversations w !! cid with Some c => c_messages c | None => [] end.

(** The tool-role messages stored for a conversation. *)
Definition toolMessages (cid : string) (w : World) : list Message :=
  List.filter (fun m => is_tool (m_role m)) (messagesOf cid w).

(** The same tool-role messages before and after, in every conversation. *)
Definition same_tool_messages (w w' : World) : Prop :=
  forall cid, toolMessages cid w' = toolMessages cid w.

(** A computation respects [R] when [R] relates the state it starts in to
    the state it ends in. *)
Definition keeps (R : World -> World -> Prop) {A} (m : M A) : Prop :=
  forall w, R w (fst (m w)).

(** The same number of model calls before and after. *)
Definition same_calls (w w' : World) : Prop := modelCalls w' = modelCalls w.

(** Everything but the list of issued requests. *)
Definition same_but_requests (w w' : World) : Prop :=
  conversations w' = conversations w /\
  currentConversationId w' = currentConversationId w /\
  settings_llm w' = settings_llm w /\
  apiCalls w' = apiCalls w /\
  ticks w' = ticks w /\
  modelCalls w' = modelCalls w.

(** [callLLM] neither reads nor writes the count of model calls: started
    with another count, it does the same and leaves that count. *)
Definition blind {A} (m : M A) : Prop :=
  forall f w, m (set_modelCalls f w) = (set_modelCalls f (fst (m w)), snd (m w)).

(** What the primary endpoint's reply amounts to: a payload, or the error
    the [try] block throws. *)
Definition primaryOutcome `{H : Host} (n : nat) (rq : Request) (body : jsval) : res jsval :=
  match fetch_reply n rq with
  | inl e => inl e
  | inr resp => if negb (ok resp) then primaryFailure resp body else json resp
  end.

Definition fallbackOutcome `{H : Host} (n : nat) (rq : Request) : res jsval :=
  match fetch_reply n rq with
  | inl e => inl e
  | inr resp2 => if negb (ok resp2) then fallbackFailure resp2 else json resp2
  end.

(** The state after the requests [rqs] have been issued. *)
Definition issued (rqs : list Request) (w : World) : World :=
  set_requests (fun l => (l ++ rqs)%list) w.

(** A request whose [function.name] is a non-empty string. *)
Definition named (tc : jsval) (n : string) : Prop :=
  prop (prop tc "function") "name" = JStr n /\ n <> EmptyString.

(** Conversations are kept and their messages only grow. *)
Definition append_only (w w' : World) : Prop :=
  forall cid c, conversations w !! cid = Some c ->
    exists c' added, conversations w' !! cid = Some c' /\
      c_messages c' = (c_messages c ++ added)%list.

(** The settings and the current conversation are the same. *)
Definition same_settings (w w' : World) : Prop :=
  settings_llm w' = settings_llm w /\ currentConversationId w' = currentConversationId w.

(** A title that has been set (neither empty nor the placeholder) stays. *)
Definition titles_kept (w w' : World) : Prop :=
  forall cid c, conversations w !! cid = Some c ->
    c_title c <> EmptyString -> c_title c <> "New Conversation" ->
    exists c', conversations w' !! cid = Some c' /\ c_title c' = c_title c.

(** Role and content of the messages stored for a conversation. *)
Definition outline (cid : string) (w : World) : list (Role * jsval) :=
  List.map (fun m => (m_role m, m_content m)) (messagesOf cid w).

Fixpoint slashes (k : nat) : string :=
  match k with O => EmptyString | S k' => String "/" (slashes k') end.

Fixpoint ends_with_slash (s : string) : bool :=
  match s with
  | EmptyString => false
  | String c EmptyString => Ascii.eqb c "/"
  | String _ r => ends_with_slash r
  end.

(** A value that is not an object or an array. *)
Definition primitive (v : jsval) : bool :=
  match v with JArr _ | JObj _ => false | _ => true end.

(** The request log is extended, by at most [n] requests. *)
Definition log_grows (n : nat) (w w' : World) : Prop :=
  exists rqs, requests w' = (requests w ++ rqs)%list /\ (length rqs <= n)%nat.

(** ** A page for closed examples

    [trim] removes the ASCII white space at both ends, which is what
    [String.prototype.trim] does on ASCII text. *)

Module Page.

Definition is_space (c : ascii) : bool :=
  let n := nat_of_ascii c in ((9 <=? n)%nat && (n <=? 13)%nat) || (n =? 32)%nat.

Fixpoint trim_start (s : string) : string :=
  match s with
  | String c r => if is_space c then trim_start r else s
  | EmptyString => s
  end.

Fixpoint trim_end (s : string) : string :=
  match s with
  | EmptyString => EmptyString
  | String c r =>
      match trim_end r with
      | EmptyString => if is_space c then EmptyString else String c EmptyString
      | r' => String c r'
      end
  end.

Definition trim (s : string) : string := trim_end (trim_start s).

End Page.

(** ** Closed examples: a conversation, settings, requests *)

Module Example.

(** The default settings, with the given provider and key (and an integer
    temperature). *)
Definition llm (provider apiKey : jsval) : LLMSettings :=
  {| provider := provider;
     apiKey := apiKey;
     model := JStr "openai/gpt-4o-mini";
     maxTokens := JNum 2000;
     temperature := JNum 1;
     baseUrl := JStr "https://aipipe.org" |}.

Definition question : Message :=
  {| m_id := JStr "msg_1699999999000"; m_role := user; m_content := JStr "IBM";
     m_timestamp := JNum 1699999999000; m_tool_calls := JUndef;
     m_tool_call_id := JUndef; m_name := JUndef |}.

Definition conversation : Conversation :=
  {| c_id := "conv_1"; c_title := "IBM"; c_messages := [question];
     c_createdAt := 1699999990000; c_updatedAt := 1699999999000; c_preview := "IBM" |}.

Definition world (settings : LLMSettings) : World :=
  {| conversations := {[ "conv_1" := conversation ]};
     currentConversationId := Some "conv_1";
     settings_llm := settings;
     apiCalls := 0;
     requests := [];
     ticks := 0;
     modelCalls := 0 |}.

(** An upstream reply carrying [data] as its JSON body. *)
Definition reply (code : Z) (text : string) (data : jsval) : res Response :=
  inr {| status := code; statusText := text; json := inr data |}.

(** A chat-completion payload with the given message object. *)
Definition completion (message : jsval) : jsval :=
  JObj [("choices", JArr [JObj [("message", message)]])].

End Example.

Module Calls.

(** Requests as the loop reads them: [id], [function.name], and the
    argument payload under [arguments]. *)
Definition request (id name arguments : string) : jsval :=
  JObj [("id", JStr id); ("type", JStr "function");
        ("function", JObj [("name", JStr name)]);
        ("arguments", JStr arguments)].

Definition search_ibm : jsval :=
  request "call_1" "web_search"
    ("{" +:+ dquote +:+ "query" +:+ dquote +:+ ":" +:+ dquote +:+ "IBM" +:+ dquote +:+ "}").

Definition run_code : jsval :=
  request "call_2" "execute_code"
    ("{" +:+ dquote +:+ "code" +:+ dquote +:+ ":" +:+ dquote +:+ "1+1" +:+ dquote +:+ "}").

(** A well-formed JSON payload that is [null]. *)
Definition search_null : jsval := request "call_3" "web_search" "null".

Definition search_malformed : jsval := request "call_4" "web_search" "{not json".

Definition unknown_tool : jsval := request "call_5" "get_weather" "{}".

End Calls.

(** * Properties *)

(** ** The normalised response *)

Lemma parseAPIResponse_shape (data r : jsval) :
  parseAPIResponse data = inr r -> exists c, r = JObj [("content", c)].
Proof.
  unfold parseAPIResponse, parseAPIResponse_body, rbind, rret, rthrow.
  intros Hp.
  repeat case_match; simplify_eq; eauto.
Qed.

Lemma content_only_no_tool_calls `{H : Host} (c : jsval) :
  hasToolCalls (JObj [("content", c)]) = inr false.
Proof. reflexivity. Qed.

(** ** Framing: what a computation leaves alone

    [R w w'] relates the state before to the state after.  Once the
    primitive state changes respect a preorder [R], so does everything
    built from them. *)

Section Frame.
Context `{H : Host}.
Variable R : World -> World -> Prop.
Hypothesis R_refl : forall w, R w w.
Hypothesis R_trans : forall a b c, R a b -> R b c -> R a c.

Lemma keeps_ret {A} (a : A) : keeps R (ret a).
Proof. intros w. apply R_refl. Qed.

Lemma keeps_throw {A} (e : exn) : keeps R (@throw A e).
Proof. intros w. apply R_refl. Qed.

Lemma keeps_lift {A} (r : res A) : keeps R (lift r).
Proof. intros w. apply R_refl. Qed.

Lemma keeps_gets {A} (f : World -> A) : keeps R (gets f).
Proof. intros w. apply R_refl. Qed.

Lemma keeps_bind {A B} (m : M A) (k : A -> M B) :
  keeps R m -> (forall a, keeps R (k a)) -> keeps R (bind m k).
Proof.
  intros Hm Hk w. unfold bind.
  specialize (Hm w). destruct (m w) as [w' [e | a]]; simpl in *.
  - exact Hm.
  - eapply R_trans; [exact Hm | apply Hk].
Qed.

Lemma keeps_try_catch {A} (m : M A) (h : exn -> M A) :
  keeps R m -> (forall e, keeps R (h e)) -> keeps R (try_catch m h).
Proof.
  intros Hm Hh w. unfold try_catch.
  specialize (Hm w). destruct (m w) as [w' [e | a]]; simpl in *.
  - eapply R_trans; [exact Hm | apply Hh].
  - exact Hm.
Qed.

Lemma keeps_startAll {A} (calls : list (M A)) :
  (forall c, In c calls -> keeps R c) -> forall w, R w (fst (startAll calls w)).
Proof.
  induction calls as [| c r IH]; intros Hall w; simpl.
  - apply R_refl.
  - pose proof (Hall c (or_introl eq_refl) w) as Hc.
    destruct (c w) as [w1 a]; simpl in Hc.
    specialize (IH (fun c' Hin => Hall c' (or_intror Hin)) w1).
    destruct (startAll r w1) as [w2 rs]; simpl in *.
    eapply R_trans; eassumption.
Qed.

Lemma keeps_Promise_all {A} (calls : list (M A)) :
  (forall c, In c calls -> keeps R c) -> keeps R (Promise_all calls).
Proof.
  intros Hall w. unfold Promise_all.
  pose proof (keeps_startAll calls Hall w) as Hs.
  destruct (startAll calls w) as [w' rs]; exact Hs.
Qed.

Lemma keeps_forEach {A} (f : A -> M unit) (l : list A) :
  (forall a, keeps R (f a)) -> keeps R (forEach f l).
Proof.
  intros Hf. induction l as [| a r IH]; simpl.
  - apply keeps_ret.
  - apply keeps_bind; [apply Hf | intros _; exact IH].
Qed.

(** *** Composite operations, given the primitive ones *)

Hypothesis keeps_addMessage_other :
  forall role content cid, is_tool role = false -> keeps R (addMessage role content cid).
Hypothesis keeps_push_other :
  forall cid m, is_tool (m_role m) = false -> keeps R (pushMessage cid m).

Lemma keeps_executeTool (toolCall : jsval) : keeps R (executeTool toolCall).
Proof.
  unfold executeTool.
  apply keeps_bind; [apply keeps_lift | intros _].
  apply keeps_bind; [apply keeps_lift | intros n].
  apply keeps_bind; [apply keeps_gets | intros cur].
  apply keeps_bind; [apply keeps_addMessage_other; reflexivity | intros _].
  destruct (executor _).
  - apply keeps_lift.
  - apply keeps_bind; [apply keeps_lift | intros; apply keeps_ret].
Qed.

Lemma keeps_dispatchAll (tcs : list jsval) : keeps R (dispatchAll tcs).
Proof.
  apply keeps_Promise_all. intros c Hin.
  apply in_map_iff in Hin as [tc [<- _]]. apply keeps_executeTool.
Qed.

Hypothesis keeps_addMessage : forall role content cid, keeps R (addMessage role content cid).
Hypothesis keeps_push : forall cid m, keeps R (pushMessage cid m).

Lemma keeps_dispatchTools (cid : string) (tool_calls : jsval) :
  keeps R (dispatchTools cid tool_calls).
Proof.
  unfold dispatchTools. destruct tool_calls; try apply keeps_lift.
  apply keeps_bind; [apply keeps_lift | intros names].
  apply keeps_bind; [apply keeps_lift | intros s].
  apply keeps_bind; [apply keeps_addMessage | intros _].
  apply keeps_bind; [apply keeps_push | intros _].
  apply keeps_bind; [apply keeps_dispatchAll | intros results].
  apply keeps_forEach. intros [result tc]. unfold appendToolResult.
  apply keeps_bind; [apply keeps_lift | intros i].
  apply keeps_bind; [apply keeps_lift | intros f].
  apply keeps_bind; [apply keeps_lift | intros n].
  apply keeps_bind; [apply keeps_push | intros _; apply keeps_addMessage].
Qed.

Lemma keeps_handleResponse (cid : string) (response : jsval) :
  keeps R (handleResponse cid response).
Proof.
  unfold handleResponse.
  apply keeps_bind.
  - destruct (_ && _); [apply keeps_addMessage | apply keeps_ret].
  - intros _. apply keeps_bind; [apply keeps_lift | intros [|]].
    + apply keeps_bind; [apply keeps_dispatchTools | intros; apply keeps_ret].
    + apply keeps_ret.
Qed.

Hypothesis keeps_fetch : forall rq, keeps R (fetch rq).

Lemma keeps_primaryCall base hdrs body : keeps R (primaryCall base hdrs body).
Proof.
  unfold primaryCall.
  apply keeps_bind; [apply keeps_fetch | intros resp].
  destruct (negb (ok resp)); apply keeps_lift.
Qed.

Lemma keeps_fallbackCall base hdrs body : keeps R (fallbackCall base hdrs body).
Proof.
  unfold fallbackCall.
  apply keeps_bind; [apply keeps_fetch | intros resp].
  destruct (negb (ok resp)); apply keeps_lift.
Qed.

Lemma keeps_callLLM (conversation : Conversation) : keeps R (callLLM conversation).
Proof.
  unfold callLLM.
  apply keeps_bind; [apply keeps_gets | intros llm].
  destruct (negb (truthy (provider llm))); [apply keeps_throw |].
  destruct (negb (truthy (apiKey llm))); [apply keeps_ret |].
  repeat case_match; try apply keeps_throw; try apply keeps_lift.
  apply keeps_bind; [apply keeps_lift | intros key].
  apply keeps_try_catch; [apply keeps_primaryCall | intros err].
  apply keeps_try_catch; [apply keeps_fallbackCall | intros err2; apply keeps_throw].
Qed.

Hypothesis keeps_count : forall f, keeps R (modify (set_apiCalls f)).

Lemma keeps_respond (cid : string) (conversation : Conversation) :
  keeps R (respond cid conversation).
Proof.
  unfold respond.
  apply keeps_bind; [apply keeps_callLLM | intros data].
  apply keeps_bind; [apply keeps_count | intros _].
  apply keeps_bind; [apply keeps_lift | intros r; apply keeps_handleResponse].
Qed.

End Frame.

(** ** How often the model is called *)

Lemma addMessage_returns `{H : Host} role content cid w :
  snd (addMessage role content cid w) = inr tt.
Proof. unfold addMessage. repeat case_match; reflexivity. Qed.

Lemma addMessage_same_calls `{H : Host} role content cid :
  keeps same_calls (addMessage role content cid).
Proof. intros w. unfold addMessage, same_calls. repeat case_match; reflexivity. Qed.

Lemma pushMessage_same_calls cid m : keeps same_calls (pushMessage cid m).
Proof. intros w. reflexivity. Qed.

Lemma fetch_same_calls `{H : Host} rq : keeps same_calls (fetch rq).
Proof. intros w. reflexivity. Qed.

Lemma respond_same_calls `{H : Host} cid conversation :
  keeps same_calls (respond cid conversation).
Proof.
  apply keeps_respond;
    first [ intros; apply addMessage_same_calls
          | intros; apply pushMessage_same_calls
          | intros; apply fetch_same_calls
          | unfold same_calls; intros; congruence
          | intros f w; reflexivity ].
Qed.

Lemma onTurnError_breaks `{H : Host} cid err w :
  exists w', onTurnError cid err w = (w', inr Break) /\ modelCalls w' = modelCalls w.
Proof.
  unfold onTurnError, bind.
  pose proof (addMessage_returns system (JStr ("Agent iteration error: " +:+ errorLabel err))
                (Some cid) w) as Hr.
  pose proof (addMessage_same_calls system (JStr ("Agent iteration error: " +:+ errorLabel err))
                (Some cid) w) as Hc.
  destruct (addMessage _ _ _ w) as [w' r]; simpl in *; subst r.
  exists w'. split; [reflexivity | exact Hc].
Qed.

(** A turn never throws, and calls the model once when the conversation is
    there. *)
Lemma turn_total `{H : Host} cid w :
  exists w' c, turn cid w = (w', inr c) /\
    modelCalls w' = match conversations w !! cid with
                    | Some _ => S (modelCalls w)
                    | None => modelCalls w
                    end.
Proof.
  unfold turn, try_catch, bind, gets. simpl.
  destruct (conversations w !! cid) as [conversation |] eqn:Hc; simpl.
  - pose proof (respond_same_calls cid conversation (set_modelCalls S w)) as Hk.
    destruct (respond cid conversation (set_modelCalls S w)) as [w1 [e | c]]; simpl in Hk.
    + destruct (onTurnError_breaks cid e w1) as [w' [-> Hw']].
      exists w', Break. split; [reflexivity |]. unfold same_calls in Hk.
      rewrite Hw', Hk. reflexivity.
    + exists w1, c. split; [reflexivity | exact Hk].
  - exists w, Break. split; reflexivity.
Qed.

Lemma loop_bounded `{H : Host} (maxTurns : nat) cid w :
  exists w', loop maxTurns cid w = (w', inr tt) /\
    (modelCalls w' <= modelCalls w + maxTurns)%nat.
Proof.
  revert w. induction maxTurns as [| n IH]; intros w; simpl.
  - exists w. split; [reflexivity | unfold ret; lia].
  - unfold bind.
    destruct (turn_total cid w) as [w1 [c [-> Hcalls]]].
    assert (modelCalls w1 <= S (modelCalls w))%nat as Hle
      by (destruct (conversations w !! cid); lia).
    destruct c.
    + destruct (IH w1) as [w2 [-> Hw2]]. exists w2. split; [reflexivity | lia].
    + exists w1. split; [reflexivity | lia].
Qed.

(** The normalised response never sends a turn into the tool branch. *)
Lemma respond_never_continues `{H : Host} cid conversation w w' c :
  respond cid conversation w = (w', inr c) -> c = Break.
Proof.
  unfold respond, bind, modify, lift.
  destruct (callLLM conversation w) as [w1 [e | data]]; [discriminate |].
  destruct (parseAPIResponse data) as [e | r] eqn:Hp; [discriminate |].
  apply parseAPIResponse_shape in Hp as [content ->].
  unfold handleResponse, bind, lift. rewrite content_only_no_tool_calls.
  destruct (_ && _).
  - pose proof (addMessage_returns assistant (prop (JObj [("content", content)]) "content")
                  (Some cid) (set_apiCalls (fun n => n + 1) w1)) as Hr.
    destruct (addMessage _ _ _ _) as [w2 r]; simpl in Hr; subst r.
    unfold ret. congruence.
  - unfold ret. congruence.
Qed.

Lemma turn_breaks `{H : Host} cid w :
  exists w', turn cid w = (w', inr Break).
Proof.
  unfold turn, try_catch, bind, gets. simpl.
  destruct (conversations w !! cid) as [conversation |]; simpl; [| eauto].
  destruct (respond cid conversation (set_modelCalls S w)) as [w1 [e | c]] eqn:Hr.
  - destruct (onTurnError_breaks cid e w1) as [w' [-> _]]. eauto.
  - apply respond_never_continues in Hr as ->. eauto.
Qed.

Lemma agentLoop_one_call `{H : Host} cid conversation w :
  conversations w !! cid = Some conversation ->
  exists w', agentLoop cid w = (w', inr tt) /\ modelCalls w' = S (modelCalls w).
Proof.
  intros Hc. unfold agentLoop, bind, gets. simpl. rewrite Hc. simpl. unfold bind.
  destruct (turn_total cid w) as [w1 [c [Ht Hcalls]]].
  destruct (turn_breaks cid w) as [w1' Hb].
  rewrite Hb in Ht. injection Ht as <- <-.
  rewrite Hb. rewrite Hc in Hcalls. exists w1'. split; [reflexivity | exact Hcalls].
Qed.

(** ** C1 and C3: the loop and the model *)

(** C1.  Whatever the upstream payload, a normalised response is an object
    whose only member is [content] (the text the payload carried, or the
    value it had in that place): it has no [tool_calls], so the test that
    guards the tool branch of a turn is false, a turn that receives a
    response always breaks, and an invocation of the loop on a stored
    conversation calls the model exactly once. *)
Theorem C1_normalized_response_never_dispatches `{H : Host} :
  (forall data r, parseAPIResponse data = inr r ->
     exists content, r = JObj [("content", content)] /\
       prop r "tool_calls" = JUndef /\ hasToolCalls r = inr false)
  /\ (forall cid conversation w w' c,
        respond cid conversation w = (w', inr c) -> c = Break)
  /\ (forall cid conversation w,
        conversations w !! cid = Some conversation ->
        exists w', agentLoop cid w = (w', inr tt) /\ modelCalls w' = S (modelCalls w)).
Proof.
  split; [| split].
  - intros data r Hp. apply parseAPIResponse_shape in Hp as [content ->].
    exists content. repeat split.
  - intros cid conversation w w' c. apply respond_never_continues.
  - intros cid conversation w. apply agentLoop_one_call.
Qed.

(** An upstream reply that asks for a tool: the request is dropped by the
    normaliser and the loop stops after its first model call. *)
Lemma C1_witness :
  let host := Ref.host [Example.reply 200 "OK"
                (Example.completion
                   (JObj [("content", JNull);
                          ("tool_calls",
                           JArr [JObj [("id", JStr "call_1");
                                       ("type", JStr "function");
                                       ("function",
                                        JObj [("name", JStr "web_search");
                                              ("arguments", JStr "{}")])]])]))] in
  let w := Example.world (Example.llm (JStr "aipipe") (JStr "token")) in
  exists w', @agentLoop host "conv_1" w = (w', inr tt) /\ modelCalls w' = 1%nat.
Proof.
  intros host w.
  destruct (@C1_normalized_response_never_dispatches host) as [_ [_ Hloop]].
  apply (Hloop "conv_1" Example.conversation w). reflexivity.
Defined.

(** C3.  Whatever the model answers, one invocation of the loop returns
    without throwing after at most five model calls. *)
Theorem C3_turn_budget `{H : Host} (cid : string) (w : World) :
  exists w', agentLoop cid w = (w', inr tt) /\ (modelCalls w' <= modelCalls w + 5)%nat.
Proof.
  unfold agentLoop, bind, gets. cbv beta iota.
  destruct (conversations w !! cid).
  - exact (loop_bounded 5 cid w).
  - exists w. split; [reflexivity | lia].
Qed.

(** ** What [addMessage] and [callLLM] change *)

Lemma touch_messages `{H : Host} role content now c :
  c_messages (touch role content now c) = c_messages c.
Proof. unfold touch. repeat case_match; reflexivity. Qed.

Lemma addMessage_appends `{H : Host} role content cid c w :
  cid <> EmptyString -> conversations w !! cid = Some c -> nullish content = false ->
  exists w' msg,
    addMessage role content (Some cid) w = (w', inr tt) /\
    messagesOf cid w' = (c_messages c ++ [msg])%list /\
    m_role msg = role /\ m_content msg = content /\
    m_tool_calls msg = JUndef /\
    (forall other, other <> cid -> conversations w' !! other = conversations w !! other) /\
    requests w' = requests w /\ modelCalls w' = modelCalls w /\
    currentConversationId w' = currentConversationId w /\
    settings_llm w' = settings_llm w.
Proof.
  intros Hne Hc Hn. unfold addMessage.
  assert (truthy_id (Some cid) = true) as Hid.
  { cbn. apply negb_true_iff, String.eqb_neq. exact Hne. }
  rewrite !Hid. cbn [negb]. rewrite Hc, Hn.
  eexists _, _. split; [reflexivity |].
  split.
  { unfold messagesOf. cbn. rewrite lookup_insert_eq. rewrite touch_messages. reflexivity. }
  repeat split.
  intros other Ho. cbn. rewrite lookup_insert_ne by congruence. reflexivity.
Qed.

Lemma callLLM_same_but_requests `{H : Host} conversation :
  keeps same_but_requests (callLLM conversation).
Proof.
  apply keeps_callLLM.
  - intros w. repeat split.
  - intros a b c (? & ? & ? & ? & ? & ?) (? & ? & ? & ? & ? & ?).
    repeat split; congruence.
  - intros rq w. repeat split.
Qed.

Lemma blind_ret {A} (a : A) : blind (ret a).
Proof. intros f w. reflexivity. Qed.

Lemma blind_throw {A} (e : exn) : blind (@throw A e).
Proof. intros f w. reflexivity. Qed.

Lemma blind_lift {A} (r : res A) : blind (lift r).
Proof. intros f w. reflexivity. Qed.

Lemma blind_bind {A B} (m : M A) (k : A -> M B) :
  blind m -> (forall a, blind (k a)) -> blind (bind m k).
Proof.
  intros Hm Hk f w. unfold bind. rewrite Hm.
  destruct (m w) as [w1 [e | a]]; cbn; [reflexivity | apply Hk].
Qed.

Lemma blind_try_catch {A} (m : M A) (h : exn -> M A) :
  blind m -> (forall e, blind (h e)) -> blind (try_catch m h).
Proof.
  intros Hm Hh f w. unfold try_catch. rewrite Hm.
  destruct (m w) as [w1 [e | a]]; cbn; [apply Hh | reflexivity].
Qed.

Lemma blind_fetch `{H : Host} rq : blind (fetch rq).
Proof. intros f w. reflexivity. Qed.

Lemma blind_callLLM `{H : Host} conversation : blind (callLLM conversation).
Proof.
  unfold callLLM.
  apply blind_bind; [intros f w; reflexivity | intros llm].
  destruct (negb (truthy (provider llm))); [apply blind_throw |].
  destruct (negb (truthy (apiKey llm))); [apply blind_ret |].
  repeat case_match; try apply blind_throw; try apply blind_lift.
  apply blind_bind; [apply blind_lift | intros key].
  apply blind_try_catch; [| intros err; apply blind_try_catch].
  - unfold primaryCall. apply blind_bind; [apply blind_fetch | intros resp].
    destruct (negb (ok resp)); apply blind_lift.
  - unfold fallbackCall. apply blind_bind; [apply blind_fetch | intros resp].
    destruct (negb (ok resp)); apply blind_lift.
  - intros err2. apply blind_throw.
Qed.

Lemma loop_S `{H : Host} n cid w :
  loop (S n) cid w =
  match turn cid w with
  | (w1, inr Continue) => loop n cid w1
  | (w1, inr Break) => (w1, inr tt)
  | (w1, inl e) => (w1, inl e)
  end.
Proof.
  cbn [loop]. unfold bind. destruct (turn cid w) as [w1 [e | [|]]]; reflexivity.
Qed.

Lemma agentLoop_eq `{H : Host} cid w :
  agentLoop cid w =
  match conversations w !! cid with
  | Some _ => loop 5 cid w
  | None => (w, inr tt)
  end.
Proof.
  unfold agentLoop. unfold bind at 1. unfold gets. cbv beta match.
  destruct (conversations w !! cid); reflexivity.
Qed.

Lemma handleResponse_content_only `{H : Host} cid content w :
  handleResponse cid (JObj [("content", content)]) w =
  if truthy content
  then (fst (addMessage assistant content (Some cid) w), inr Break)
  else (w, inr Break).
Proof.
  unfold handleResponse, bind, lift. rewrite content_only_no_tool_calls.
  change (prop (JObj [("content", content)]) "content") with content.
  change (truthy (JObj [("content", content)])) with true.
  cbn [andb]. destruct (truthy content); [| reflexivity].
  pose proof (addMessage_returns assistant content (Some cid) w) as Hr.
  destruct (addMessage assistant content (Some cid) w) as [w' r].
  cbn in Hr. subst r. reflexivity.
Qed.

(** An invocation in which the model call and the normalisation succeed. *)
Lemma agentLoop_plain `{H : Host} cid conversation w w1 data r :
  cid <> EmptyString ->
  conversations w !! cid = Some conversation ->
  callLLM conversation w = (w1, inr data) ->
  parseAPIResponse data = inr r ->
  exists w',
    agentLoop cid w = (w', inr tt) /\
    modelCalls w' = S (modelCalls w) /\
    requests w' = requests w1 /\
    if truthy (prop r "content")
    then exists msg, messagesOf cid w' = (c_messages conversation ++ [msg])%list /\
           m_role msg = assistant /\ m_content msg = prop r "content" /\
           m_tool_calls msg = JUndef
    else messagesOf cid w' = c_messages conversation.
Proof.
  intros Hne Hc Hcall Hp.
  assert (callLLM conversation (set_modelCalls S w)
          = (set_modelCalls S w1, inr data)) as Hcall'.
  { rewrite blind_callLLM, Hcall. reflexivity. }
  pose proof (callLLM_same_but_requests conversation w) as Hk.
  rewrite Hcall in Hk. destruct Hk as (Hcs & Hcur & Hllm & Hapi & Htk & Hmc).
  cbn [fst] in Hcs, Hcur, Hllm, Hapi, Htk, Hmc.
  destruct (parseAPIResponse_shape _ _ Hp) as [content ->].
  rewrite agentLoop_eq, Hc, loop_S.
  assert (Hturn : exists w',
    turn cid w = (w', inr Break) /\ modelCalls w' = S (modelCalls w) /\
    requests w' = requests w1 /\
    if truthy content
    then exists msg, messagesOf cid w' = (c_messages conversation ++ [msg])%list /\
           m_role msg = assistant /\ m_content msg = content /\
           m_tool_calls msg = JUndef
    else messagesOf cid w' = c_messages conversation).
  { unfold turn, try_catch, bind, gets. cbv beta iota. rewrite Hc.
    unfold modify at 1. cbv beta iota.
    unfold respond, bind. rewrite Hcall'. unfold modify, lift. rewrite Hp.
    rewrite handleResponse_content_only.
    destruct (truthy content) eqn:Ht.
    - destruct (addMessage_appends assistant content cid conversation
                  (set_apiCalls (fun n => n + 1) (set_modelCalls S w1)))
        as (w2 & msg & Hadd & Hmsgs & Hrole & Hcont & Htc & _ & Hreq & Hcalls & _).
      + exact Hne.
      + cbn. rewrite Hcs. exact Hc.
      + destruct content; try discriminate; reflexivity.
      + rewrite Hadd. exists w2. repeat split.
        * rewrite Hcalls. cbn. congruence.
        * rewrite Hreq. reflexivity.
        * exists msg. repeat split; assumption.
    - eexists. split; [reflexivity |]. repeat split.
      + cbn. congruence.
      + unfold messagesOf. cbn. rewrite Hcs, Hc. reflexivity. }
  destruct Hturn as (w' & -> & Hrest).
  exists w'. split; [reflexivity | exact Hrest].
Qed.

(** ** C7 and C8: a turn without tools *)

(** C7 (amended).  With a provider configured and no API key, [callLLM]
    returns the canned payload without touching the state, so without
    issuing a request; the payload normalises to the demo text, and the loop
    stores it as an assistant message and returns normally. *)
Theorem C7_demo_mode `{H : Host} cid conversation w :
  truthy (provider (settings_llm w)) = true ->
  truthy (apiKey (settings_llm w)) = false ->
  callLLM conversation w = (w, inr demoResponse) /\
  parseAPIResponse demoResponse = inr (JObj [("content", JStr demoContent)]) /\
  (cid <> EmptyString -> conversations w !! cid = Some conversation ->
   exists w' msg,
     agentLoop cid w = (w', inr tt) /\
     requests w' = requests w /\
     messagesOf cid w' = (c_messages conversation ++ [msg])%list /\
     m_role msg = assistant /\ m_content msg = JStr demoContent).
Proof.
  intros Hprov Hkey.
  assert (callLLM conversation w = (w, inr demoResponse)) as Hcall.
  { unfold callLLM, bind, gets. cbv beta match. rewrite Hprov, Hkey. reflexivity. }
  split; [exact Hcall |]. split; [reflexivity |].
  intros Hne Hc.
  destruct (agentLoop_plain cid conversation w w demoResponse
              (JObj [("content", JStr demoContent)]) Hne Hc Hcall eq_refl)
    as (w' & Hloop & _ & Hreq & msg & Hmsgs & Hrole & Hcont & _).
  exists w', msg. repeat split; assumption.
Qed.

Lemma C7_witness :
  let w := Example.world (Example.llm (JStr "aipipe") (JStr EmptyString)) in
  @callLLM (Ref.host []) Example.conversation w = (w, inr demoResponse) /\
  exists w' msg,
    @agentLoop (Ref.host []) "conv_1" w = (w', inr tt) /\
    requests w' = [] /\
    messagesOf "conv_1" w' = [Example.question; msg] /\
    m_role msg = assistant /\ m_content msg = JStr demoContent.
Proof.
  intros w.
  destruct (@C7_demo_mode (Ref.host []) "conv_1" Example.conversation w eq_refl eq_refl)
    as (Hcall & _ & Hloop).
  split; [exact Hcall |].
  apply Hloop; [discriminate | reflexivity].
Defined.

(** With neither provider nor key in the settings the call throws instead
    of answering with the demo text. *)
Lemma C7_no_provider_throws :
  let w := Example.world (Example.llm (JStr EmptyString) (JStr EmptyString)) in
  truthy (apiKey (settings_llm w)) = false /\
  @callLLM (Ref.host []) Example.conversation w
  = (w, inl (Error "No LLM provider configured.")).
Proof. split; reflexivity. Qed.

(** C8 (amended).  When the model call succeeds and the normalised response
    has non-empty content, one invocation of the loop on a stored
    conversation appends exactly one message, an assistant message with
    that content, and returns after that single model call. *)
Theorem C8_plain_response_appends_one_message `{H : Host}
    cid conversation w w1 data r :
  cid <> EmptyString ->
  conversations w !! cid = Some conversation ->
  callLLM conversation w = (w1, inr data) ->
  parseAPIResponse data = inr r ->
  truthy (prop r "content") = true ->
  exists w' msg,
    agentLoop cid w = (w', inr tt) /\
    modelCalls w' = S (modelCalls w) /\
    messagesOf cid w' = (c_messages conversation ++ [msg])%list /\
    m_role msg = assistant /\ m_content msg = prop r "content" /\
    m_tool_calls msg = JUndef.
Proof.
  intros Hne Hc Hcall Hp Ht.
  destruct (agentLoop_plain cid conversation w w1 data r Hne Hc Hcall Hp)
    as (w' & Hloop & Hcalls & _ & Hmsgs).
  rewrite Ht in Hmsgs. destruct Hmsgs as (msg & Hm & Hrole & Hcont & Htc).
  exists w', msg. repeat split; assumption.
Qed.

Lemma C8_witness :
  let host := Ref.host [Example.reply 200 "OK"
                (Example.completion (JObj [("content", JStr "IBM is a tech company.")]))] in
  let w := Example.world (Example.llm (JStr "aipipe") (JStr "token")) in
  exists w' msg,
    @agentLoop host "conv_1" w = (w', inr tt) /\
    modelCalls w' = 1%nat /\
    messagesOf "conv_1" w' = [Example.question; msg] /\
    m_role msg = assistant /\ m_content msg = JStr "IBM is a tech company." /\
    m_tool_calls msg = JUndef.
Proof.
  intros host w.
  apply (@C8_plain_response_appends_one_message host "conv_1" Example.conversation w
           (fst (@callLLM host Example.conversation w))
           (Example.completion (JObj [("content", JStr "IBM is a tech company.")]))
           (JObj [("content", JStr "IBM is a tech company.")])).
  - discriminate.
  - reflexivity.
  - vm_compute. reflexivity.
  - reflexivity.
  - reflexivity.
Defined.

(** A reply with empty content and no tool calls: the loop returns and the
    conversation has gained no message. *)
Lemma C8_empty_content_appends_nothing :
  let message := JObj [("content", JStr EmptyString)] in
  let host := Ref.host [Example.reply 200 "OK" (Example.completion message)] in
  let w := Example.world (Example.llm (JStr "aipipe") (JStr "token")) in
  prop message "tool_calls" = JUndef /\
  snd (@agentLoop host "conv_1" w) = inr tt /\
  messagesOf "conv_1" (fst (@agentLoop host "conv_1" w)) = messagesOf "conv_1" w /\
  ~ (exists msg, messagesOf "conv_1" (fst (@agentLoop host "conv_1" w))
                 = (messagesOf "conv_1" w ++ [msg])%list /\ m_role msg = assistant).
Proof.
  intros message host w.
  assert (messagesOf "conv_1" (fst (@agentLoop host "conv_1" w)) = messagesOf "conv_1" w)
    as Hsame by (vm_compute; reflexivity).
  split; [reflexivity |]. split; [vm_compute; reflexivity |]. split; [exact Hsame |].
  - intros (msg & Heq & _). rewrite Hsame in Heq.
    apply (f_equal (@length Message)) in Heq. rewrite length_app in Heq.
    cbn in Heq. lia.
Qed.

(** ** C4 and C5: the gateway on the network *)

Section Gateway.
Context `{H : Host}.
Variables (conversation : Conversation) (w : World) (key b : string).
Hypothesis Hprovider : provider (settings_llm w) = JStr "aipipe".
Hypothesis Hkey : apiKey (settings_llm w) = JStr key.
Hypothesis Hkey_set : key <> EmptyString.
Hypothesis Hbase : baseUrl (settings_llm w) = JStr b.

Let base := trimSlashes b.
Let hdrs := [("Content-Type", "application/json"); ("Authorization", "Bearer " +:+ key)].
Let body := chatBody (settings_llm w) (c_messages conversation).

Lemma issued_twice (p f : Request) (w0 : World) :
  issued [f] (issued [p] w0) = issued [p; f] w0.
Proof. unfold issued, set_requests. cbn. rewrite <- app_assoc. reflexivity. Qed.

Lemma primaryCall_eq (bs : string) (hs : list (string * string)) (bd : jsval) (w0 : World) :
  primaryCall bs hs bd w0 =
  (issued [primaryRequest bs hs bd] w0,
   primaryOutcome (length (requests w0)) (primaryRequest bs hs bd) bd).
Proof.
  unfold primaryCall, bind, fetch, primaryOutcome, lift.
  fold (issued [primaryRequest bs hs bd] w0).
  destruct (fetch_reply _ _) as [e | resp]; [reflexivity |].
  destruct (negb (ok resp)); reflexivity.
Qed.

Lemma fallbackCall_eq (bs : string) (hs : list (string * string)) (bd : jsval) (w0 : World) :
  fallbackCall bs hs bd w0 =
  (issued [fallbackRequest bs hs bd] w0,
   fallbackOutcome (length (requests w0)) (fallbackRequest bs hs bd)).
Proof.
  unfold fallbackCall, bind, fetch, fallbackOutcome, lift.
  fold (issued [fallbackRequest bs hs bd] w0).
  destruct (fetch_reply _ _) as [e | resp]; [reflexivity |].
  destruct (negb (ok resp)); reflexivity.
Qed.

Lemma callLLM_network :
  let n := length (requests w) in
  let p := primaryRequest base hdrs body in
  let f := fallbackRequest base hdrs body in
  callLLM conversation w =
  match primaryOutcome n p body with
  | inr data => (issued [p] w, inr data)
  | inl err =>
      match fallbackOutcome (S n) f with
      | inr data => (issued [p; f] w, inr data)
      | inl err2 => (issued [p; f] w, inl (Error (finalMessage err2 err)))
      end
  end.
Proof.
  intros n p f. unfold callLLM. unfold bind at 1. unfold gets. cbv beta match.
  fold body. rewrite Hprovider, Hkey, Hbase. fold base.
  assert (truthy (JStr key) = true) as Hk.
  { cbn. apply negb_true_iff, String.eqb_neq. exact Hkey_set. }
  rewrite Hk. cbn [negb truthy String.eqb Ascii.eqb Bool.eqb].
  unfold bind at 1. change (lift (tpl (JStr key)) w) with (w, @inr exn string key).
  cbv beta match. fold hdrs. unfold p, f, n.
  unfold try_catch. rewrite primaryCall_eq.
  destruct (primaryOutcome _ _ _) as [err | data]; [| reflexivity].
  rewrite fallbackCall_eq, issued_twice.
  replace (length (requests (issued [primaryRequest base hdrs body] w)))
    with (S (length (requests w)))
    by (unfold issued; cbn; rewrite length_app; cbn; lia).
  destruct (fallbackOutcome _ _) as [err2 | data]; reflexivity.
Qed.

End Gateway.

Lemma primaryFailure_throws `{H : Host} (resp : Response) (body : jsval) :
  exists e, primaryFailure resp body = inl e.
Proof.
  unfold primaryFailure, rbind, rthrow.
  destruct (tpl (errorText resp)); [eauto |].
  destruct (tpl (prop body "model")); eauto.
Qed.

(** C4 (amended).  A request that reaches the network goes to the primary
    endpoint first.  If that attempt fails -- the call raises, the status is
    not a success, or the body of a success does not parse -- exactly one
    more request is issued, to the alternate endpoint, with the same method,
    headers and payload, and an error is raised only if that one fails too.
    If the primary endpoint answers with a success status and a body that
    parses, that body is the result and no other request is issued. *)
Theorem C4_fallback_protocol `{H : Host} conversation w key b :
  provider (settings_llm w) = JStr "aipipe" ->
  apiKey (settings_llm w) = JStr key ->
  key <> EmptyString ->
  baseUrl (settings_llm w) = JStr b ->
  let hdrs := [("Content-Type", "application/json"); ("Authorization", "Bearer " +:+ key)] in
  let payload := chatBody (settings_llm w) (c_messages conversation) in
  let p := primaryRequest (trimSlashes b) hdrs payload in
  let f := fallbackRequest (trimSlashes b) hdrs payload in
  let n := length (requests w) in
  (url p = trimSlashes b +:+ "/openrouter/v1/chat/completions" /\
   url f = trimSlashes b +:+ "/openai/v1/chat/completions" /\
   method f = method p /\ headers f = headers p /\ body f = body p) /\
  (forall resp data,
     fetch_reply n p = inr resp -> ok resp = true -> json resp = inr data ->
     exists w', callLLM conversation w = (w', inr data) /\
       requests w' = (requests w ++ [p])%list) /\
  ((exists e, fetch_reply n p = inl e) \/
   (exists resp, fetch_reply n p = inr resp /\
      (ok resp = false \/ exists e, json resp = inl e)) ->
   exists w' r, callLLM conversation w = (w', r) /\
     requests w' = (requests w ++ [p; f])%list /\
     (forall data, fallbackOutcome (S n) f = inr data -> r = inr data) /\
     (forall e2, fallbackOutcome (S n) f = inl e2 -> exists e, r = inl e)).
Proof.
  intros Hprov Hkey Hset Hbase hdrs payload p f n.
  pose proof (callLLM_network conversation w key b Hprov Hkey Hset Hbase) as Hnet.
  cbv zeta in Hnet. fold hdrs payload p f n in Hnet.
  split; [repeat split |]. split.
  - intros resp data Hreply Hok Hjson.
    unfold primaryOutcome in Hnet. rewrite Hreply, Hok, Hjson in Hnet. cbn in Hnet.
    eexists. split; [exact Hnet | reflexivity].
  - intros Hfail.
    assert (exists err, primaryOutcome n p payload = inl err) as [err Hout].
    { unfold primaryOutcome.
      destruct Hfail as [[e ->] | (resp & -> & [Hok | [e He]])]; [eauto | |].
      - rewrite Hok. cbn. apply primaryFailure_throws.
      - destruct (negb (ok resp)); [apply primaryFailure_throws | eauto]. }
    rewrite Hout in Hnet.
    destruct (fallbackOutcome (S n) f) as [err2 | data] eqn:Hfb.
    + eexists _, _. split; [exact Hnet |]. split; [reflexivity |].
      split; [discriminate | eauto].
    + eexists _, _. split; [exact Hnet |]. split; [reflexivity |].
      split; [congruence | discriminate].
Qed.

Lemma C4_witness :
  let host := Ref.host
    [Example.reply 500 "Internal Server Error"
       (JObj [("error", JObj [("message", JStr "upstream unavailable")])]);
     Example.reply 200 "OK" (Example.completion (JObj [("content", JStr "hello")]))] in
  let w := Example.world (Example.llm (JStr "aipipe") (JStr "token")) in
  exists w' r,
    @callLLM host Example.conversation w = (w', r) /\
    List.map url (requests w') =
      ["https://aipipe.org/openrouter/v1/chat/completions";
       "https://aipipe.org/openai/v1/chat/completions"] /\
    r = inr (Example.completion (JObj [("content", JStr "hello")])).
Proof.
  intros host w.
  destruct (@C4_fallback_protocol host Example.conversation w "token" "https://aipipe.org"
              eq_refl eq_refl ltac:(discriminate) eq_refl) as (_ & _ & Hretry).
  destruct Hretry as (w' & r & Hcall & Hreqs & Hok & _).
  - right. eexists. split; [reflexivity |]. left. reflexivity.
  - exists w', r. split; [exact Hcall |]. split.
    + rewrite Hreqs. reflexivity.
    + apply Hok. reflexivity.
Defined.

(** The primary endpoint answers 200 with a body that is not JSON: the
    alternate endpoint is called all the same. *)
Lemma C4_success_status_still_retries :
  let primary : Response :=
    {| status := 200; statusText := "OK";
       json := inl (Error "SyntaxError: Unexpected token < in JSON at position 0") |} in
  let host := Ref.host
    [inr primary;
     Example.reply 200 "OK" (Example.completion (JObj [("content", JStr "hello")]))] in
  let w := Example.world (Example.llm (JStr "aipipe") (JStr "token")) in
  ok primary = true /\
  List.map url (requests (fst (@callLLM host Example.conversation w))) =
    ["https://aipipe.org/openrouter/v1/chat/completions";
     "https://aipipe.org/openai/v1/chat/completions"].
Proof. split; vm_compute; reflexivity. Qed.

(** When the alternate endpoint answers with a failure status, the error
    raised by [callLLM] is the one built from that answer, whatever error
    the primary attempt produced. *)
Lemma fallback_failure_is_raised `{H : Host} conversation w key b err resp2 text :
  provider (settings_llm w) = JStr "aipipe" ->
  apiKey (settings_llm w) = JStr key ->
  key <> EmptyString ->
  baseUrl (settings_llm w) = JStr b ->
  let hdrs := [("Content-Type", "application/json"); ("Authorization", "Bearer " +:+ key)] in
  let payload := chatBody (settings_llm w) (c_messages conversation) in
  primaryOutcome (length (requests w)) (primaryRequest (trimSlashes b) hdrs payload) payload
  = inl err ->
  fetch_reply (S (length (requests w))) (fallbackRequest (trimSlashes b) hdrs payload)
  = inr resp2 ->
  ok resp2 = false ->
  tpl (errorText resp2) = inr text ->
  snd (callLLM conversation w)
  = inl (Error ("AI Pipe (fallback) error (" +:+ pretty (status resp2) +:+ "): " +:+ text)).
Proof.
  intros Hprov Hkey Hset Hbase hdrs payload Hprimary Hreply Hok Htext.
  pose proof (callLLM_network conversation w key b Hprov Hkey Hset Hbase) as Hnet.
  cbv zeta in Hnet. fold hdrs payload in Hnet.
  rewrite Hprimary in Hnet. unfold fallbackOutcome in Hnet.
  rewrite Hreply, Hok in Hnet. cbn [negb] in Hnet.
  unfold fallbackFailure, rbind in Hnet. rewrite Htext in Hnet.
  rewrite Hnet. reflexivity.
Qed.

(** C5.  Primary endpoint: 404 with an upstream message; alternate
    endpoint: 401.  The error built for the primary failure carries its
    status, its message and the hint; the error that [callLLM] raises is the
    one built for the alternate endpoint, with neither. *)
Theorem C5_raised_error_is_the_fallback_one :
  let host := Ref.host
    [Example.reply 404 "Not Found"
       (JObj [("error", JObj [("message", JStr "model not found")])]);
     Example.reply 401 "Unauthorized"
       (JObj [("error", JObj [("message", JStr "Invalid token")])])] in
  let w := Example.world (Example.llm (JStr "aipipe") (JStr "token")) in
  let hdrs := [("Content-Type", "application/json"); ("Authorization", "Bearer token")] in
  let payload := chatBody (settings_llm w) (c_messages Example.conversation) in
  @primaryOutcome host 0 (@primaryRequest host "https://aipipe.org" hdrs payload) payload
  = inl (Error ("AI Pipe error (404): model not found. Tip: ensure your token has access to "
                +:+ "**openai/gpt-4o-mini**, or pick a listed model in Settings.")) /\
  snd (@callLLM host Example.conversation w)
  = inl (Error "AI Pipe (fallback) error (401): Invalid token").
Proof. split; vm_compute; reflexivity. Qed.

(** ** C2: the dispatcher *)

(** Whether an invocation settles with a value, and with which, does not
    depend on the state it starts in. *)
Lemma executeTool_result_indep `{H : Host} (tc : jsval) (w w' : World) :
  snd (executeTool tc w) = snd (executeTool tc w').
Proof.
  unfold executeTool, bind, lift, gets.
  destruct (getp tc "function"); [reflexivity |].
  destruct (tpl (toolName tc)) as [e | n]; [reflexivity |].
  cbv beta match.
  pose proof (addMessage_returns system (JStr ("Executing tool: " +:+ n))
                (currentConversationId w) w) as Hr.
  pose proof (addMessage_returns system (JStr ("Executing tool: " +:+ n))
                (currentConversationId w') w') as Hr'.
  destruct (addMessage _ _ _ w) as [w1 r]; destruct (addMessage _ _ _ w') as [w1' r'].
  cbn in Hr, Hr'. subst r r'.
  destruct (executor (toolName tc)); [reflexivity |].
  destruct (tpl (toolName tc)); reflexivity.
Qed.

Lemma startAll_results `{H : Host} (tcs : list jsval) (w : World) :
  snd (startAll (List.map executeTool tcs) w)
  = List.map (fun tc => snd (executeTool tc w)) tcs.
Proof.
  revert w. induction tcs as [| tc r IH]; intros w; [reflexivity |].
  cbn [List.map startAll].
  destruct (executeTool tc w) as [w1 a] eqn:Ha.
  specialize (IH w1). destruct (startAll (List.map executeTool r) w1) as [w2 rs].
  cbn [snd] in IH |- *. rewrite IH. f_equal.
  apply map_ext. intros t. apply executeTool_result_indep.
Qed.

Lemma dispatchAll_result `{H : Host} (tcs : list jsval) (w : World) :
  snd (dispatchAll tcs w) = settle (List.map (fun tc => snd (executeTool tc w)) tcs).
Proof.
  unfold dispatchAll, Promise_all.
  pose proof (startAll_results tcs w) as Hs.
  destruct (startAll (List.map executeTool tcs) w) as [w' rs].
  cbn [snd] in Hs |- *. rewrite Hs. reflexivity.
Qed.

Lemma settle_values {A B} (f : A -> res B) (l : list A) :
  (forall a, In a l -> exists v, f a = inr v) ->
  exists vs, settle (List.map f l) = inr vs /\ Forall2 (fun a v => f a = inr v) l vs.
Proof.
  induction l as [| a r IH]; intros Hall.
  - exists []. split; [reflexivity | constructor].
  - destruct (Hall a (or_introl eq_refl)) as [v Hv].
    destruct (IH (fun a' Hin => Hall a' (or_intror Hin))) as (vs & Hs & Hf).
    exists (v :: vs). cbn. rewrite Hv, Hs. split; [reflexivity |].
    constructor; assumption.
Qed.

Lemma settle_rejects {A B} (f : A -> res B) (l : list A) (a : A) (e : exn) :
  In a l -> f a = inl e -> exists e', settle (List.map f l) = inl e'.
Proof.
  induction l as [| x r IH]; intros Hin Hf; [destruct Hin |].
  cbn. destruct (f x) as [ex | v] eqn:Hx; [eauto |].
  destruct Hin as [-> | Hin]; [congruence |].
  destruct (IH Hin Hf) as [e' ->]. eauto.
Qed.

(** C2 (amended).  Handed N requests, the dispatcher starts N invocations.
    If none of them throws it returns N results, the i-th being the value of
    the i-th request's invocation; if one of them throws, the dispatch as a
    whole is rejected. *)
Theorem C2_dispatch_order `{H : Host} (tcs : list jsval) (w : World) :
  ((forall tc, In tc tcs -> exists v, snd (executeTool tc w) = inr v) ->
   exists w' results,
     dispatchAll tcs w = (w', inr results) /\
     length results = length tcs /\
     Forall2 (fun tc v => snd (executeTool tc w) = inr v) tcs results) /\
  (forall tc e, In tc tcs -> snd (executeTool tc w) = inl e ->
   exists w' e', dispatchAll tcs w = (w', inl e')).
Proof.
  pose proof (dispatchAll_result tcs w) as Hres.
  destruct (dispatchAll tcs w) as [w' r]. cbn [snd] in Hres. subst r.
  split.
  - intros Hall.
    destruct (settle_values (fun tc => snd (executeTool tc w)) tcs Hall) as (vs & Hs & Hf).
    exists w', vs. rewrite Hs. split; [reflexivity |]. split; [| exact Hf].
    symmetry. eapply Forall2_length. exact Hf.
  - intros tc e Hin He.
    destruct (settle_rejects (fun tc => snd (executeTool tc w)) tcs tc e Hin He) as [e' ->].
    eauto.
Qed.

Lemma C2_witness :
  let w := Example.world (Example.llm (JStr "aipipe") (JStr "token")) in
  exists w',
    @dispatchAll (Ref.host []) [Calls.search_ibm; Calls.run_code] w
    = (w', inr [JObj [("status", JStr "Simulated search for: IBM"); ("items", JArr [])];
                JObj [("output", JStr "Simulated execution of: 1+1")]]).
Proof.
  intros w.
  destruct (@C2_dispatch_order (Ref.host []) [Calls.search_ibm; Calls.run_code] w)
    as [Hok _].
  destruct Hok as (w' & results & Hd & _ & Hf).
  - intros tc [<- | [<- | []]]; eexists; vm_compute; reflexivity.
  - exists w'. rewrite Hd. do 2 f_equal.
    inversion Hf as [| ? v1 ? r1 H1 Hf1]; subst.
    inversion Hf1 as [| ? v2 ? r2 H2 Hf2]; subst.
    inversion Hf2; subst.
    vm_compute in H1, H2. congruence.
Defined.

(** Two requests, the second with the payload [null]: its executor throws
    while destructuring, and the dispatch yields no result at all. *)
Lemma C2_one_raising_executor_fails_the_dispatch :
  let w := Example.world (Example.llm (JStr "aipipe") (JStr "token")) in
  snd (@executeTool (Ref.host []) Calls.search_ibm w)
  = inr (JObj [("status", JStr "Simulated search for: IBM"); ("items", JArr [])]) /\
  (exists e, @executeWebSearch JNull = inl e) /\
  (exists e,
     snd (@dispatchAll (Ref.host []) [Calls.search_ibm; Calls.search_null] w) = inl e).
Proof. repeat split; try (eexists; vm_compute; reflexivity). Qed.

(** ** C6: an executor that throws *)

Lemma same_tool_messages_refl w : same_tool_messages w w.
Proof. intros cid. reflexivity. Qed.

Lemma same_tool_messages_trans a b c :
  same_tool_messages a b -> same_tool_messages b c -> same_tool_messages a c.
Proof. intros Hab Hbc cid. rewrite Hbc. apply Hab. Qed.

Lemma toolMessages_insert cid0 cid c c' w :
  conversations w !! cid = Some c ->
  List.filter (fun m => is_tool (m_role m)) (c_messages c')
  = List.filter (fun m => is_tool (m_role m)) (c_messages c) ->
  toolMessages cid0 (set_conversations (insert cid c') w) = toolMessages cid0 w.
Proof.
  intros Hc Hf. unfold toolMessages, messagesOf. cbn.
  destruct (decide (cid = cid0)) as [<- | Hne].
  - rewrite lookup_insert_eq, Hc. exact Hf.
  - rewrite lookup_insert_ne by exact Hne. reflexivity.
Qed.

Lemma addMessage_same_tool_messages `{H : Host} role content cid :
  is_tool role = false -> keeps same_tool_messages (addMessage role content cid).
Proof.
  intros Hrole w cid0. unfold addMessage.
  repeat case_match; try reflexivity.
  all: cbn [fst].
  all: change (toolMessages cid0 (set_ticks ?f ?w0)) with (toolMessages cid0 w0).
  all: eapply toolMessages_insert; [eassumption |].
  all: rewrite touch_messages; cbn; rewrite List.filter_app; cbn; rewrite Hrole.
  all: apply app_nil_r.
Qed.

Lemma pushMessage_same_tool_messages cid m :
  is_tool (m_role m) = false -> keeps same_tool_messages (pushMessage cid m).
Proof.
  intros Hrole w cid0. unfold pushMessage, modify. cbn [fst].
  unfold toolMessages, messagesOf. cbn.
  destruct (conversations w !! cid) as [c |] eqn:Hc; [| reflexivity].
  destruct (decide (cid = cid0)) as [<- | Hne].
  - rewrite lookup_insert_eq, Hc. cbn. rewrite List.filter_app. cbn. rewrite Hrole.
    apply app_nil_r.
  - rewrite lookup_insert_ne by exact Hne. reflexivity.
Qed.

Lemma dispatchAll_same_tool_messages `{H : Host} tcs :
  keeps same_tool_messages (dispatchAll tcs).
Proof.
  apply keeps_dispatchAll.
  - apply same_tool_messages_refl.
  - apply same_tool_messages_trans.
  - intros. apply addMessage_same_tool_messages. assumption.
Qed.

Lemma prop_object (v : jsval) (k : string) :
  match prop v k with JUndef | JNum _ => True | _ => exists kvs, v = JObj kvs end.
Proof.
  destruct v; cbn; try exact I.
  - destruct (k =? "length")%string; exact I.
  - destruct (k =? "length")%string; exact I.
  - destruct (default JUndef (assoc k props)); eauto.
Qed.

Lemma hasToolCalls_array `{H : Host} response tcs tc :
  prop response "tool_calls" = JArr tcs -> In tc tcs -> hasToolCalls response = inr true.
Proof.
  intros Hp Hin. unfold hasToolCalls.
  pose proof (prop_object response "tool_calls") as Ho. rewrite Hp in Ho.
  destruct Ho as [kvs ->]. rewrite Hp. cbn.
  destruct tcs; [destruct Hin | reflexivity].
Qed.

Lemma executor_name (name : jsval) run :
  executor name = Some run -> exists s, name = JStr s.
Proof. destruct name; cbn; intros; try discriminate; eauto. Qed.

(** An executor that throws makes its invocation throw. *)
Lemma executeTool_raises `{H : Host} tc run e w :
  executor (toolName tc) = Some run -> run (parseToolArgs tc) = inl e ->
  exists w', executeTool tc w = (w', inl e).
Proof.
  intros Hx Hrun.
  destruct (executor_name _ _ Hx) as [s Hs].
  assert (getp tc "function" = inr (prop tc "function")) as Hf.
  { destruct tc; try reflexivity; cbn in Hx; discriminate. }
  unfold executeTool, bind, lift, gets. rewrite Hf, Hx, Hs. cbn [tpl ToString rret].
  cbv beta match.
  pose proof (addMessage_returns system (JStr ("Executing tool: " +:+ s))
                (currentConversationId w) w) as Hr.
  destruct (addMessage _ _ _ w) as [w1 r]. cbn in Hr. subst r.
  rewrite Hrun. eauto.
Qed.

Lemma dispatchTools_rejected `{H : Host} cid tcs tc e w :
  In tc tcs -> snd (executeTool tc w) = inl e ->
  exists w' e', dispatchTools cid (JArr tcs) w = (w', inl e') /\ same_tool_messages w w'.
Proof.
  intros Hin He. unfold dispatchTools, bind, lift.
  destruct (toolNames tcs) as [e0 | names];
    [eexists _, _; split; [reflexivity | apply same_tool_messages_refl] |].
  destruct (join ", " names) as [e0 | s];
    [eexists _, _; split; [reflexivity | apply same_tool_messages_refl] |].
  pose proof (addMessage_returns assistant (JStr ("Using tools: " +:+ s)) (Some cid) w) as Hr.
  pose proof (addMessage_same_tool_messages assistant (JStr ("Using tools: " +:+ s))
                (Some cid) eq_refl w) as H1.
  destruct (addMessage _ _ _ w) as [w1 r]. cbn [fst snd] in Hr, H1. subst r.
  set (m := {| m_id := JUndef; m_role := assistant; m_content := JNull;
               m_timestamp := JUndef; m_tool_calls := JArr tcs;
               m_tool_call_id := JUndef; m_name := JUndef |}).
  pose proof (pushMessage_same_tool_messages cid m eq_refl w1) as H2.
  destruct (pushMessage cid m w1) as [w2 [e0 | []]] eqn:Hpush; [discriminate |].
  cbn [fst] in H2.
  pose proof (dispatchAll_same_tool_messages tcs w2) as H3.
  pose proof (dispatchAll_result tcs w2) as Hres.
  destruct (settle_rejects (fun t => snd (executeTool t w2)) tcs tc e Hin) as [e' He'].
  { rewrite (executeTool_result_indep tc w2 w). exact He. }
  rewrite He' in Hres.
  destruct (dispatchAll tcs w2) as [w3 r]. cbn [fst snd] in H3, Hres. subst r.
  exists w3, e'. split; [reflexivity |].
  eapply same_tool_messages_trans; [| exact H3].
  eapply same_tool_messages_trans; eassumption.
Qed.

(** C6 (amended).  When the executor of one request of a dispatch throws,
    the exception is not turned into a result: the invocation throws it, the
    handling of the response throws, no tool message is stored for any
    request of the dispatch, and the handler of the turn ends the loop. *)
Theorem C6_executor_exception_ends_the_turn `{H : Host}
    cid response tcs tc run e w :
  prop response "tool_calls" = JArr tcs ->
  In tc tcs ->
  executor (toolName tc) = Some run ->
  run (parseToolArgs tc) = inl e ->
  (exists w1, executeTool tc w = (w1, inl e)) /\
  (exists w' e', handleResponse cid response w = (w', inl e') /\
     forall c, toolMessages c w' = toolMessages c w) /\
  (exists w'', try_catch (handleResponse cid response) (onTurnError cid) w = (w'', inr Break)).
Proof.
  intros Hp Hin Hx Hrun.
  destruct (executeTool_raises tc run e w Hx Hrun) as [w1 Hraise].
  assert (exists w' e', handleResponse cid response w = (w', inl e') /\
            same_tool_messages w w') as (w' & e' & Hh & Hsame).
  { unfold handleResponse, bind, lift.
    rewrite (hasToolCalls_array response tcs tc Hp Hin), Hp.
    destruct (truthy response && truthy (prop response "content")).
    - pose proof (addMessage_returns assistant (prop response "content") (Some cid) w) as Hr.
      pose proof (addMessage_same_tool_messages assistant (prop response "content")
                    (Some cid) eq_refl w) as H1.
      destruct (addMessage _ _ _ w) as [w0 r]. cbn [fst snd] in Hr, H1. subst r.
      destruct (dispatchTools_rejected cid tcs tc e w0 Hin) as (w' & e' & Hd & H2).
      { rewrite (executeTool_result_indep tc w0 w), Hraise. reflexivity. }
      rewrite Hd. exists w', e'. split; [reflexivity |].
      eapply same_tool_messages_trans; eassumption.
    - destruct (dispatchTools_rejected cid tcs tc e w Hin) as (w' & e' & Hd & H2).
      { rewrite Hraise. reflexivity. }
      unfold ret. rewrite Hd. exists w', e'. split; [reflexivity | exact H2]. }
  split; [eauto |]. split.
  - exists w', e'. split; [exact Hh | exact Hsame].
  - unfold try_catch. rewrite Hh.
    destruct (onTurnError_breaks cid e' w') as (w'' & Hb & _). eauto.
Qed.

Lemma C6_witness :
  let response := JObj [("content", JNull);
                        ("tool_calls", JArr [Calls.search_ibm; Calls.search_null])] in
  let w := Example.world (Example.llm (JStr "aipipe") (JStr "token")) in
  (exists w1 e, @executeTool (Ref.host []) Calls.search_null w = (w1, inl e)) /\
  (exists w'', try_catch (@handleResponse (Ref.host []) "conv_1" response)
                 (@onTurnError (Ref.host []) "conv_1") w = (w'', inr Break)).
Proof.
  intros response w.
  destruct (@executeWebSearch JNull) as [e | v] eqn:Hrun; [| discriminate].
  destruct (@C6_executor_exception_ends_the_turn (Ref.host []) "conv_1" response
              [Calls.search_ibm; Calls.search_null] Calls.search_null
              (@executeWebSearch) e w)
    as ([w1 Hraise] & _ & Hturn).
  - reflexivity.
  - right. left. reflexivity.
  - reflexivity.
  - exact Hrun.
  - split; [exists w1, e; exact Hraise | exact Hturn].
Defined.

(** One good request and one whose executor throws: the throwing invocation
    yields no result with an [error] member, the sibling's result is not
    stored, and the turn ends with a system message. *)
Lemma C6_exception_is_not_embedded :
  let response := JObj [("content", JNull);
                        ("tool_calls", JArr [Calls.search_ibm; Calls.search_null])] in
  let w := Example.world (Example.llm (JStr "aipipe") (JStr "token")) in
  let turn := try_catch (@handleResponse (Ref.host []) "conv_1" response)
                (@onTurnError (Ref.host []) "conv_1") w in
  (exists e, snd (@executeTool (Ref.host []) Calls.search_null w) = inl e) /\
  snd turn = inr Break /\
  toolMessages "conv_1" (fst turn) = [] /\
  List.map m_role (messagesOf "conv_1" (fst turn))
  = [user; assistant; assistant; system; system; system] /\
  List.map m_content (firstn 5 (messagesOf "conv_1" (fst turn)))
  = [JStr "IBM"; JStr "Using tools: web_search, web_search"; JNull;
     JStr "Executing tool: web_search"; JStr "Executing tool: web_search"].
Proof. repeat split; try eexists; vm_compute; reflexivity. Qed.

(** ** C9 and C10: requests that cannot be served as asked *)

Lemma executor_empty_args (name : jsval) run :
  executor name = Some run -> exists v, run (JObj []) = inr v.
Proof.
  destruct name; cbn; try discriminate.
  repeat case_match; intros Hx; simplify_eq; eexists; reflexivity.
Qed.

Lemma named_object tc n :
  named tc n ->
  (exists kvs, tc = JObj kvs) /\ (exists kvs, prop tc "function" = JObj kvs) /\
  toolName tc = JStr n.
Proof.
  intros [Hn Hne].
  pose proof (prop_object (prop tc "function") "name") as Hf. rewrite Hn in Hf.
  destruct Hf as [fkvs Hf].
  pose proof (prop_object tc "function") as Ht. rewrite Hf in Ht.
  split; [exact Ht |]. split; [eauto |].
  unfold toolName, jor. rewrite Hf. cbn [truthy]. rewrite <- Hf, Hn. cbn [truthy].
  assert ((n =? EmptyString)%string = false) as -> by (apply String.eqb_neq; exact Hne).
  reflexivity.
Qed.

Lemma executeTool_returns `{H : Host} tc n w :
  (exists kvs, tc = JObj kvs) -> toolName tc = JStr n ->
  exists w', executeTool tc w =
    (w', match executor (JStr n) with
         | Some run => run (parseToolArgs tc)
         | None => inr (JObj [("error", JStr ("Unknown tool: " +:+ n))])
         end).
Proof.
  intros [kvs ->] Hn. unfold executeTool, bind, lift, gets. rewrite Hn.
  cbn [getp nullish rret tpl ToString]. cbv beta match.
  pose proof (addMessage_returns system (JStr ("Executing tool: " +:+ n))
                (currentConversationId w) w) as Hr.
  destruct (addMessage _ _ _ w) as [w1 r]. cbn in Hr. subst r.
  destruct (executor (JStr n)); eauto.
Qed.

(** *** A turn whose requests are all served *)

Lemma appendToolResult_returns `{H : Host} cid result tc n w :
  named tc n -> snd (appendToolResult cid (result, tc) w) = inr tt.
Proof.
  intros Hnamed. destruct (named_object tc n Hnamed) as ([kvs ->] & [fkvs Hf] & _).
  destruct Hnamed as [Hn _].
  unfold appendToolResult, bind, lift. cbn [getp nullish rret]. cbv beta match.
  rewrite Hf. cbn [getp nullish rret]. cbv beta match.
  unfold pushMessage, modify. cbv beta match.
  apply addMessage_returns.
Qed.

Lemma forEach_returns {A} (f : A -> M unit) (l : list A) :
  (forall a, In a l -> forall w, snd (f a w) = inr tt) ->
  forall w, snd (forEach f l w) = inr tt.
Proof.
  induction l as [| a r IH]; intros Hall w; [reflexivity |].
  cbn [forEach]. unfold bind.
  pose proof (Hall a (or_introl eq_refl) w) as Ha.
  destruct (f a w) as [w1 x]. cbn in Ha. subst x.
  apply IH. intros a' Hin. apply Hall. right. exact Hin.
Qed.

Lemma toolNames_named (tcs : list jsval) :
  Forall (fun tc => exists n, named tc n) tcs ->
  exists names, toolNames tcs = inr names /\ Forall (fun v => is_string v = true) names.
Proof.
  unfold toolNames. induction 1 as [| tc r [n Hn] _ IH].
  - exists []. split; [reflexivity | constructor].
  - destruct IH as (names & Hr & Hs).
    destruct (named_object tc n Hn) as ([kvs ->] & [fkvs Hf] & _). destruct Hn as [Hn _].
    exists (JStr n :: names). cbn [rmap]. unfold rbind at 1.
    cbn [getp nullish rret]. unfold rbind at 1. rewrite Hf. cbn [getp nullish rret].
    rewrite <- Hf, Hn, Hr. split; [reflexivity |]. constructor; [reflexivity | exact Hs].
Qed.

Lemma join_strings (sep : string) (vs : list jsval) :
  Forall (fun v => is_string v = true) vs -> exists s, join sep vs = inr s.
Proof.
  unfold join. intros Hs.
  assert (exists ss, all_some (List.map (fun x => if nullish x then Some EmptyString else ToString x) vs)
                     = Some ss) as [ss ->]; [| eauto].
  induction Hs as [| v r Hv _ [ss IH]]; [exists []; reflexivity |].
  destruct v; try discriminate. cbn. rewrite IH. eauto.
Qed.

Lemma handleResponse_continues `{H : Host} cid response tcs w :
  prop response "tool_calls" = JArr tcs ->
  tcs <> [] ->
  Forall (fun tc => exists n, named tc n) tcs ->
  (forall tc, In tc tcs -> exists v, snd (executeTool tc w) = inr v) ->
  exists w', handleResponse cid response w = (w', inr Continue).
Proof.
  intros Hp Hne Hnamed Hruns.
  assert (exists tc, In tc tcs) as [tc0 Hin0]
    by (destruct tcs; [congruence | eexists; left; reflexivity]).
  unfold handleResponse, bind, lift.
  rewrite (hasToolCalls_array response tcs tc0 Hp Hin0), Hp.
  set (first_step := if truthy response && truthy (prop response "content")
                     then addMessage assistant (prop response "content") (Some cid)
                     else ret tt).
  assert (forall w0, snd (first_step w0) = inr tt) as Hfirst.
  { intros w0. unfold first_step. destruct (_ && _); [apply addMessage_returns | reflexivity]. }
  specialize (Hfirst w). destruct (first_step w) as [w1 r1]. cbn in Hfirst. subst r1.
  unfold dispatchTools, bind, lift.
  destruct (toolNames_named tcs Hnamed) as (names & -> & Hstr).
  destruct (join_strings ", " names Hstr) as [s ->].
  pose proof (addMessage_returns assistant (JStr ("Using tools: " +:+ s)) (Some cid) w1) as Hr.
  destruct (addMessage _ _ _ w1) as [w2 r]. cbn in Hr. subst r.
  unfold pushMessage at 1, modify. cbv beta match.
  match goal with |- context [dispatchAll tcs ?w0] =>
    pose proof (dispatchAll_result tcs w0) as Hres;
    destruct (settle_values (fun t => snd (executeTool t w0)) tcs) as (vs & Hs & _);
    [ intros t Ht; rewrite (executeTool_result_indep t w0 w); apply Hruns; exact Ht |];
    rewrite Hs in Hres; destruct (dispatchAll tcs w0) as [w3 r3]
  end.
  cbn in Hres. subst r3.
  assert (forall a, In a (combine vs tcs) ->
          forall w0, snd (appendToolResult cid a w0) = inr tt) as Hall.
  { intros [v t] Hin w0. apply in_combine_r in Hin.
    destruct (proj1 (List.Forall_forall _ _) Hnamed t Hin) as [n Hn].
    eapply appendToolResult_returns. exact Hn. }
  pose proof (forEach_returns (appendToolResult cid) (combine vs tcs) Hall w3) as Hfe.
  destruct (forEach _ _ w3) as [w4 r4]. cbn in Hfe. subst r4.
  unfold ret. eauto.
Qed.

(** C9.  A request whose argument payload is a string that [JSON.parse]
    rejects -- read from [arguments], where the dispatcher looks, or left
    under [function.arguments], where it does not look: the parsed arguments
    are the empty object, the invocation returns a result without throwing,
    and the result is what the named executor yields on the empty object
    (or the unknown-tool payload); a turn that dispatches this request goes
    on to the next iteration. *)
Theorem C9_malformed_arguments `{H : Host} tc s e n w :
  prop tc "arguments" = JStr s \/
  (prop tc "arguments" = JUndef /\ prop (prop tc "function") "arguments" = JStr s) ->
  JSON_parse s = inl e ->
  toolName tc = JStr n ->
  parseToolArgs tc = JObj [] /\
  (exists w' result,
     executeTool tc w = (w', inr result) /\
     match executor (JStr n) with
     | Some run => run (JObj []) = inr result
     | None => result = JObj [("error", JStr ("Unknown tool: " +:+ n))]
     end) /\
  (forall cid response,
     named tc n -> prop response "tool_calls" = JArr [tc] ->
     exists w', handleResponse cid response w = (w', inr Continue)).
Proof.
  intros Hargs Hparse Hn.
  assert (parseToolArgs tc = JObj []) as Hempty.
  { unfold parseToolArgs. destruct Hargs as [Ha | [Ha _]]; rewrite Ha.
    - rewrite Hparse. destruct (truthy (JStr s)); reflexivity.
    - reflexivity. }
  split; [exact Hempty |].
  assert (exists kvs, tc = JObj kvs) as Hobj.
  { destruct Hargs as [Ha | [_ Ha]].
    - pose proof (prop_object tc "arguments") as Ho. rewrite Ha in Ho. exact Ho.
    - pose proof (prop_object (prop tc "function") "arguments") as Hf. rewrite Ha in Hf.
      destruct Hf as [fkvs Hf].
      pose proof (prop_object tc "function") as Ho. rewrite Hf in Ho. exact Ho. }
  destruct (executeTool_returns tc n w Hobj Hn) as [w' Hx].
  rewrite Hempty in Hx.
  assert (exists result, executeTool tc w = (w', inr result) /\
            match executor (JStr n) with
            | Some run => run (JObj []) = inr result
            | None => result = JObj [("error", JStr ("Unknown tool: " +:+ n))]
            end) as (result & Hres & Hshape).
  { destruct (executor (JStr n)) as [run |] eqn:Hrun.
    - destruct (executor_empty_args _ _ Hrun) as [v Hv]. rewrite Hv in Hx. eauto.
    - eauto. }
  split; [eauto |].
  intros cid response Hnamed Hp.
  apply (handleResponse_continues cid response [tc] w Hp); [discriminate | |].
  - constructor; [eauto | constructor].
  - intros t [<- | []]. exists result. rewrite Hres. reflexivity.
Qed.

Lemma C9_witness :
  let w := Example.world (Example.llm (JStr "aipipe") (JStr "token")) in
  @parseToolArgs (Ref.host []) Calls.search_malformed = JObj [] /\
  exists w',
    @executeTool (Ref.host []) Calls.search_malformed w
    = (w', inr (JObj [("status", JStr "Simulated search for: undefined");
                      ("items", JArr [])])).
Proof.
  intros w.
  destruct (@C9_malformed_arguments (Ref.host []) Calls.search_malformed "{not json"
              (Error "SyntaxError: unexpected token in JSON") "web_search" w
              (or_introl eq_refl) eq_refl eq_refl)
    as (Hargs & (w' & result & Hx & Hres) & _).
  split; [exact Hargs |].
  exists w'. rewrite Hx. vm_compute in Hres. injection Hres as <-. reflexivity.
Defined.

Lemma executor_registry (n : string) :
  executor (JStr n) = None <-> ~ In n registeredTools.
Proof.
  unfold executor, registeredTools. cbn [In].
  destruct (n =? "web_search")%string eqn:E1;
    [apply String.eqb_eq in E1; split; [discriminate | intros Hn; exfalso; apply Hn; auto] |].
  destruct (n =? "execute_code")%string eqn:E2;
    [apply String.eqb_eq in E2; split; [discriminate | intros Hn; exfalso; apply Hn; auto] |].
  destruct (n =? "process_file")%string eqn:E3;
    [apply String.eqb_eq in E3; split; [discriminate | intros Hn; exfalso; apply Hn; auto] |].
  destruct (n =? "create_visualization")%string eqn:E4;
    [apply String.eqb_eq in E4; split; [discriminate | intros Hn; exfalso; apply Hn; auto 6] |].
  apply String.eqb_neq in E1, E2, E3, E4.
  split; [| reflexivity]. intros _ [? | [? | [? | [? | []]]]]; congruence.
Qed.

(** C10.  A request that names a tool the registry does not have: its
    invocation returns exactly the object with the one member [error],
    "Unknown tool: " followed by the name; a turn that dispatches this
    request does not break the loop. *)
Theorem C10_unknown_tool `{H : Host} tc n w :
  named tc n ->
  ~ In n registeredTools ->
  (exists w', executeTool tc w
              = (w', inr (JObj [("error", JStr ("Unknown tool: " +:+ n))]))) /\
  (forall cid response,
     prop response "tool_calls" = JArr [tc] ->
     exists w', handleResponse cid response w = (w', inr Continue)).
Proof.
  intros Hnamed Hunknown. apply executor_registry in Hunknown.
  destruct (named_object tc n Hnamed) as (Hobj & _ & Hn).
  destruct (executeTool_returns tc n w Hobj Hn) as [w' Hx].
  rewrite Hunknown in Hx.
  split; [eauto |].
  intros cid response Hp.
  apply (handleResponse_continues cid response [tc] w Hp); [discriminate | |].
  - constructor; [eauto | constructor].
  - intros t [<- | []]. eexists. rewrite Hx. reflexivity.
Qed.

Lemma C10_witness :
  let response := JObj [("content", JNull); ("tool_calls", JArr [Calls.unknown_tool])] in
  let w := Example.world (Example.llm (JStr "aipipe") (JStr "token")) in
  (exists w', @executeTool (Ref.host []) Calls.unknown_tool w
              = (w', inr (JObj [("error", JStr "Unknown tool: get_weather")]))) /\
  (exists w', @handleResponse (Ref.host []) "conv_1" response w = (w', inr Continue)).
Proof.
  intros response w.
  destruct (@C10_unknown_tool (Ref.host []) Calls.unknown_tool "get_weather" w)
    as [Hx Hturn].
  - split; [reflexivity | discriminate].
  - cbn. intros [? | [? | [? | [? | []]]]]; discriminate.
  - split; [exact Hx | apply Hturn; reflexivity].
Defined.

(** * Further properties of the code *)

(** ** [parseAPIResponse] *)

Lemma jor_cases (a b : jsval) : truthy (jor a b) = true \/ jor a b = b.
Proof. unfold jor. destruct (truthy a) eqn:Ha; [left; exact Ha | right; reflexivity]. Qed.

Lemma string_truthy_or_empty (s : string) :
  truthy (JStr s) = true \/ JStr s = JStr EmptyString.
Proof. destruct s; [right | left]; reflexivity. Qed.

(** X1.  The content of a normalised response is never [undefined] or
    [null]: it is a truthy value or the empty string. *)
Theorem X1_content_is_truthy_or_empty (data r : jsval) :
  parseAPIResponse data = inr r ->
  truthy (prop r "content") = true \/ prop r "content" = JStr EmptyString.
Proof.
  unfold parseAPIResponse, parseAPIResponse_body, rbind, rret, rthrow.
  intros Hp.
  destruct (truthy (optp (optp data "choices") "length")).
  - repeat case_match; simplify_eq.
    change (prop (JObj [("content", ?c)]) "content") with c. apply jor_cases.
  - destruct (truthy (optp (optp data "candidates") "length")).
    + destruct (getp data "candidates") as [? | cs]; [discriminate |].
      destruct (first cs) as [? | c0]; [discriminate |].
      destruct (getp c0 "content") as [? | cc]; [discriminate |].
      destruct (jor_cases (jor (optp cc "parts") cc) (JArr [])) as [Ht | He].
      * destruct (jor (jor (optp cc "parts") cc) (JArr [])) eqn:Hparts;
          repeat case_match; simplify_eq;
          first [ apply string_truthy_or_empty | left; exact Ht ].
      * rewrite He in Hp. repeat case_match; simplify_eq. apply string_truthy_or_empty.
    + simplify_eq. destruct data; first [ apply string_truthy_or_empty | left; reflexivity ].
Qed.

Lemma X1_witness :
  truthy (prop (JObj [("content", JStr EmptyString)]) "content") = true \/
  prop (JObj [("content", JStr EmptyString)]) "content" = JStr EmptyString.
Proof.
  apply (X1_content_is_truthy_or_empty
           (Example.completion (JObj [("content", JNull)]))).
  reflexivity.
Defined.

Lemma prop_is_object (v : jsval) (k : string) (x : jsval) :
  prop v k = x -> x <> JUndef -> (forall z, x <> JNum z) -> exists kvs, v = JObj kvs.
Proof.
  intros Hp Hu Hn. pose proof (prop_object v k) as Ho. rewrite Hp in Ho.
  destruct x; try exact Ho; [congruence | exfalso; eapply Hn; reflexivity].
Qed.

Lemma truthy_nonempty (t : string) : t <> EmptyString -> truthy (JStr t) = true.
Proof. destruct t; [congruence | reflexivity]. Qed.

Lemma jor_nonempty (t : string) (b : jsval) : t <> EmptyString -> jor (JStr t) b = JStr t.
Proof. intros Ht. unfold jor. rewrite (truthy_nonempty t Ht). reflexivity. Qed.

Lemma getp_object (kvs : list (string * jsval)) (k : string) :
  getp (JObj kvs) k = inr (prop (JObj kvs) k).
Proof. reflexivity. Qed.

Lemma rbind_inr {A B} (a : A) (k : A -> res B) : rbind (inr a) k = k a.
Proof. reflexivity. Qed.

Lemma first_cons (x : jsval) (l : list jsval) : first (JArr (x :: l)) = inr x.
Proof. reflexivity. Qed.

Lemma parts_texts (ps : list jsval) (ts : list string) :
  Forall2 (fun p t => prop p "text" = JStr t /\ t <> EmptyString) ps ts ->
  rmap (fun p => t <~ getp p "text" ;; rret (jor t p)) ps = inr (List.map JStr ts).
Proof.
  induction 1 as [| p t ps ts [Hp Ht] _ IH]; [reflexivity |].
  destruct (prop_is_object p "text" (JStr t) Hp) as [kvs ->]; [discriminate.. |].
  cbn [rmap]. rewrite IH. unfold getp. cbn [nullish]. rewrite Hp.
  unfold rbind, rret. rewrite (jor_nonempty t _ Ht). reflexivity.
Qed.

Lemma join_texts (sep : string) (ts : list string) :
  join sep (List.map JStr ts) = inr (concat_sep sep ts).
Proof.
  unfold join.
  assert (all_some (List.map (fun x => if nullish x then Some EmptyString else ToString x)
                      (List.map JStr ts)) = Some ts) as ->; [| reflexivity].
  induction ts as [| t r IH]; [reflexivity |]. cbn. cbn in IH. rewrite IH. reflexivity.
Qed.

Lemma length_truthy (x : jsval) (l : list jsval) :
  truthy (JNum (Z.of_nat (length (x :: l)))) = true.
Proof. cbn [truthy length]. destruct (Z.eqb_spec (Z.of_nat (S (length l))) 0); [lia | reflexivity]. Qed.

(** X2.  The alternate shape: with no choices, and a first candidate whose
    [content.parts] is an array of objects each carrying a non-empty
    [text], the content is the texts joined in order with nothing between
    them; further candidates are not read. *)
Theorem X2_candidate_parts_are_concatenated
    (data c0 : jsval) (rest ps : list jsval) (ts : list string) :
  truthy (optp (optp data "choices") "length") = false ->
  prop data "candidates" = JArr (c0 :: rest) ->
  prop (prop c0 "content") "parts" = JArr ps ->
  Forall2 (fun p t => prop p "text" = JStr t /\ t <> EmptyString) ps ts ->
  parseAPIResponse data = inr (JObj [("content", JStr (concat_sep EmptyString ts))]).
Proof.
  intros Hch Hca Hparts Htexts.
  destruct (prop_is_object data "candidates" _ Hca) as [dkvs ->]; [discriminate.. |].
  destruct (prop_is_object (prop c0 "content") "parts" _ Hparts) as [ckvs Hcc];
    [discriminate.. |].
  destruct (prop_is_object c0 "content" _ Hcc) as [c0kvs ->]; [discriminate.. |].
  unfold parseAPIResponse, parseAPIResponse_body. rewrite Hch.
  assert (optp (optp (JObj dkvs) "candidates") "length"
          = JNum (Z.of_nat (length (JObj c0kvs :: rest)))) as ->.
  { unfold optp. cbn [nullish]. rewrite Hca. reflexivity. }
  rewrite length_truthy.
  rewrite getp_object, Hca, rbind_inr, first_cons, rbind_inr, getp_object, Hcc, rbind_inr.
  assert (optp (JObj ckvs) "parts" = JArr ps) as ->.
  { unfold optp. cbn [nullish]. rewrite <- Hcc. exact Hparts. }
  assert (jor (jor (JArr ps) (JObj ckvs)) (JArr []) = JArr ps) as -> by reflexivity.
  rewrite (parts_texts ps ts Htexts), rbind_inr, join_texts. reflexivity.
Qed.

Lemma X2_witness :
  parseAPIResponse
    (JObj [("candidates",
            JArr [JObj [("content",
                         JObj [("parts", JArr [JObj [("text", JStr "Hello, ")];
                                               JObj [("text", JStr "world")]])])]])])
  = inr (JObj [("content", JStr "Hello, world")]).
Proof.
  apply X2_candidate_parts_are_concatenated
    with (rest := []) (ts := ["Hello, "; "world"])
         (ps := [JObj [("text", JStr "Hello, ")]; JObj [("text", JStr "world")]])
         (c0 := JObj [("content",
                       JObj [("parts", JArr [JObj [("text", JStr "Hello, ")];
                                             JObj [("text", JStr "world")]])])]).
  - reflexivity.
  - reflexivity.
  - reflexivity.
  - repeat constructor; discriminate.
Defined.

(** X3.  A payload that is not an object is never rejected: a string is
    passed through as the content, anything else yields the fixed notice. *)
Theorem X3_non_object_payload_is_dumped (data : jsval) :
  (forall kvs, data <> JObj kvs) ->
  parseAPIResponse data
  = inr (JObj [("content",
                match data with
                | JStr _ => data
                | _ => JStr "Received an unrecognized response format."
                end)]).
Proof.
  intros Hno. destruct data; try reflexivity.
  exfalso. eapply Hno. reflexivity.
Qed.

Lemma X3_witness :
  parseAPIResponse (JStr "<html>Bad gateway</html>")
  = inr (JObj [("content", JStr "<html>Bad gateway</html>")]).
Proof. apply (X3_non_object_payload_is_dumped (JStr "<html>Bad gateway</html>")). discriminate. Defined.

(** X4.  The chat shape: when the first choice carries a message whose
    content is a non-empty string, that string is the content, whatever
    else the payload holds -- further choices, tool calls, candidates. *)
Theorem X4_first_choice_content_wins
    (data c0 : jsval) (rest : list jsval) (s : string) :
  prop data "choices" = JArr (c0 :: rest) ->
  prop (prop c0 "message") "content" = JStr s ->
  s <> EmptyString ->
  parseAPIResponse data = inr (JObj [("content", JStr s)]).
Proof.
  intros Hch Hcontent Hs.
  destruct (prop_is_object data "choices" _ Hch) as [dkvs ->]; [discriminate.. |].
  destruct (prop_is_object (prop c0 "message") "content" _ Hcontent) as [mkvs Hm];
    [discriminate.. |].
  destruct (prop_is_object c0 "message" _ Hm) as [c0kvs ->]; [discriminate.. |].
  unfold parseAPIResponse, parseAPIResponse_body.
  assert (optp (optp (JObj dkvs) "choices") "length"
          = JNum (Z.of_nat (length (JObj c0kvs :: rest)))) as ->.
  { unfold optp. cbn [nullish]. rewrite Hch. reflexivity. }
  rewrite length_truthy.
  rewrite getp_object, Hch, rbind_inr, first_cons, rbind_inr, getp_object, Hm, rbind_inr.
  assert (jor (JObj mkvs) (JObj []) = JObj mkvs) as -> by reflexivity.
  rewrite getp_object, <- Hm, Hcontent, rbind_inr, getp_object, rbind_inr.
  unfold rret. rewrite (jor_nonempty s _ Hs), (jor_nonempty s _ Hs). reflexivity.
Qed.

Lemma X4_witness :
  parseAPIResponse
    (JObj [("choices",
            JArr [JObj [("message",
                         JObj [("content", JStr "IBM is a tech company.");
                               ("tool_calls", JArr [Calls.search_ibm])])];
                  JObj [("message", JObj [("content", JStr "second choice")])]]);
           ("candidates", JArr [JObj [("content", JStr "ignored")]])])
  = inr (JObj [("content", JStr "IBM is a tech company.")]).
Proof.
  eapply X4_first_choice_content_wins; [reflexivity | reflexivity | discriminate].
Defined.

(** ** The model gateway *)

Lemma append_cons (c : ascii) (r s : string) : String c r +:+ s = String c (r +:+ s).
Proof. reflexivity. Qed.

Lemma append_nil (s : string) : EmptyString +:+ s = s.
Proof. reflexivity. Qed.

Lemma ends_with_slash_cons (c : ascii) (r : string) :
  r <> EmptyString -> ends_with_slash (String c r) = ends_with_slash r.
Proof. destruct r; [congruence | reflexivity]. Qed.

(** X5.  [trimSlashes] removes the trailing run of slashes and nothing
    else: the input is the output followed by slashes only, and the output
    does not end in a slash. *)
Theorem X5_trimSlashes_strips_the_trailing_run (s : string) :
  (exists k, s = trimSlashes s +:+ slashes k) /\
  ends_with_slash (trimSlashes s) = false.
Proof.
  induction s as [| c r [[k Hk] He]]; [split; [exists O |]; reflexivity |].
  cbn [trimSlashes]. destruct (trimSlashes r) as [| c' r'] eqn:Hr.
  - destruct (Ascii.eqb_spec c "/") as [-> | Hc].
    + split; [| reflexivity]. exists (S k).
      rewrite append_nil in *. cbn [slashes]. congruence.
    + split.
      * exists k. rewrite append_cons, append_nil in *. congruence.
      * cbn. apply Ascii.eqb_neq. exact Hc.
  - split.
    + exists k. rewrite append_cons. f_equal. exact Hk.
    + rewrite ends_with_slash_cons by discriminate. exact He.
Qed.

(** X6.  What is sent to the model: every outbound message comes from a
    stored one, carries a truthy content, and is never labelled [tool]
    (a tool message goes out as a system message); nothing is added. *)
Theorem X6_outbound_messages `{H : Host} (ms : list Message) (o : jsval) :
  In o (messagesForApi ms) ->
  (exists m, In m ms /\ o = apiMessage m /\
             prop o "role" = JStr (if is_tool (m_role m) then "system" else role_name (m_role m))) /\
  truthy (prop o "content") = true /\
  prop o "role" <> JStr "tool" /\
  (length (messagesForApi ms) <= length ms)%nat.
Proof.
  unfold messagesForApi. intros Hin.
  apply List.filter_In in Hin as [Hin Ht].
  apply in_map_iff in Hin as [m [<- Hm]].
  split; [| split; [| split]].
  - exists m. split; [exact Hm | split; reflexivity].
  - exact Ht.
  - cbn. destruct (m_role m); discriminate.
  - etransitivity; [apply List.filter_length_le | rewrite length_map; reflexivity].
Qed.

Lemma X6_witness :
  (length (@messagesForApi (Ref.host []) [Example.question]) <= 1)%nat.
Proof.
  refine (let H := Ref.host [] in _).
  apply (proj2 (proj2 (proj2
    (X6_outbound_messages [Example.question] (apiMessage Example.question)
       (or_introl eq_refl))))).
Defined.

(** X7.  A stored message with an empty-string content is left out of the
    request; one whose content is [null] -- the record of the model's tool
    requests -- is sent, as the text that [JSON.stringify] gives for
    [null], and without its tool calls. *)
Theorem X7_empty_dropped_null_sent `{H : Host}
    (before after : list Message) (m : Message) (text : string) :
  text <> EmptyString ->
  JSON_stringify JNull = JStr text ->
  (m_content m = JStr EmptyString ->
   messagesForApi (before ++ m :: after) = (messagesForApi before ++ messagesForApi after)%list) /\
  (m_content m = JNull ->
   messagesForApi (before ++ m :: after)
   = (messagesForApi before
      ++ JObj [("role", JStr (if is_tool (m_role m) then "system" else role_name (m_role m)));
               ("content", JStr text)]
      :: messagesForApi after)%list).
Proof.
  intros Htext Hnull. unfold messagesForApi.
  rewrite List.map_app, List.filter_app. cbn [List.map List.filter].
  split; intros Hc.
  - assert (truthy (prop (apiMessage m) "content") = false) as ->; [| reflexivity].
    unfold apiMessage. rewrite Hc. reflexivity.
  - assert (apiMessage m
            = JObj [("role", JStr (if is_tool (m_role m) then "system"
                                   else role_name (m_role m)));
                    ("content", JStr text)]) as ->.
    { unfold apiMessage. rewrite Hc. cbn [apiContent]. rewrite Hnull. reflexivity. }
    change (prop (JObj [("role", ?r); ("content", ?c)]) "content") with c.
    rewrite (truthy_nonempty text Htext). reflexivity.
Qed.

Lemma X7_witness :
  @messagesForApi (Ref.host [])
    ([Example.question] ++
     {| m_id := JUndef; m_role := assistant; m_content := JNull; m_timestamp := JUndef;
        m_tool_calls := JArr [Calls.search_ibm]; m_tool_call_id := JUndef; m_name := JUndef |}
     :: [])
  = [JObj [("role", JStr "user"); ("content", JStr "IBM")];
     JObj [("role", JStr "assistant"); ("content", JStr "null")]].
Proof.
  refine (let H := Ref.host [] in _).
  apply (proj2 (X7_empty_dropped_null_sent [Example.question] []
                  {| m_id := JUndef; m_role := assistant; m_content := JNull;
                     m_timestamp := JUndef; m_tool_calls := JArr [Calls.search_ibm];
                     m_tool_call_id := JUndef; m_name := JUndef |} "null"
                  ltac:(discriminate) eq_refl) eq_refl).
Defined.

Lemma issued_nil (w : World) : issued [] w = w.
Proof. destruct w. unfold issued, set_requests. cbn. rewrite app_nil_r. reflexivity. Qed.

Lemma issued_requests (rqs : list Request) (w : World) :
  requests (issued rqs w) = (requests w ++ rqs)%list.
Proof. reflexivity. Qed.

(** The gateway either decides without the network, or runs the primary
    call with the fallback call as its handler. *)
Lemma callLLM_cases `{H : Host} (conversation : Conversation) (w : World) :
  (exists r, callLLM conversation w = (w, r)) \/
  (exists key b,
     provider (settings_llm w) = JStr "aipipe" /\
     truthy (apiKey (settings_llm w)) = true /\
     tpl (apiKey (settings_llm w)) = inr key /\
     baseUrl (settings_llm w) = JStr b /\
     let hdrs := [("Content-Type", "application/json"); ("Authorization", "Bearer " +:+ key)] in
     let body := chatBody (settings_llm w) (c_messages conversation) in
     callLLM conversation w
     = try_catch (primaryCall (trimSlashes b) hdrs body)
         (fun err => try_catch (fallbackCall (trimSlashes b) hdrs body)
                       (fun err2 => throw (Error (finalMessage err2 err)))) w).
Proof.
  remember (callLLM conversation w) as out eqn:Hout.
  unfold callLLM in Hout. unfold bind at 1 in Hout. unfold gets in Hout.
  cbv beta match in Hout.
  destruct (truthy (provider (settings_llm w))) eqn:Hp; cbn [negb] in Hout;
    [| left; eexists; exact Hout].
  destruct (truthy (apiKey (settings_llm w))) eqn:Hk; cbn [negb] in Hout;
    [| left; eexists; exact Hout].
  destruct (provider (settings_llm w)) as [| | | | s | |] eqn:Hprov;
    try (left; eexists; exact Hout).
  destruct (String.eqb_spec s "aipipe") as [-> | Hs].
  - destruct (baseUrl (settings_llm w)) as [| | | | b | |] eqn:Hb;
      try (left; eexists; exact Hout).
    unfold bind at 1, lift at 1 in Hout.
    destruct (tpl (apiKey (settings_llm w))) as [e | key] eqn:Hkey;
      [left; eexists; exact Hout |].
    right. exists key, b. repeat split; exact Hout.
  - left. repeat case_match; try (eexists; exact Hout). simplify_eq.
Qed.

(** X8.  The traffic of one gateway call: none at all, or the primary
    request, or the primary request followed by the fallback one -- never
    anything else, and nothing else of the state changes.  A request is
    only issued when the provider is [aipipe], the key is truthy and
    converts to text, and the base URL is a string. *)
Theorem X8_gateway_traffic `{H : Host} (conversation : Conversation) (w : World) :
  fst (callLLM conversation w) = w \/
  exists key b,
    provider (settings_llm w) = JStr "aipipe" /\
    truthy (apiKey (settings_llm w)) = true /\
    tpl (apiKey (settings_llm w)) = inr key /\
    baseUrl (settings_llm w) = JStr b /\
    let hdrs := [("Content-Type", "application/json"); ("Authorization", "Bearer " +:+ key)] in
    let body := chatBody (settings_llm w) (c_messages conversation) in
    let p := primaryRequest (trimSlashes b) hdrs body in
    let f := fallbackRequest (trimSlashes b) hdrs body in
    fst (callLLM conversation w) = issued [p] w \/
    fst (callLLM conversation w) = issued [p; f] w.
Proof.
  destruct (callLLM_cases conversation w) as [[r ->] | (key & b & Hp & Hk & Hkey & Hb & Hcall)];
    [left; reflexivity | right].
  exists key, b. repeat (split; [assumption |]). cbv zeta in *.
  rewrite Hcall. unfold try_catch. rewrite primaryCall_eq.
  destruct (primaryOutcome _ _ _); [| left; reflexivity].
  rewrite fallbackCall_eq, issued_twice.
  destruct (fallbackOutcome _ _); right; reflexivity.
Qed.

(** ** The loop *)

Section LoopFrame.
Context `{H : Host}.
Variable R : World -> World -> Prop.
Hypothesis R_refl : forall w, R w w.
Hypothesis R_trans : forall a b c, R a b -> R b c -> R a c.
Hypothesis R_addMessage : forall role content cid, keeps R (addMessage role content cid).
Hypothesis R_push : forall cid m, keeps R (pushMessage cid m).
Hypothesis R_fetch : forall rq, keeps R (fetch rq).
Hypothesis R_count : forall f, keeps R (modify (set_apiCalls f)).
Hypothesis R_calls : forall f, keeps R (modify (set_modelCalls f)).

Lemma keeps_turn (cid : string) : keeps R (turn cid).
Proof.
  unfold turn. apply (keeps_try_catch R R_trans).
  - apply (keeps_bind R R_trans); [apply (keeps_gets R R_refl) | intros cs].
    destruct (cs !! cid) as [conversation |]; [| apply (keeps_ret R R_refl)].
    apply (keeps_bind R R_trans); [apply R_calls | intros _].
    apply (keeps_respond R R_refl R_trans); auto.
  - intros e. unfold onTurnError.
    apply (keeps_bind R R_trans); [apply R_addMessage | intros _].
    apply (keeps_ret R R_refl).
Qed.

Lemma keeps_loop (maxTurns : nat) (cid : string) : keeps R (loop maxTurns cid).
Proof.
  induction maxTurns as [| n IH]; cbn [loop]; [apply (keeps_ret R R_refl) |].
  apply (keeps_bind R R_trans); [apply keeps_turn | intros [|]];
    [exact IH | apply (keeps_ret R R_refl)].
Qed.

Lemma keeps_agentLoop (cid : string) : keeps R (agentLoop cid).
Proof.
  unfold agentLoop.
  apply (keeps_bind R R_trans); [apply (keeps_gets R R_refl) | intros cs].
  destruct (cs !! cid); [apply keeps_loop | apply (keeps_ret R R_refl)].
Qed.

End LoopFrame.

Lemma append_only_refl (w : World) : append_only w w.
Proof. intros cid c Hc. exists c, []. rewrite app_nil_r. auto. Qed.

Lemma append_only_trans (a b c : World) :
  append_only a b -> append_only b c -> append_only a c.
Proof.
  intros Hab Hbc cid x Hx.
  destruct (Hab cid x Hx) as (y & l1 & Hy & Hl1).
  destruct (Hbc cid y Hy) as (z & l2 & Hz & Hl2).
  exists z, (l1 ++ l2)%list. split; [exact Hz |].
  rewrite Hl2, Hl1, app_assoc. reflexivity.
Qed.

Lemma append_only_same (w w' : World) :
  conversations w' = conversations w -> append_only w w'.
Proof. intros He cid c Hc. exists c, []. rewrite He, app_nil_r. auto. Qed.

Lemma append_only_insert (w w' : World) (cid : string) (c c' : Conversation) (l : list Message) :
  conversations w !! cid = Some c ->
  conversations w' = <[cid := c']> (conversations w) ->
  c_messages c' = (c_messages c ++ l)%list ->
  append_only w w'.
Proof.
  intros Hc Hw Hm cid0 c0 Hc0. rewrite Hw.
  destruct (decide (cid0 = cid)) as [-> | Hne].
  - rewrite lookup_insert_eq. exists c', l. split; [reflexivity | congruence].
  - rewrite lookup_insert_ne by congruence. exists c0, []. rewrite app_nil_r. auto.
Qed.

Lemma addMessage_append_only `{H : Host} role content cid :
  keeps append_only (addMessage role content cid).
Proof.
  intros w. unfold addMessage.
  destruct (if truthy_id cid then cid else currentConversationId w) as [t |];
    [| apply append_only_refl].
  destruct (negb (truthy_id (Some t))); [apply append_only_refl |].
  destruct (conversations w !! t) as [c |] eqn:Hc; [| apply append_only_refl].
  destruct (nullish content); [apply append_only_refl |].
  cbn [fst]. eapply append_only_insert; [exact Hc | reflexivity |].
  rewrite touch_messages. reflexivity.
Qed.

Lemma pushMessage_append_only (cid : string) (m : Message) :
  keeps append_only (pushMessage cid m).
Proof.
  intros w. unfold pushMessage, modify. cbn [fst].
  destruct (conversations w !! cid) as [c |] eqn:Hc.
  - eapply append_only_insert; [exact Hc | cbn; rewrite Hc; reflexivity | reflexivity].
  - apply append_only_same. cbn. rewrite Hc. reflexivity.
Qed.

Lemma loop_append_only `{H : Host} (maxTurns : nat) (cid : string) :
  keeps append_only (loop maxTurns cid).
Proof.
  apply keeps_loop;
    first [ exact append_only_refl
          | exact append_only_trans
          | intros; apply addMessage_append_only
          | intros; apply pushMessage_append_only
          | intros ? ?; apply append_only_same; reflexivity ].
Qed.

Lemma agentLoop_append_only `{H : Host} (cid : string) : keeps append_only (agentLoop cid).
Proof.
  apply keeps_agentLoop;
    first [ exact append_only_refl
          | exact append_only_trans
          | intros; apply addMessage_append_only
          | intros; apply pushMessage_append_only
          | intros ? ?; apply append_only_same; reflexivity ].
Qed.

(** X9.  The loop only ever appends: a conversation that was stored is
    still stored afterwards, under the same key, with its earlier messages
    as a prefix of its messages.  This holds for every turn budget and for
    the tool branch as well. *)
Theorem X9_loop_is_append_only `{H : Host} (maxTurns : nat) (cid : string) (w : World) :
  append_only w (fst (loop maxTurns cid w)) /\
  append_only w (fst (agentLoop cid w)).
Proof. split; [apply loop_append_only | apply agentLoop_append_only]. Qed.

Lemma same_settings_refl (w : World) : same_settings w w.
Proof. split; reflexivity. Qed.

Lemma same_settings_trans (a b c : World) :
  same_settings a b -> same_settings b c -> same_settings a c.
Proof. intros [? ?] [? ?]. split; congruence. Qed.

Lemma addMessage_same_settings `{H : Host} role content cid :
  keeps same_settings (addMessage role content cid).
Proof. intros w. unfold addMessage, same_settings. repeat case_match; split; reflexivity. Qed.

Lemma loop_same_settings `{H : Host} (maxTurns : nat) (cid : string) :
  keeps same_settings (loop maxTurns cid).
Proof.
  apply keeps_loop;
    first [ exact same_settings_refl
          | exact same_settings_trans
          | intros; apply addMessage_same_settings
          | intros ? ?; split; reflexivity
          | intros ? ? ?; split; reflexivity ].
Qed.

Lemma agentLoop_same_settings `{H : Host} (cid : string) :
  keeps same_settings (agentLoop cid).
Proof.
  apply keeps_agentLoop;
    first [ exact same_settings_refl
          | exact same_settings_trans
          | intros; apply addMessage_same_settings
          | intros ? ?; split; reflexivity
          | intros ? ? ?; split; reflexivity ].
Qed.

(** X10.  The loop never touches the settings nor the choice of the current
    conversation, for every turn budget and for the tool branch as well. *)
Theorem X10_loop_keeps_settings `{H : Host} (maxTurns : nat) (cid : string) (w : World) :
  same_settings w (fst (loop maxTurns cid w)) /\
  same_settings w (fst (agentLoop cid w)).
Proof. split; [apply loop_same_settings | apply agentLoop_same_settings]. Qed.

Lemma onTurnError_eq `{H : Host} (cid : string) (e : exn) (w : World) :
  onTurnError cid e w
  = (fst (addMessage system (JStr ("Agent iteration error: " +:+ errorLabel e)) (Some cid) w),
     inr Break).
Proof.
  unfold onTurnError, bind, ret.
  pose proof (addMessage_returns system (JStr ("Agent iteration error: " +:+ errorLabel e))
                (Some cid) w) as Hr.
  destruct (addMessage _ _ _ w) as [w' r]. cbn in Hr. subst r. reflexivity.
Qed.

(** An invocation of the loop on a stored conversation, in closed form: one
    gateway call, then at most one appended message. *)
Lemma agentLoop_closed `{H : Host} (cid : string) (conversation : Conversation) (w : World) :
  conversations w !! cid = Some conversation ->
  agentLoop cid w =
  (match callLLM conversation (set_modelCalls S w) with
   | (w1, inl e) => fst (onTurnError cid e w1)
   | (w1, inr data) =>
       let w2 := set_apiCalls (fun n => n + 1) w1 in
       match parseAPIResponse data with
       | inl e => fst (onTurnError cid e w2)
       | inr r =>
           if truthy (prop r "content")
           then fst (addMessage assistant (prop r "content") (Some cid) w2)
           else w2
       end
   end, inr tt).
Proof.
  intros Hc. rewrite agentLoop_eq, Hc, loop_S.
  assert (turn cid w
          = (match callLLM conversation (set_modelCalls S w) with
             | (w1, inl e) => fst (onTurnError cid e w1)
             | (w1, inr data) =>
                 let w2 := set_apiCalls (fun n => n + 1) w1 in
                 match parseAPIResponse data with
                 | inl e => fst (onTurnError cid e w2)
                 | inr r =>
                     if truthy (prop r "content")
                     then fst (addMessage assistant (prop r "content") (Some cid) w2)
                     else w2
                 end
             end, inr Break)) as ->.
  { unfold turn, try_catch. unfold bind at 1. unfold gets. cbv beta match.
    rewrite Hc. unfold bind at 1. unfold modify at 1. cbv beta match.
    unfold respond. unfold bind at 1.
    destruct (callLLM conversation (set_modelCalls S w)) as [w1 [e | data]];
      [rewrite onTurnError_eq; reflexivity |].
    unfold bind at 1. unfold modify at 1. cbv beta match zeta.
    unfold bind at 1. unfold lift at 1.
    destruct (parseAPIResponse data) as [e | r] eqn:Hp;
      [rewrite onTurnError_eq; reflexivity |].
    apply parseAPIResponse_shape in Hp as [content ->].
    rewrite handleResponse_content_only.
    change (prop (JObj [("content", content)]) "content") with content.
    destruct (truthy content); reflexivity. }
  destruct (callLLM conversation (set_modelCalls S w)) as [w1 [e | data]]; reflexivity.
Qed.

Lemma addMessage_apiCalls `{H : Host} role content cid w :
  apiCalls (fst (addMessage role content cid w)) = apiCalls w.
Proof. unfold addMessage. repeat case_match; reflexivity. Qed.

Lemma addMessage_requests `{H : Host} role content cid w :
  requests (fst (addMessage role content cid w)) = requests w.
Proof. unfold addMessage. repeat case_match; reflexivity. Qed.

(** The gateway call of a turn, made after the count of model calls was
    raised, is the call made before, with that count raised. *)
Lemma callLLM_counted `{H : Host} (conversation : Conversation) (w : World) :
  callLLM conversation (set_modelCalls S w)
  = (set_modelCalls S (fst (callLLM conversation w)), snd (callLLM conversation w)).
Proof. apply blind_callLLM. Qed.

(** X11.  A failure of the gateway does not leave the loop as an
    exception: the loop returns normally, having appended one system
    message that carries the error's text; the failed call is not counted
    among the API calls. *)
Theorem X11_gateway_failure_is_reported `{H : Host}
    (cid : string) (conversation : Conversation) (w w1 : World) (e : exn) :
  cid <> EmptyString ->
  conversations w !! cid = Some conversation ->
  callLLM conversation w = (w1, inl e) ->
  exists w' msg,
    agentLoop cid w = (w', inr tt) /\
    messagesOf cid w' = (c_messages conversation ++ [msg])%list /\
    m_role msg = system /\
    m_content msg = JStr ("Agent iteration error: " +:+ errorLabel e) /\
    apiCalls w' = apiCalls w /\
    requests w' = requests w1.
Proof.
  intros Hcid Hc Hcall.
  rewrite (agentLoop_closed cid conversation w Hc), callLLM_counted, Hcall.
  cbn [fst snd]. rewrite onTurnError_eq. cbn [fst].
  destruct (callLLM_same_but_requests conversation w) as (Hcs & _ & _ & Hapi & _).
  rewrite Hcall in Hcs, Hapi. cbn [fst] in Hcs, Hapi.
  destruct (addMessage_appends system (JStr ("Agent iteration error: " +:+ errorLabel e))
              cid conversation (set_modelCalls S w1) Hcid)
    as (w' & msg & Hadd & Hmsgs & Hrole & Hcontent & _ & _ & Hreq & _);
    [cbn; rewrite Hcs; exact Hc | reflexivity |].
  exists w', msg. rewrite Hadd. cbn [fst].
  repeat (split; [first [reflexivity | assumption] |]).
  split; [| exact Hreq].
  rewrite <- Hapi.
  change w' with (fst (w', @inr exn unit tt)). rewrite <- Hadd.
  rewrite addMessage_apiCalls. reflexivity.
Qed.

Lemma X11_witness :
  let host := Ref.host [] in
  let w := Example.world (Example.llm (JStr "aipipe") (JStr "token")) in
  exists w' msg,
    @agentLoop host "conv_1" w = (w', inr tt) /\
    messagesOf "conv_1" w' = [Example.question; msg] /\
    m_role msg = system /\
    m_content msg = JStr "Agent iteration error: Failed to fetch" /\
    apiCalls w' = 0 /\
    length (requests w') = 2%nat.
Proof.
  intros host w.
  destruct (@X11_gateway_failure_is_reported host "conv_1" Example.conversation w
              (fst (@callLLM host Example.conversation w)) (Error "Failed to fetch"))
    as (w' & msg & Hloop & Hmsgs & Hrole & Hcontent & Hapi & Hreq).
  - discriminate.
  - reflexivity.
  - vm_compute. reflexivity.
  - exists w', msg. repeat (split; [assumption |]). rewrite Hreq. reflexivity.
Defined.

(** X12.  The counter of API calls counts the returns of the gateway, not
    the requests: an invocation of the loop on a stored conversation raises
    it by one exactly when the gateway returns a payload -- the canned demo
    payload included -- and leaves it when the gateway throws. *)
Theorem X12_api_calls_count_gateway_returns `{H : Host}
    (cid : string) (conversation : Conversation) (w : World) :
  conversations w !! cid = Some conversation ->
  apiCalls (fst (agentLoop cid w))
  = apiCalls w + match snd (callLLM conversation w) with inr _ => 1 | inl _ => 0 end.
Proof.
  intros Hc.
  rewrite (agentLoop_closed cid conversation w Hc), callLLM_counted.
  destruct (callLLM_same_but_requests conversation w) as (_ & _ & _ & Hapi & _).
  destruct (callLLM conversation w) as [w1 [e | data]]; cbn [fst snd] in *.
  - rewrite onTurnError_eq. cbn [fst]. rewrite addMessage_apiCalls. cbn. lia.
  - destruct (parseAPIResponse data) as [e | r].
    + rewrite onTurnError_eq. cbn [fst]. rewrite addMessage_apiCalls. cbn. lia.
    + destruct (truthy (prop r "content")); [rewrite addMessage_apiCalls |]; cbn; lia.
Qed.

Lemma X12_witness :
  let w := Example.world (Example.llm (JStr "aipipe") JUndef) in
  apiCalls (fst (@agentLoop (Ref.host []) "conv_1" w)) = 1 /\
  requests (fst (@agentLoop (Ref.host []) "conv_1" w)) = [].
Proof.
  intros w. split; [| vm_compute; reflexivity].
  apply (@X12_api_calls_count_gateway_returns (Ref.host []) "conv_1" Example.conversation w).
  reflexivity.
Defined.

(** X13.  A payload that the normaliser rejects is counted as an API call
    and reported in the conversation with the normaliser's fixed text; the
    loop still returns normally. *)
Theorem X13_unparsable_payload_is_reported `{H : Host}
    (cid : string) (conversation : Conversation) (w w1 : World) (data : jsval) (e : exn) :
  cid <> EmptyString ->
  conversations w !! cid = Some conversation ->
  callLLM conversation w = (w1, inr data) ->
  parseAPIResponse data = inl e ->
  exists w' msg,
    agentLoop cid w = (w', inr tt) /\
    messagesOf cid w' = (c_messages conversation ++ [msg])%list /\
    m_role msg = system /\
    m_content msg = JStr "Agent iteration error: Could not parse the API response." /\
    apiCalls w' = apiCalls w + 1.
Proof.
  intros Hcid Hc Hcall Hparse.
  assert (e = Error "Could not parse the API response.") as ->.
  { unfold parseAPIResponse, rthrow in Hparse.
    destruct (parseAPIResponse_body data); congruence. }
  rewrite (agentLoop_closed cid conversation w Hc), callLLM_counted, Hcall.
  cbn [fst snd]. cbv zeta. rewrite Hparse, onTurnError_eq. cbn [fst].
  destruct (callLLM_same_but_requests conversation w) as (Hcs & _ & _ & Hapi & _).
  rewrite Hcall in Hcs, Hapi. cbn [fst] in Hcs, Hapi.
  destruct (addMessage_appends system
              (JStr ("Agent iteration error: "
                     +:+ errorLabel (Error "Could not parse the API response.")))
              cid conversation (set_apiCalls (fun n => n + 1) (set_modelCalls S w1)) Hcid)
    as (w' & msg & Hadd & Hmsgs & Hrole & Hcontent & _);
    [cbn; rewrite Hcs; exact Hc | reflexivity |].
  exists w', msg. rewrite Hadd. cbn [fst].
  repeat (split; [first [reflexivity | assumption] |]).
  rewrite <- Hapi.
  change w' with (fst (w', @inr exn unit tt)). rewrite <- Hadd.
  rewrite addMessage_apiCalls. reflexivity.
Qed.

Lemma X13_witness :
  let host := Ref.host [Example.reply 200 "OK" (JObj [("choices", JArr [JNull])])] in
  let w := Example.world (Example.llm (JStr "aipipe") (JStr "token")) in
  exists w' msg,
    @agentLoop host "conv_1" w = (w', inr tt) /\
    messagesOf "conv_1" w' = [Example.question; msg] /\
    m_role msg = system /\
    m_content msg = JStr "Agent iteration error: Could not parse the API response." /\
    apiCalls w' = 1.
Proof.
  intros host w.
  apply (@X13_unparsable_payload_is_reported host "conv_1" Example.conversation w
           (fst (@callLLM host Example.conversation w))
           (JObj [("choices", JArr [JNull])])
           (Error "Could not parse the API response.")).
  - discriminate.
  - reflexivity.
  - vm_compute. reflexivity.
  - reflexivity.
Defined.

Lemma log_grows_issued (rqs : list Request) (n : nat) (w : World) :
  (length rqs <= n)%nat -> log_grows n w (issued rqs w).
Proof. intros Hl. exists rqs. split; [reflexivity | exact Hl]. Qed.

Lemma gateway_traffic `{H : Host} (conversation : Conversation) (w : World) :
  fst (callLLM conversation w) = w \/
  exists p f, fst (callLLM conversation w) = issued [p] w \/
              fst (callLLM conversation w) = issued [p; f] w.
Proof.
  destruct (callLLM_cases conversation w) as [[r ->] | (key & b & _ & _ & _ & _ & Hcall)];
    [left; reflexivity | right].
  cbv zeta in Hcall. rewrite Hcall. unfold try_catch. rewrite primaryCall_eq.
  do 2 eexists.
  destruct (primaryOutcome _ _ _); [| left; reflexivity].
  rewrite fallbackCall_eq, issued_twice.
  destruct (fallbackOutcome _ _); right; reflexivity.
Qed.

Lemma agentLoop_log `{H : Host} (cid : string) (w : World) :
  log_grows 2 w (fst (agentLoop cid w)).
Proof.
  assert (forall conversation, log_grows 2 w (fst (callLLM conversation w))) as Hgw.
  { intros conversation.
    destruct (gateway_traffic conversation w) as [-> | (p & f & [-> | ->])];
      [exists []; rewrite app_nil_r; split; [reflexivity | cbn; lia]
      | apply log_grows_issued; cbn; lia
      | apply log_grows_issued; cbn; lia]. }
  destruct (conversations w !! cid) as [conversation |] eqn:Hc;
    [| rewrite agentLoop_eq, Hc; exists []; rewrite app_nil_r;
       split; [reflexivity | cbn; lia]].
  rewrite (agentLoop_closed cid conversation w Hc), callLLM_counted.
  specialize (Hgw conversation).
  destruct (callLLM conversation w) as [w1 [e | data]]; cbn [fst snd] in *.
  - rewrite onTurnError_eq. cbn [fst]. unfold log_grows. rewrite addMessage_requests. exact Hgw.
  - destruct (parseAPIResponse data) as [e | r].
    + rewrite onTurnError_eq. cbn [fst]. unfold log_grows. rewrite addMessage_requests.
      exact Hgw.
    + destruct (truthy (prop r "content")); unfold log_grows;
        [rewrite addMessage_requests |]; exact Hgw.
Qed.

Lemma truthy_id_Some (s : string) : s <> EmptyString -> truthy_id (Some s) = true.
Proof. intros Hs. cbn. apply String.eqb_neq in Hs. rewrite Hs. reflexivity. Qed.

Lemma addMessage_others `{H : Host} (role : Role) (content : jsval) (cid other : string)
    (w : World) :
  cid <> EmptyString -> other <> cid ->
  conversations (fst (addMessage role content (Some cid) w)) !! other
  = conversations w !! other.
Proof.
  intros Hcid Hne. unfold addMessage. rewrite (truthy_id_Some cid Hcid).
  cbv beta iota zeta. rewrite (truthy_id_Some cid Hcid). cbn [negb].
  destruct (conversations w !! cid); [| reflexivity].
  destruct (nullish content); [reflexivity |].
  cbn [fst]. unfold set_ticks, set_conversations. cbn [conversations].
  apply lookup_insert_ne. congruence.
Qed.

Lemma agentLoop_others `{H : Host} (cid other : string) (w : World) :
  cid <> EmptyString -> other <> cid ->
  conversations (fst (agentLoop cid w)) !! other = conversations w !! other.
Proof.
  intros Hcid Hne.
  destruct (conversations w !! cid) as [conversation |] eqn:Hc;
    [| rewrite agentLoop_eq, Hc; reflexivity].
  rewrite (agentLoop_closed cid conversation w Hc), callLLM_counted.
  destruct (callLLM_same_but_requests conversation w) as (Hcs & _).
  destruct (callLLM conversation w) as [w1 [e | data]]; cbn [fst snd] in *.
  - rewrite onTurnError_eq. cbn [fst].
    rewrite (addMessage_others _ _ cid other _ Hcid Hne). cbn. rewrite Hcs. reflexivity.
  - destruct (parseAPIResponse data) as [e | r].
    + rewrite onTurnError_eq. cbn [fst].
      rewrite (addMessage_others _ _ cid other _ Hcid Hne). cbn. rewrite Hcs. reflexivity.
    + destruct (truthy (prop r "content"));
        [rewrite (addMessage_others _ _ cid other _ Hcid Hne) |]; cbn; rewrite Hcs; reflexivity.
Qed.

(** X14.  One invocation of the loop issues at most two requests and only
    ever extends the log of requests; it touches no conversation but the
    one it was given; and on an identifier under which nothing is stored it
    does nothing at all. *)
Theorem X14_loop_footprint `{H : Host} (cid : string) (w : World) :
  log_grows 2 w (fst (agentLoop cid w)) /\
  (cid <> EmptyString ->
   forall other, other <> cid ->
     conversations (fst (agentLoop cid w)) !! other = conversations w !! other) /\
  (conversations w !! cid = None -> agentLoop cid w = (w, inr tt)).
Proof.
  split; [apply agentLoop_log |].
  split; [intros Hcid other Hne; apply agentLoop_others; assumption |].
  intros Hnone. rewrite agentLoop_eq, Hnone. reflexivity.
Qed.

(** ** [addMessage] *)

(** X15.  [addMessage] never throws and touches at most the messages of its
    target, the given conversation or else the current one.  It appends
    exactly one message, with the given role and content, when the target's
    identifier is non-empty, a conversation is stored under it and the
    content is neither [undefined] nor [null] -- an empty string, [false]
    or [0] is stored like any other content -- and changes nothing at all
    otherwise. *)
Theorem X15_addMessage_effect `{H : Host}
    (role : Role) (content : jsval) (cid : option string) (w : World) :
  let target := if truthy_id cid then cid else currentConversationId w in
  let w' := fst (addMessage role content cid w) in
  snd (addMessage role content cid w) = inr tt /\
  same_settings w w' /\ requests w' = requests w /\ apiCalls w' = apiCalls w /\
  match target with
  | Some t =>
      (forall other, other <> t -> conversations w' !! other = conversations w !! other) /\
      match conversations w !! t with
      | Some c =>
          if negb (t =? EmptyString)%string && negb (nullish content)
          then exists m, messagesOf t w' = (c_messages c ++ [m])%list /\
                         m_role m = role /\ m_content m = content
          else w' = w
      | None => w' = w
      end
  | None => w' = w
  end.
Proof.
  intros target w'.
  split; [apply addMessage_returns |].
  split; [apply addMessage_same_settings |].
  split; [apply addMessage_requests |].
  split; [apply addMessage_apiCalls |].
  subst target w'. unfold addMessage.
  destruct (if truthy_id cid then cid else currentConversationId w) as [t |] eqn:Ht;
    [| reflexivity].
  change (truthy_id (Some t)) with (negb (t =? EmptyString)%string).
  destruct (t =? EmptyString)%string eqn:Hempty; cbn [negb andb].
  - split; [reflexivity |]. destruct (conversations w !! t); reflexivity.
  - destruct (conversations w !! t) as [c |] eqn:Hc; [| split; reflexivity].
    destruct (nullish content); [split; reflexivity |].
    cbn [fst]. split.
    + intros other Hne. cbn. rewrite lookup_insert_ne by congruence. reflexivity.
    + eexists. unfold messagesOf. cbn. rewrite lookup_insert_eq.
      rewrite touch_messages. cbn. split; [reflexivity | split; reflexivity].
Qed.

Lemma titles_kept_refl (w : World) : titles_kept w w.
Proof. intros cid c Hc _ _. exists c. auto. Qed.

Lemma titles_kept_trans (a b c : World) :
  titles_kept a b -> titles_kept b c -> titles_kept a c.
Proof.
  intros Hab Hbc cid x Hx He Hn.
  destruct (Hab cid x Hx He Hn) as (y & Hy & Hty).
  destruct (Hbc cid y Hy) as (z & Hz & Htz); [congruence.. |].
  exists z. split; [exact Hz | congruence].
Qed.

Lemma titles_kept_same (w w' : World) :
  conversations w' = conversations w -> titles_kept w w'.
Proof. intros He cid c Hc _ _. exists c. rewrite He. auto. Qed.

Lemma titles_kept_insert (w w' : World) (cid : string) (c c' : Conversation) :
  conversations w !! cid = Some c ->
  conversations w' = <[cid := c']> (conversations w) ->
  (c_title c <> EmptyString -> c_title c <> "New Conversation" -> c_title c' = c_title c) ->
  titles_kept w w'.
Proof.
  intros Hc Hw Ht cid0 c0 Hc0 He Hn. rewrite Hw.
  destruct (decide (cid0 = cid)) as [-> | Hne].
  - rewrite lookup_insert_eq. exists c'. split; [reflexivity |].
    assert (c0 = c) as -> by congruence. apply Ht; assumption.
  - rewrite lookup_insert_ne by congruence. exists c0. auto.
Qed.

Lemma touch_title `{H : Host} role content now c :
  c_title c <> EmptyString -> c_title c <> "New Conversation" ->
  c_title (touch role content now c) = c_title c.
Proof.
  intros He Hn. unfold touch. destruct content; try reflexivity.
  destruct (is_system role); [reflexivity |]. cbn.
  apply String.eqb_neq in He, Hn. rewrite He, Hn. reflexivity.
Qed.

Lemma addMessage_titles_kept `{H : Host} role content cid :
  keeps titles_kept (addMessage role content cid).
Proof.
  intros w. unfold addMessage.
  destruct (if truthy_id cid then cid else currentConversationId w) as [t |];
    [| apply titles_kept_refl].
  destruct (negb (truthy_id (Some t))); [apply titles_kept_refl |].
  destruct (conversations w !! t) as [c |] eqn:Hc; [| apply titles_kept_refl].
  destruct (nullish content); [apply titles_kept_refl |].
  cbn [fst]. eapply titles_kept_insert; [exact Hc | reflexivity |].
  intros He Hn. rewrite touch_title by assumption. reflexivity.
Qed.

Lemma pushMessage_titles_kept (cid : string) (m : Message) :
  keeps titles_kept (pushMessage cid m).
Proof.
  intros w. unfold pushMessage, modify. cbn [fst].
  destruct (conversations w !! cid) as [c |] eqn:Hc.
  - eapply titles_kept_insert; [exact Hc | cbn; rewrite Hc; reflexivity | reflexivity].
  - apply titles_kept_same. cbn. rewrite Hc. reflexivity.
Qed.

Lemma loop_titles_kept `{H : Host} (maxTurns : nat) (cid : string) :
  keeps titles_kept (loop maxTurns cid).
Proof.
  apply keeps_loop;
    first [ exact titles_kept_refl
          | exact titles_kept_trans
          | intros; apply addMessage_titles_kept
          | intros; apply pushMessage_titles_kept
          | intros ? ?; apply titles_kept_same; reflexivity ].
Qed.

Lemma agentLoop_titles_kept `{H : Host} (cid : string) : keeps titles_kept (agentLoop cid).
Proof.
  apply keeps_agentLoop;
    first [ exact titles_kept_refl
          | exact titles_kept_trans
          | intros; apply addMessage_titles_kept
          | intros; apply pushMessage_titles_kept
          | intros ? ?; apply titles_kept_same; reflexivity ].
Qed.

(** X16.  A title that has been set -- one that is neither empty nor the
    placeholder of a new conversation -- is never changed again: not by
    [addMessage], and not by the loop, whatever its turn budget and whether
    or not tools are dispatched. *)
Theorem X16_a_set_title_is_final `{H : Host}
    (role : Role) (content : jsval) (target : option string)
    (maxTurns : nat) (cid : string) (w : World) :
  titles_kept w (fst (addMessage role content target w)) /\
  titles_kept w (fst (loop maxTurns cid w)) /\
  titles_kept w (fst (agentLoop cid w)).
Proof.
  split; [apply addMessage_titles_kept |].
  split; [apply loop_titles_kept | apply agentLoop_titles_kept].
Qed.

Lemma substring_empty (n : nat) (s : string) :
  substring 0 (S n) s = EmptyString -> s = EmptyString.
Proof. destruct s; [reflexivity | discriminate]. Qed.

Lemma substring_length (n : nat) (s : string) :
  (String.length (substring 0 n s) <= n)%nat.
Proof.
  revert s. induction n as [| n IH]; intros [| c r]; cbn; try lia.
  specialize (IH r). lia.
Qed.

(** X17.  The first text that is not a system message names the
    conversation: added to a stored conversation whose title is empty or
    still the placeholder, a string under any role but [system] sets the
    title to its first 30 characters (to [Conversation] when it is empty)
    and the preview to its first 100; a system message, or a content that
    is not a string, leaves title, preview and modification time alone.
    (Characters are bytes here, as in [touch].) *)
Theorem X17_first_text_names_the_conversation `{H : Host}
    (role : Role) (content : jsval) (cid : string) (c : Conversation) (w : World) :
  cid <> EmptyString ->
  conversations w !! cid = Some c ->
  nullish content = false ->
  exists c',
    conversations (fst (addMessage role content (Some cid) w)) !! cid = Some c' /\
    match content with
    | JStr s =>
        if is_system role
        then c_title c' = c_title c /\ c_preview c' = c_preview c /\
             c_updatedAt c' = c_updatedAt c
        else c_preview c' = substring 0 100 s /\
             (String.length (c_preview c') <= 100)%nat /\
             ((c_title c = EmptyString \/ c_title c = "New Conversation") ->
              c_title c' = (if (s =? EmptyString)%string then "Conversation"
                            else substring 0 30 s) /\
              c_title c' <> EmptyString /\
              (String.length (c_title c') <= 30)%nat)
    | _ => c_title c' = c_title c /\ c_preview c' = c_preview c /\
           c_updatedAt c' = c_updatedAt c
    end.
Proof.
  intros Hcid Hc Hnn.
  assert (truthy_id (Some cid) = true) as Ht.
  { cbn. apply String.eqb_neq in Hcid. rewrite Hcid. reflexivity. }
  unfold addMessage. rewrite Ht. cbv beta iota zeta. rewrite Ht. cbn [negb].
  rewrite Hc, Hnn. cbn [fst].
  eexists. split; [unfold set_ticks, set_conversations; cbn [conversations];
                   apply lookup_insert_eq |].
  unfold touch. destruct content; try (repeat split; reflexivity).
  destruct (is_system role); [repeat split; reflexivity |]. cbn.
  split; [reflexivity |]. split; [apply substring_length |].
  intros Htitle.
  assert ((c_title c =? EmptyString)%string || (c_title c =? "New Conversation")%string = true)
    as ->.
  { destruct Htitle as [-> | ->]; reflexivity. }
  destruct (substring 0 30 s =? EmptyString)%string eqn:Hsub.
  - apply String.eqb_eq in Hsub. apply substring_empty in Hsub as ->.
    repeat split; [discriminate | cbn; lia].
  - assert ((s =? EmptyString)%string = false) as ->.
    { destruct s; [discriminate | reflexivity]. }
    repeat split; [apply String.eqb_neq; exact Hsub | apply substring_length].
Qed.

Lemma X17_witness :
  let w := Example.world (Example.llm (JStr "aipipe") JUndef) in
  let fresh :=
    {| c_id := "conv_2"; c_title := "New Conversation"; c_messages := [];
       c_createdAt := 1700000000000; c_updatedAt := 1700000000000; c_preview := "..." |} in
  let w0 := set_conversations (insert "conv_2" fresh) w in
  exists c',
    conversations (fst (@addMessage (Ref.host []) user
                          (JStr "What does IBM stand for, and when was it founded?")
                          (Some "conv_2") w0)) !! "conv_2" = Some c' /\
    c_title c' = "What does IBM stand for, and w".
Proof.
  intros w fresh w0.
  destruct (@X17_first_text_names_the_conversation (Ref.host []) user
              (JStr "What does IBM stand for, and when was it founded?")
              "conv_2" fresh w0)
    as (c' & Hc' & _ & _ & Htitle).
  - discriminate.
  - reflexivity.
  - reflexivity.
  - exists c'. split; [exact Hc' |].
    destruct Htitle as (Ht & _); [right; reflexivity | exact Ht].
Defined.

(** ** The tools *)

(** The state a tool invocation leaves: the log line, and nothing more. *)
Lemma executeTool_state `{H : Host} (tc : jsval) (n : string) (w : World) :
  named tc n ->
  fst (executeTool tc w)
  = fst (addMessage system (JStr ("Executing tool: " +:+ n)) (currentConversationId w) w).
Proof.
  intros Hnamed. destruct (named_object tc n Hnamed) as ([kvs ->] & _ & Hn).
  unfold executeTool, bind, lift, gets. rewrite Hn.
  cbn [getp nullish rret tpl ToString]. cbv beta match.
  pose proof (addMessage_returns system (JStr ("Executing tool: " +:+ n))
                (currentConversationId w) w) as Hr.
  destruct (addMessage _ _ _ w) as [w1 r]. cbn in Hr. subst r. cbn [fst].
  destruct (executor (JStr n)) as [run |]; [destruct (run _) |]; reflexivity.
Qed.

Lemma outline_app (cid : string) (w w' : World) (c : Conversation) (m : Message) :
  conversations w !! cid = Some c ->
  messagesOf cid w' = (c_messages c ++ [m])%list ->
  outline cid w' = (outline cid w ++ [(m_role m, m_content m)])%list.
Proof.
  intros Hc Hm. unfold outline. rewrite Hm. unfold messagesOf. rewrite Hc.
  rewrite List.map_app. reflexivity.
Qed.

(** The log line of a tool invocation, seen from the current conversation. *)
Lemma executeTool_logs `{H : Host} (tc : jsval) (n cur : string) (c : Conversation) (w : World) :
  named tc n ->
  currentConversationId w = Some cur -> cur <> EmptyString ->
  conversations w !! cur = Some c ->
  let w' := fst (executeTool tc w) in
  outline cur w' = (outline cur w ++ [(system, JStr ("Executing tool: " +:+ n))])%list /\
  (forall other, other <> cur -> conversations w' !! other = conversations w !! other) /\
  currentConversationId w' = Some cur /\
  (exists c', conversations w' !! cur = Some c').
Proof.
  intros Hnamed Hcur Hne Hc w'. subst w'.
  rewrite (executeTool_state tc n w Hnamed), Hcur.
  destruct (addMessage_appends system (JStr ("Executing tool: " +:+ n)) cur c w Hne Hc eq_refl)
    as (w1 & msg & Hadd & Hmsgs & Hrole & Hcontent & _ & Hothers & _ & _ & Hcur' & _).
  rewrite Hadd. cbn [fst].
  split; [| split; [exact Hothers | split; [congruence |]]].
  - rewrite (outline_app cur w w1 c msg Hc Hmsgs), Hrole, Hcontent. reflexivity.
  - unfold messagesOf in Hmsgs. destruct (conversations w1 !! cur) as [c' |]; [eauto |].
    destruct (c_messages c); discriminate.
Qed.

(** X18.  The log line of a tool invocation goes to the conversation that
    is current when the tool starts, which need not be the one the loop is
    working on; it is written before the executor runs, so it is there
    whether the executor returns or throws, and no other conversation is
    touched. *)
Theorem X18_tool_log_goes_to_the_current_conversation `{H : Host}
    (tc : jsval) (n cur : string) (c : Conversation) (w : World) :
  named tc n ->
  currentConversationId w = Some cur -> cur <> EmptyString ->
  conversations w !! cur = Some c ->
  outline cur (fst (executeTool tc w))
  = (outline cur w ++ [(system, JStr ("Executing tool: " +:+ n))])%list /\
  (forall other, other <> cur ->
     conversations (fst (executeTool tc w)) !! other = conversations w !! other).
Proof.
  intros Hnamed Hcur Hne Hc.
  destruct (executeTool_logs tc n cur c w Hnamed Hcur Hne Hc) as (Ho & Hothers & _).
  split; assumption.
Qed.

Lemma X18_witness :
  let w := Example.world (Example.llm (JStr "aipipe") (JStr "token")) in
  (exists e, snd (@executeTool (Ref.host []) Calls.search_null w) = inl e) /\
  outline "conv_1" (fst (@executeTool (Ref.host []) Calls.search_null w))
  = [(user, JStr "IBM"); (system, JStr "Executing tool: web_search")].
Proof.
  intros w. split; [eexists; vm_compute; reflexivity |].
  apply (@X18_tool_log_goes_to_the_current_conversation (Ref.host [])
           Calls.search_null "web_search" "conv_1" Example.conversation w).
  - split; [reflexivity | discriminate].
  - reflexivity.
  - discriminate.
  - reflexivity.
Defined.

Lemma startAll_logs `{H : Host} (tcs : list jsval) (ns : list string) (cur : string) :
  cur <> EmptyString ->
  Forall2 named tcs ns ->
  forall (w : World) (c : Conversation),
  currentConversationId w = Some cur ->
  conversations w !! cur = Some c ->
  outline cur (fst (startAll (List.map executeTool tcs) w))
  = (outline cur w
     ++ List.map (fun n => (system, JStr ("Executing tool: " +:+ n))) ns)%list.
Proof.
  intros Hne Hall. induction Hall as [| tc n tcs ns Hnamed _ IH]; intros w c Hcur Hc.
  - cbn. rewrite app_nil_r. reflexivity.
  - cbn [List.map startAll].
    destruct (executeTool_logs tc n cur c w Hnamed Hcur Hne Hc)
      as (Ho & _ & Hcur' & [c' Hc']).
    destruct (executeTool tc w) as [w1 a]. cbn [fst] in *.
    specialize (IH w1 c' Hcur' Hc').
    destruct (startAll (List.map executeTool tcs) w1) as [w2 rs]. cbn [fst] in *.
    rewrite IH, Ho, <- app_assoc. reflexivity.
Qed.

(** X19.  The dispatcher starts every invocation, in the order of the
    requests, whatever becomes of the others: each leaves its log line in
    the current conversation, also those that come after an invocation
    whose executor throws. *)
Theorem X19_every_invocation_is_started `{H : Host}
    (tcs : list jsval) (ns : list string) (cur : string) (c : Conversation) (w : World) :
  Forall2 named tcs ns ->
  currentConversationId w = Some cur -> cur <> EmptyString ->
  conversations w !! cur = Some c ->
  outline cur (fst (dispatchAll tcs w))
  = (outline cur w
     ++ List.map (fun n => (system, JStr ("Executing tool: " +:+ n))) ns)%list.
Proof.
  intros Hall Hcur Hne Hc. unfold dispatchAll, Promise_all.
  pose proof (startAll_logs tcs ns cur Hne Hall w c Hcur Hc) as Hlogs.
  destruct (startAll (List.map executeTool tcs) w) as [w' rs]. exact Hlogs.
Qed.

Lemma X19_witness :
  let w := Example.world (Example.llm (JStr "aipipe") (JStr "token")) in
  let tcs := [Calls.search_null; Calls.search_ibm; Calls.unknown_tool] in
  (exists e, snd (@dispatchAll (Ref.host []) tcs w) = inl e) /\
  outline "conv_1" (fst (@dispatchAll (Ref.host []) tcs w))
  = [(user, JStr "IBM");
     (system, JStr "Executing tool: web_search");
     (system, JStr "Executing tool: web_search");
     (system, JStr "Executing tool: get_weather")].
Proof.
  intros w tcs. split; [eexists; vm_compute; reflexivity |].
  apply (@X19_every_invocation_is_started (Ref.host []) tcs
           ["web_search"; "web_search"; "get_weather"] "conv_1" Example.conversation w).
  - repeat constructor; discriminate.
  - reflexivity.
  - discriminate.
  - reflexivity.
Defined.

(** X20.  The argument payload is read from the request itself, not from
    its [function] member: of [function] only the name is used.  A request
    that carries its arguments under [function.arguments] and none of its
    own runs its executor on an empty object. *)
Theorem X20_arguments_under_function_are_not_read `{H : Host}
    (tc : jsval) (n : string) (w : World) :
  named tc n ->
  truthy (prop tc "arguments") = false ->
  snd (executeTool tc w)
  = match executor (JStr n) with
    | Some run => run (JObj [])
    | None => inr (JObj [("error", JStr ("Unknown tool: " +:+ n))])
    end.
Proof.
  intros Hnamed Hargs. destruct (named_object tc n Hnamed) as (Hobj & _ & Hn).
  destruct (executeTool_returns tc n w Hobj Hn) as [w' ->]. cbn [snd].
  unfold parseToolArgs. rewrite Hargs. reflexivity.
Qed.

Lemma X20_witness :
  let w := Example.world (Example.llm (JStr "aipipe") (JStr "token")) in
  let tc := JObj [("id", JStr "call_1"); ("type", JStr "function");
                  ("function",
                   JObj [("name", JStr "web_search");
                         ("arguments",
                          JStr ("{" +:+ dquote +:+ "query" +:+ dquote +:+ ":"
                                +:+ dquote +:+ "IBM" +:+ dquote +:+ "}"))])] in
  snd (@executeTool (Ref.host []) tc w)
  = inr (JObj [("status", JStr "Simulated search for: undefined"); ("items", JArr [])]).
Proof.
  intros w tc.
  apply (@X20_arguments_under_function_are_not_read (Ref.host []) tc "web_search" w).
  - split; [reflexivity | discriminate].
  - reflexivity.
Defined.

(** ** The model picker *)

Lemma same_value_eq (a b : jsval) : same_value a b = true -> a = b.
Proof.
  destruct a, b; cbn; try discriminate; intros Hs; try reflexivity.
  - apply Bool.eqb_prop in Hs. congruence.
  - apply Z.eqb_eq in Hs. congruence.
  - apply String.eqb_eq in Hs. congruence.
Qed.

Lemma same_value_refl (a : jsval) : primitive a = true -> same_value a a = true.
Proof.
  destruct a; cbn; try discriminate; intros _; try reflexivity.
  - apply Bool.eqb_reflx.
  - apply Z.eqb_refl.
  - apply String.eqb_refl.
Qed.

Lemma includes_In (l : list jsval) (x : jsval) : includes l x = true -> In x l.
Proof.
  unfold includes. intros Hi. apply existsb_exists in Hi as (y & Hy & Hs).
  apply same_value_eq in Hs. congruence.
Qed.

Lemma In_includes (l : list jsval) (x : jsval) :
  primitive x = true -> In x l -> includes l x = true.
Proof.
  intros Hp Hin. unfold includes. apply existsb_exists. exists x.
  split; [exact Hin | apply same_value_refl; exact Hp].
Qed.

Lemma uniq_from_sub (l seen : list jsval) (x : jsval) :
  In x (uniq_from seen l) -> In x l /\ includes seen x = false.
Proof.
  revert seen. induction l as [| y r IH]; intros seen; cbn [uniq_from]; [intros [] |].
  destruct (includes seen y) eqn:Hy.
  - intros Hin. destruct (IH seen Hin). split; [right |]; assumption.
  - intros [<- | Hin]; [split; [left; reflexivity | exact Hy] |].
    destruct (IH (y :: seen) Hin) as [Hr Hs]. split; [right; exact Hr |].
    unfold includes in *. cbn [existsb] in Hs. apply orb_false_iff in Hs as [_ Hs]. exact Hs.
Qed.

Lemma uniq_from_keeps (l seen : list jsval) (x : jsval) :
  primitive x = true -> In x l -> includes seen x = true \/ In x (uniq_from seen l).
Proof.
  intros Hp. revert seen. induction l as [| y r IH]; intros seen; [intros [] |].
  cbn [uniq_from]. intros [-> | Hin].
  - destruct (includes seen x) eqn:Hx; [left; reflexivity | right; left; reflexivity].
  - destruct (includes seen y) eqn:Hy; [apply IH; exact Hin |].
    destruct (IH (y :: seen) Hin) as [Hs | Hr]; [| right; right; exact Hr].
    unfold includes in Hs. cbn [existsb] in Hs. apply orb_true_iff in Hs as [Hs | Hs].
    + apply same_value_eq in Hs as ->. right. left. reflexivity.
    + left. exact Hs.
Qed.

Lemma uniq_from_NoDup (l seen : list jsval) :
  List.NoDup (List.filter primitive (uniq_from seen l)).
Proof.
  revert seen. induction l as [| y r IH]; intros seen; cbn [uniq_from]; [constructor |].
  destruct (includes seen y); [apply IH |].
  cbn [List.filter]. destruct (primitive y) eqn:Hp; [| apply IH].
  constructor; [| apply IH].
  intros Hin. apply List.filter_In in Hin as [Hin _].
  apply uniq_from_sub in Hin as [_ Hs].
  unfold includes in Hs. cbn [existsb] in Hs.
  rewrite (same_value_refl y Hp) in Hs. discriminate.
Qed.

(** What [uniq] keeps: the truthy entries, each primitive value once. *)
Lemma uniq_spec (l : list jsval) :
  (forall x, In x (uniq l) -> In x l /\ truthy x = true) /\
  (forall x, primitive x = true -> truthy x = true -> In x l -> In x (uniq l)) /\
  List.NoDup (List.filter primitive (uniq l)).
Proof.
  unfold uniq. split; [| split].
  - intros x Hin. apply uniq_from_sub in Hin as [Hin _].
    apply List.filter_In in Hin. exact Hin.
  - intros x Hp Ht Hin.
    destruct (uniq_from_keeps (List.filter truthy l) [] x Hp) as [Hs | Hr];
      [apply List.filter_In; split; assumption | discriminate | exact Hr].
  - apply uniq_from_NoDup.
Qed.

(** One listing attempt never throws and issues at most one request. *)
Lemma listedModels_safe `{H : Host} (path : string) (pick : jsval -> res (list jsval))
    (token baseUrl : jsval) (w : World) :
  exists l, snd (listedModels path pick token baseUrl w) = inr l /\
    (fst (listedModels path pick token baseUrl w) = w \/
     exists rq, method rq = "GET" /\ fst (listedModels path pick token baseUrl w) = issued [rq] w).
Proof.
  remember (listedModels path pick token baseUrl w) as out eqn:Hout.
  unfold listedModels, try_catch, bind, lift, ret, rret, TypeError, rthrow in Hout.
  assert (forall l, out = (w, inr l) ->
            exists l', snd out = inr l' /\
              (fst out = w \/ exists rq, method rq = "GET" /\ fst out = issued [rq] w)) as Hquiet.
  { intros l ->. exists l. split; [reflexivity | left; reflexivity]. }
  assert (forall rq l, method rq = "GET" -> out = (issued [rq] w, inr l) ->
            exists l', snd out = inr l' /\
              (fst out = w \/ exists rq, method rq = "GET" /\ fst out = issued [rq] w)) as Hsent.
  { intros rq l Hm ->. exists l. split; [reflexivity | right; exists rq; split; [exact Hm | reflexivity]]. }
  destruct baseUrl as [| | | | b | |]; try (eapply Hquiet; exact Hout).
  destruct (tpl token) as [e | t]; [eapply Hquiet; exact Hout |].
  unfold fetch in Hout. fold (issued [modelsRequest (trimSlashes b) path t] w) in Hout.
  destruct (fetch_reply _ _) as [e | r]; [eapply Hsent; [| exact Hout]; reflexivity |].
  destruct (ok r); [| eapply Hsent; [| exact Hout]; reflexivity].
  destruct (json r) as [e | d]; [eapply Hsent; [| exact Hout]; reflexivity |].
  destruct (pick d) as [e | l]; eapply Hsent; try exact Hout; reflexivity.
Qed.

Lemma log_grows_refl (n : nat) (w : World) : log_grows n w w.
Proof. exists []. rewrite app_nil_r. split; [reflexivity | cbn; lia]. Qed.

Lemma log_grows_trans (n m : nat) (a b c : World) :
  log_grows n a b -> log_grows m b c -> log_grows (n + m) a c.
Proof.
  intros (l1 & H1 & Hn) (l2 & H2 & Hm). exists (l1 ++ l2)%list.
  rewrite H2, H1, app_assoc, length_app. split; [reflexivity | lia].
Qed.

Lemma listedModels_log `{H : Host} path pick token baseUrl (w : World) :
  log_grows 1 w (fst (listedModels path pick token baseUrl w)) /\
  same_but_requests w (fst (listedModels path pick token baseUrl w)).
Proof.
  destruct (listedModels_safe path pick token baseUrl w) as (l & _ & [-> | (rq & _ & ->)]).
  - split; [apply log_grows_refl | repeat split].
  - split; [apply log_grows_issued; cbn; lia | repeat split].
Qed.

Lemma curated_listed (l : list jsval) (m : jsval) :
  In m curatedModels -> In m (uniq (l ++ curatedModels)).
Proof.
  intros Hin. apply uniq_spec.
  - cbn in Hin. repeat destruct Hin as [<- | Hin]; try reflexivity. destruct Hin.
  - cbn in Hin. repeat destruct Hin as [<- | Hin]; try reflexivity. destruct Hin.
  - apply in_or_app. right. exact Hin.
Qed.

(** A call that misses the cache, step by step. *)
Lemma fetchAIpipeModels_miss `{H : Host} (token baseUrl : jsval) (sfx : string) (a : App) :
  let base := match baseUrl with JUndef => JStr "https://aipipe.org" | _ => baseUrl end in
  truthy token = true ->
  tpl base = inr sfx ->
  cache a !! ("models_aipipe_" +:+ sfx) = None ->
  exists l1 l2 w1 w2,
    listedModels "/openrouter/v1/models" pickOpenrouter token base (world a) = (w1, inr l1) /\
    listedModels "/openai/v1/models" pickOpenai token base w1 = (w2, inr l2) /\
    fetchAIpipeModels token baseUrl a
    = ({| world := w2; isProcessing := isProcessing a;
          cache := <["models_aipipe_" +:+ sfx := uniq ((l1 ++ l2) ++ curatedModels)]> (cache a) |},
       inr (uniq ((l1 ++ l2) ++ curatedModels))).
Proof.
  intros base Htoken Hsfx Hmiss.
  destruct (listedModels_safe "/openrouter/v1/models" pickOpenrouter token base (world a))
    as (l1 & Hl1 & _).
  destruct (listedModels "/openrouter/v1/models" pickOpenrouter token base (world a))
    as [w1 r1] eqn:H1. cbn [snd] in Hl1. subst r1.
  destruct (listedModels_safe "/openai/v1/models" pickOpenai token base w1) as (l2 & Hl2 & _).
  destruct (listedModels "/openai/v1/models" pickOpenai token base w1)
    as [w2 r2] eqn:H2. cbn [snd] in Hl2. subst r2.
  exists l1, l2, w1, w2. split; [reflexivity |]. split; [exact H2 |].
  revert H1. intros H1.
  unfold fetchAIpipeModels. fold base. rewrite Htoken. cbn [negb].
  unfold bindA at 1. unfold liftW at 1. unfold lift at 1. rewrite Hsfx.
  cbv beta iota. cbn [cache set_world]. rewrite Hmiss.
  unfold bindA at 1. unfold liftW at 1. cbn [world set_world]. rewrite H1.
  cbv beta iota.
  unfold bindA at 1. unfold liftW at 1. cbn [world set_world]. rewrite H2.
  cbv beta iota zeta.
  pose proof (curated_listed (l1 ++ l2) (JStr "openai/gpt-4o-mini") (or_introl eq_refl)) as Hin.
  destruct (uniq ((l1 ++ l2) ++ curatedModels)) as [| m0 ms]; [destruct Hin |].
  reflexivity.
Qed.

(** X21.  The model list.  Given a truthy token and a base URL that
    converts to text, a call that misses the cache never throws, whatever
    the two listing endpoints answer: it returns a list that holds every
    curated model, no falsy entry and no primitive value twice, stores it
    in the cache under the key of the base URL, and issues at most two
    requests; nothing else changes. *)
Theorem X21_model_list `{H : Host} (token baseUrl : jsval) (sfx : string) (a : App) :
  truthy token = true ->
  tpl (match baseUrl with JUndef => JStr "https://aipipe.org" | _ => baseUrl end) = inr sfx ->
  cache a !! ("models_aipipe_" +:+ sfx) = None ->
  exists a' models,
    fetchAIpipeModels token baseUrl a = (a', inr models) /\
    (forall m, In m curatedModels -> In m models) /\
    (forall m, In m models -> truthy m = true) /\
    List.NoDup (List.filter primitive models) /\
    cache a' = <["models_aipipe_" +:+ sfx := models]> (cache a) /\
    isProcessing a' = isProcessing a /\
    log_grows 2 (world a) (world a') /\
    same_but_requests (world a) (world a').
Proof.
  intros Htoken Hsfx Hmiss.
  destruct (fetchAIpipeModels_miss token baseUrl sfx a Htoken Hsfx Hmiss)
    as (l1 & l2 & w1 & w2 & H1 & H2 & ->).
  eexists. eexists. split; [reflexivity |].
  split; [intros m; apply curated_listed |].
  destruct (uniq_spec ((l1 ++ l2) ++ curatedModels)) as (Hsub & _ & Hnodup).
  split; [intros m Hin; apply Hsub; exact Hin |].
  split; [exact Hnodup |].
  split; [reflexivity |]. split; [reflexivity |]. cbn [world].
  destruct (listedModels_log "/openrouter/v1/models" pickOpenrouter token
              (match baseUrl with JUndef => JStr "https://aipipe.org" | _ => baseUrl end)
              (world a)) as [Hg1 Hs1].
  destruct (listedModels_log "/openai/v1/models" pickOpenai token
              (match baseUrl with JUndef => JStr "https://aipipe.org" | _ => baseUrl end)
              w1) as [Hg2 Hs2].
  rewrite H1 in Hg1, Hs1. rewrite H2 in Hg2, Hs2. cbn [fst] in *.
  split; [exact (log_grows_trans 1 1 _ _ _ Hg1 Hg2) |].
  unfold same_but_requests in *.
  destruct Hs1 as (? & ? & ? & ? & ? & ?), Hs2 as (? & ? & ? & ? & ? & ?).
  repeat split; congruence.
Qed.

Lemma X21_witness :
  let host := Ref.host
    [Example.reply 200 "OK"
       (JObj [("models", JArr [JObj [("name", JStr "openai/gpt-4o"); ("id", JStr "m1")];
                               JObj [("id", JStr "anthropic/claude-3-haiku")]])]);
     Example.reply 401 "Unauthorized" (JObj [])] in
  let a := {| world := Example.world (Example.llm (JStr "aipipe") (JStr "token"));
              isProcessing := false; cache := ∅ |} in
  exists a' models,
    @fetchAIpipeModels host (JStr "token") JUndef a = (a', inr models) /\
    models = [JStr "openai/gpt-4o"; JStr "anthropic/claude-3-haiku"; JStr "openai/gpt-4o-mini";
              JStr "openai/gpt-4.1"; JStr "openai/gpt-3.5-turbo"] /\
    cache a' !! "models_aipipe_https://aipipe.org" = Some models /\
    log_grows 2 (world a) (world a').
Proof.
  intros host a.
  destruct (@X21_model_list host (JStr "token") JUndef "https://aipipe.org" a)
    as (a' & models & Hfetch & _ & _ & _ & Hcache & _ & Hlog & _).
  - reflexivity.
  - reflexivity.
  - reflexivity.
  - exists a', models. split; [exact Hfetch |].
    split; [| split; [rewrite Hcache; apply lookup_insert_eq | exact Hlog]].
    assert (snd (@fetchAIpipeModels host (JStr "token") JUndef a)
            = inr [JStr "openai/gpt-4o"; JStr "anthropic/claude-3-haiku";
                   JStr "openai/gpt-4o-mini"; JStr "openai/gpt-4.1";
                   JStr "openai/gpt-3.5-turbo"]) as Hlist by (vm_compute; reflexivity).
    rewrite Hfetch in Hlist. cbn [snd] in Hlist. congruence.
Defined.

(** The cache is consulted before anything else is done. *)
Lemma fetchAIpipeModels_hit `{H : Host} (token baseUrl : jsval) (sfx : string) (a : App)
    (models : list jsval) :
  truthy token = true ->
  tpl (match baseUrl with JUndef => JStr "https://aipipe.org" | _ => baseUrl end) = inr sfx ->
  cache a !! ("models_aipipe_" +:+ sfx) = Some models ->
  fetchAIpipeModels token baseUrl a
  = ({| world := world a; isProcessing := isProcessing a; cache := cache a |}, inr models).
Proof.
  intros Htoken Hsfx Hhit.
  unfold fetchAIpipeModels. rewrite Htoken. cbn [negb].
  unfold bindA at 1. unfold liftW at 1. unfold lift at 1. rewrite Hsfx.
  cbv beta iota. cbn [cache set_world]. rewrite Hhit. reflexivity.
Qed.

Lemma app_eta (a : App) :
  {| world := world a; isProcessing := isProcessing a; cache := cache a |} = a.
Proof. destruct a; reflexivity. Qed.

(** X22.  The list is fetched once per base URL: the cache key does not
    depend on the token, so once a call has returned for a base URL, a
    later call for it -- with the same or any other truthy token -- returns
    the same list without a request and without changing anything. *)
Theorem X22_model_list_is_cached_per_base_url `{H : Host}
    (token token' baseUrl : jsval) (a a1 : App) (models : list jsval) :
  truthy token' = true ->
  fetchAIpipeModels token baseUrl a = (a1, inr models) ->
  fetchAIpipeModels token' baseUrl a1 = (a1, inr models).
Proof.
  intros Htoken' Hfirst.
  destruct (truthy token) eqn:Htoken;
    [| unfold fetchAIpipeModels in Hfirst; rewrite Htoken in Hfirst; discriminate].
  destruct (tpl (match baseUrl with JUndef => JStr "https://aipipe.org" | _ => baseUrl end))
    as [e | sfx] eqn:Hsfx.
  { unfold fetchAIpipeModels in Hfirst. rewrite Htoken in Hfirst. cbn [negb] in Hfirst.
    unfold bindA at 1, liftW at 1, lift at 1 in Hfirst. rewrite Hsfx in Hfirst.
    discriminate. }
  assert (cache a1 !! ("models_aipipe_" +:+ sfx) = Some models) as Hcached.
  { destruct (cache a !! ("models_aipipe_" +:+ sfx)) as [cached |] eqn:Hc.
    - rewrite (fetchAIpipeModels_hit token baseUrl sfx a cached Htoken Hsfx Hc) in Hfirst.
      injection Hfirst as <- <-. exact Hc.
    - destruct (fetchAIpipeModels_miss token baseUrl sfx a Htoken Hsfx Hc)
        as (l1 & l2 & w1 & w2 & _ & _ & Hmiss).
      rewrite Hmiss in Hfirst. injection Hfirst as <- <-. apply lookup_insert_eq. }
  rewrite (fetchAIpipeModels_hit token' baseUrl sfx a1 models Htoken' Hsfx Hcached), app_eta.
  reflexivity.
Qed.

Lemma X22_witness :
  let host := Ref.host [] in
  let a := {| world := Example.world (Example.llm (JStr "aipipe") (JStr "token"));
              isProcessing := false; cache := ∅ |} in
  let a1 := fst (@fetchAIpipeModels host (JStr "token") (JStr "https://aipipe.org/") a) in
  @fetchAIpipeModels host (JStr "another token") (JStr "https://aipipe.org/") a1
  = (a1, inr curatedModels).
Proof.
  intros host a a1.
  apply (@X22_model_list_is_cached_per_base_url host (JStr "token") (JStr "another token")
           (JStr "https://aipipe.org/") a a1 curatedModels).
  - reflexivity.
  - vm_compute. reflexivity.
Defined.

(** X23.  What the model list can fail with: a falsy token, or a base URL
    that has no text form -- both before any request, and leaving the
    state as it was.  Failures of the network, rejected requests and
    payloads of any shape never surface, and the error for an empty list is
    never raised, the curated models being always there. *)
Theorem X23_model_list_failures `{H : Host} (token baseUrl : jsval) (a a' : App) (e : exn) :
  fetchAIpipeModels token baseUrl a = (a', inl e) ->
  world a' = world a /\ cache a' = cache a /\ isProcessing a' = isProcessing a /\
  ((truthy token = false /\ e = Error "AI Pipe token required") \/
   (truthy token = true /\
    tpl (match baseUrl with JUndef => JStr "https://aipipe.org" | _ => baseUrl end) = inl e)).
Proof.
  intros Hfail.
  destruct (truthy token) eqn:Htoken.
  - destruct (tpl (match baseUrl with JUndef => JStr "https://aipipe.org" | _ => baseUrl end))
      as [e' | sfx] eqn:Hsfx.
    + unfold fetchAIpipeModels in Hfail. rewrite Htoken in Hfail. cbn [negb] in Hfail.
      unfold bindA at 1, liftW at 1, lift at 1 in Hfail. rewrite Hsfx in Hfail.
      injection Hfail as <- <-. repeat split; try reflexivity. right. split; reflexivity.
    + destruct (cache a !! ("models_aipipe_" +:+ sfx)) as [cached |] eqn:Hc.
      * rewrite (fetchAIpipeModels_hit token baseUrl sfx a cached Htoken Hsfx Hc) in Hfail.
        discriminate.
      * destruct (fetchAIpipeModels_miss token baseUrl sfx a Htoken Hsfx Hc)
          as (l1 & l2 & w1 & w2 & _ & _ & Hmiss).
        rewrite Hmiss in Hfail. discriminate.
  - unfold fetchAIpipeModels in Hfail. rewrite Htoken in Hfail. cbn [negb] in Hfail.
    injection Hfail as <- <-. repeat split; try reflexivity. left. split; reflexivity.
Qed.

Lemma X23_witness :
  let a := {| world := Example.world (Example.llm (JStr "aipipe") JUndef);
              isProcessing := false; cache := ∅ |} in
  exists e,
    @fetchAIpipeModels (Ref.host []) (JStr EmptyString) (JStr "https://aipipe.org") a
    = (a, inl e) /\
    e = Error "AI Pipe token required".
Proof.
  intros a. exists (Error "AI Pipe token required"). split; [reflexivity |].
  destruct (@X23_model_list_failures (Ref.host []) (JStr EmptyString)
              (JStr "https://aipipe.org") a a (Error "AI Pipe token required") eq_refl)
    as (_ & _ & _ & [[_ He] | [Ht _]]); [exact He | discriminate Ht].
Defined.

Lemma same_but_requests_refl (w : World) : same_but_requests w w.
Proof. repeat split. Qed.

(** What a call for the model list does to the application, whatever its
    outcome. *)
Lemma fetchAIpipeModels_effect `{H : Host} (token baseUrl : jsval) (a : App) :
  isProcessing (fst (fetchAIpipeModels token baseUrl a)) = isProcessing a /\
  log_grows 2 (world a) (world (fst (fetchAIpipeModels token baseUrl a))) /\
  same_but_requests (world a) (world (fst (fetchAIpipeModels token baseUrl a))) /\
  match snd (fetchAIpipeModels token baseUrl a) with
  | inl _ => world (fst (fetchAIpipeModels token baseUrl a)) = world a /\
             cache (fst (fetchAIpipeModels token baseUrl a)) = cache a
  | inr models => exists key, cache (fst (fetchAIpipeModels token baseUrl a)) !! key = Some models
  end.
Proof.
  destruct (truthy token) eqn:Htoken.
  - destruct (tpl (match baseUrl with JUndef => JStr "https://aipipe.org" | _ => baseUrl end))
      as [e' | sfx] eqn:Hsfx.
    + assert (fetchAIpipeModels token baseUrl a = (set_world (fun _ => world a) a, inl e'))
        as ->.
      { unfold fetchAIpipeModels. rewrite Htoken. cbn [negb].
        unfold bindA at 1, liftW at 1, lift at 1. rewrite Hsfx. reflexivity. }
      cbn. repeat split; try reflexivity. apply log_grows_refl.
    + destruct (cache a !! ("models_aipipe_" +:+ sfx)) as [cached |] eqn:Hc.
      * rewrite (fetchAIpipeModels_hit token baseUrl sfx a cached Htoken Hsfx Hc).
        cbn. repeat split; try reflexivity; [apply log_grows_refl | eauto].
      * destruct (fetchAIpipeModels_miss token baseUrl sfx a Htoken Hsfx Hc)
          as (l1 & l2 & w1 & w2 & H1 & H2 & ->).
        cbn [fst snd world cache isProcessing].
        destruct (listedModels_log "/openrouter/v1/models" pickOpenrouter token
                    (match baseUrl with JUndef => JStr "https://aipipe.org" | _ => baseUrl end)
                    (world a)) as [Hg1 Hs1].
        destruct (listedModels_log "/openai/v1/models" pickOpenai token
                    (match baseUrl with JUndef => JStr "https://aipipe.org" | _ => baseUrl end)
                    w1) as [Hg2 Hs2].
        rewrite H1 in Hg1, Hs1. rewrite H2 in Hg2, Hs2. cbn [fst] in *.
        split; [reflexivity |].
        split; [exact (log_grows_trans 1 1 _ _ _ Hg1 Hg2) |].
        split; [| eexists; apply lookup_insert_eq].
        unfold same_but_requests in *.
        destruct Hs1 as (? & ? & ? & ? & ? & ?), Hs2 as (? & ? & ? & ? & ? & ?).
        repeat split; congruence.
  - assert (fetchAIpipeModels token baseUrl a = (a, inl (Error "AI Pipe token required")))
      as ->.
    { unfold fetchAIpipeModels. rewrite Htoken. reflexivity. }
    cbn. repeat split; try reflexivity. apply log_grows_refl.
Qed.

(** X24.  The model picker never throws.  It may issue the two listing
    requests and replace the [model] setting, and touches nothing else of
    the state -- the key typed into the form is used for listing and not
    stored.  Afterwards the model setting is the one before, or else it is
    the first entry of a cached list that did not hold the one before.
    Without the select element, or with an empty key field, the state is
    left as it was. *)
Theorem X24_model_picker `{H : Host} (modelSelect : bool) (apiKeyValue : option string)
    (a : App) :
  exists a',
    updateModelOptions modelSelect apiKeyValue a = (a', inr tt) /\
    isProcessing a' = isProcessing a /\
    conversations (world a') = conversations (world a) /\
    currentConversationId (world a') = currentConversationId (world a) /\
    apiCalls (world a') = apiCalls (world a) /\
    with_model (model (settings_llm (world a))) (settings_llm (world a'))
    = with_model (model (settings_llm (world a))) (settings_llm (world a)) /\
    log_grows 2 (world a) (world a') /\
    (model (settings_llm (world a')) = model (settings_llm (world a)) \/
     exists key m0 ms,
       cache a' !! key = Some (m0 :: ms) /\
       model (settings_llm (world a')) = m0 /\
       includes (m0 :: ms) (model (settings_llm (world a))) = false) /\
    (modelSelect = false \/ default EmptyString apiKeyValue = EmptyString ->
     world a' = world a /\ cache a' = cache a).
Proof.
  unfold updateModelOptions. destruct modelSelect; cbn [negb].
  2: { exists a. split; [reflexivity |].
       repeat split; first [reflexivity | apply log_grows_refl | left; reflexivity]. }
  unfold try_catchA. unfold bindA at 1. unfold liftW at 1. unfold gets at 1.
  cbv beta iota.
  set (a0 := set_world (fun _ => world a) a).
  set (token := JStr (default EmptyString apiKeyValue)).
  set (base := jor (baseUrl (settings_llm (world a))) (JStr "https://aipipe.org")).
  unfold bindA at 1.
  destruct (fetchAIpipeModels_effect token base a0) as (Hproc & Hlog & Hsame & Hout).
  destruct (fetchAIpipeModels token base a0) as [a1 [e | models]] eqn:Hfetch;
    cbn [fst snd] in *.
  - destruct Hout as [Hw Hcache].
    exists a1. split; [reflexivity |]. rewrite Hw. cbn.
    repeat split;
      first [assumption | reflexivity | apply log_grows_refl | left; reflexivity].
  - assert (default EmptyString apiKeyValue <> EmptyString) as Hkey.
    { intros Hempty. unfold token in Hfetch. rewrite Hempty in Hfetch.
      unfold fetchAIpipeModels in Hfetch. cbn [truthy String.eqb negb] in Hfetch.
      discriminate. }
    destruct Hsame as (Hcs & Hcur & Hset & Hapi & _). cbn [world a0 set_world] in *.
    destruct models as [| m0 ms].
    + exists a1. split; [reflexivity |]. rewrite Hset.
      repeat split;
        first [assumption | reflexivity | left; reflexivity
              | match goal with
                | Hor : _ \/ _ |- _ => destruct Hor; [discriminate | contradiction]
                end].
    + unfold bindA at 1. unfold liftW at 1. unfold lift at 1.
      destruct (rmap tpl (m0 :: ms)) as [e | texts]; cbv beta iota.
      { eexists. split; [reflexivity |]. cbn. rewrite Hset.
        repeat split;
          first [assumption | reflexivity | left; reflexivity
                | match goal with
                  | Hor : _ \/ _ |- _ => destruct Hor; [discriminate | contradiction]
                  end]. }
      unfold bindA at 1. unfold liftW at 1. unfold gets at 1. cbv beta iota.
      cbn [world set_world]. rewrite Hset.
      destruct (includes (m0 :: ms) (model (settings_llm (world a)))) eqn:Hinc.
      * eexists. split; [reflexivity |]. cbn. rewrite Hset.
        repeat split;
          first [assumption | reflexivity | left; reflexivity
                | match goal with
                | Hor : _ \/ _ |- _ => destruct Hor; [discriminate | contradiction]
                end].
      * eexists. split; [reflexivity |]. cbn. rewrite Hset.
        destruct Hout as [key Hcached].
        repeat split;
          first [assumption | reflexivity
                | right; exists key, m0, ms; repeat split; assumption
                | match goal with
                | Hor : _ \/ _ |- _ => destruct Hor; [discriminate | contradiction]
                end].
Qed.

(** ** Conversations *)

Lemma conv_id_set (s : string) : "conv_" +:+ s <> EmptyString.
Proof. rewrite append_cons. discriminate. Qed.

(** The conversation as [addMessage] stores it. *)
Lemma addMessage_stored `{H : Host} (role : Role) (content : jsval) (cid : string)
    (c : Conversation) (w : World) :
  cid <> EmptyString -> conversations w !! cid = Some c -> nullish content = false ->
  exists msg,
    m_role msg = role /\ m_content msg = content /\
    conversations (fst (addMessage role content (Some cid) w)) !! cid
    = Some (touch role content (Date_now (S (S (ticks w)))) (push msg c)) /\
    currentConversationId (fst (addMessage role content (Some cid) w))
    = currentConversationId w.
Proof.
  intros Hcid Hc Hnn.
  pose proof (truthy_id_Some cid Hcid) as Ht.
  unfold addMessage. rewrite Ht. cbv beta iota zeta. rewrite Ht. cbn [negb].
  rewrite Hc, Hnn. cbn [fst].
  eexists. split; [| split; [| split; [unfold set_ticks, set_conversations;
                                        cbn [conversations]; apply lookup_insert_eq |]]];
    reflexivity.
Qed.

(** Without a target, [addMessage] is [addMessage] on the current
    conversation. *)
Lemma addMessage_current `{H : Host} (role : Role) (content : jsval) (w : World) :
  addMessage role content None w = addMessage role content (currentConversationId w) w.
Proof.
  unfold addMessage. change (truthy_id None) with false. cbv beta iota zeta.
  destruct (truthy_id (currentConversationId w)) eqn:Ht; cbv iota; rewrite ?Ht; reflexivity.
Qed.

Lemma showWelcomeMessage_cases `{H : Host} (w : World) :
  showWelcomeMessage w = (w, inr tt) \/
  exists cid c' m,
    snd (showWelcomeMessage w) = inr tt /\
    currentConversationId (fst (showWelcomeMessage w)) = Some cid /\
    conversations (fst (showWelcomeMessage w)) !! cid = Some c' /\
    c_messages c' = [m].
Proof.
  remember (showWelcomeMessage w) as out eqn:Hout. unfold showWelcomeMessage in Hout.
  destruct (currentConversationId w) as [cid |] eqn:Hcur; [| left; exact Hout].
  destruct (conversations w !! cid) as [conv |] eqn:Hc; [| left; exact Hout].
  destruct (c_messages conv) as [| m0 ms] eqn:Hm; [| left; exact Hout].
  destruct (String.eqb_spec cid EmptyString) as [-> | Hne].
  - left. rewrite Hout. unfold addMessage. rewrite Hcur. reflexivity.
  - right.
    assert (out = addMessage assistant (JStr welcomeText) (Some cid) w) as ->.
    { rewrite Hout, addMessage_current, Hcur. reflexivity. }
    destruct (addMessage_stored assistant (JStr welcomeText) cid conv w Hne Hc eq_refl)
      as (msg & _ & _ & Hstored & Hcur').
    exists cid. eexists. exists msg.
    split; [apply addMessage_returns |].
    split; [rewrite Hcur'; exact Hcur |].
    split; [exact Hstored |].
    rewrite touch_messages. cbn [push c_messages]. rewrite Hm. reflexivity.
Qed.

(** X25.  The welcome message is shown at most once: [showWelcomeMessage]
    never throws, and run again right after itself it changes nothing. *)
Theorem X25_welcome_is_shown_once `{H : Host} (w : World) :
  snd (showWelcomeMessage w) = inr tt /\
  showWelcomeMessage (fst (showWelcomeMessage w)) = (fst (showWelcomeMessage w), inr tt).
Proof.
  destruct (showWelcomeMessage_cases w) as [Hsame | (cid & c' & m & Hret & Hcur & Hc & Hm)].
  - rewrite Hsame. cbn [fst snd]. split; [reflexivity | exact Hsame].
  - split; [exact Hret |].
    destruct (showWelcomeMessage w) as [w' r]. cbn [fst snd] in *.
    unfold showWelcomeMessage. rewrite Hcur, Hc, Hm. reflexivity.
Qed.

(** X26.  A fresh start: [createNewConversation] followed by
    [showWelcomeMessage] leaves a current conversation named after the
    clock, holding the welcome message alone and titled with the first 30
    characters of the welcome text.  Whatever was stored under that
    identifier is replaced; the other conversations are untouched. *)
Theorem X26_fresh_start `{H : Host} (w : World) :
  let id := "conv_" +:+ pretty (Date_now (ticks w)) in
  let w' := fst (showWelcomeMessage (fst (createNewConversation w))) in
  snd (createNewConversation w) = inr id /\
  currentConversationId w' = Some id /\
  (forall other, other <> id -> conversations w' !! other = conversations w !! other) /\
  outline id w' = [(assistant, JStr welcomeText)] /\
  exists c, conversations w' !! id = Some c /\
            c_title c = "Welcome to **Querya** (AI Pipe".
Proof.
  intros id w'.
  assert (truthy_id (Some id) = true) as Ht by (apply truthy_id_Some, conv_id_set).
  assert (createNewConversation w
          = (set_currentConversationId (fun _ => Some id)
               (set_ticks (fun _ => S (S (S (ticks w))))
                  (set_conversations
                     (insert id {| c_id := id; c_title := "New Conversation";
                                   c_messages := []; c_createdAt := Date_now (S (ticks w));
                                   c_updatedAt := Date_now (S (S (ticks w)));
                                   c_preview := "..." |}) w)),
             inr id)) as Hnew.
  { unfold createNewConversation, loadConversation. fold id. rewrite Ht. reflexivity. }
  split; [rewrite Hnew; reflexivity |].
  subst w'. rewrite Hnew. cbn [fst].
  set (fresh := {| c_id := id; c_title := "New Conversation"; c_messages := [];
                   c_createdAt := Date_now (S (ticks w));
                   c_updatedAt := Date_now (S (S (ticks w))); c_preview := "..." |}).
  set (w1 := set_currentConversationId _ _).
  assert (conversations w1 !! id = Some fresh) as Hfresh by apply lookup_insert_eq.
  assert (showWelcomeMessage w1 = addMessage assistant (JStr welcomeText) (Some id) w1) as ->.
  { unfold showWelcomeMessage.
    change (currentConversationId w1) with (Some id). cbv beta iota.
    rewrite Hfresh. cbn [c_messages fresh].
    rewrite addMessage_current. reflexivity. }
  destruct (addMessage_appends assistant (JStr welcomeText) id fresh w1
              (conv_id_set _) Hfresh eq_refl)
    as (w2 & msg & Hadd & Hmsgs & Hrole & Hcontent & _ & Hothers & _ & _ & Hcur & _).
  destruct (addMessage_stored assistant (JStr welcomeText) id fresh w1
              (conv_id_set _) Hfresh eq_refl)
    as (msg' & _ & _ & Hstored & _).
  rewrite Hadd in *. cbn [fst] in *.
  split; [rewrite Hcur; reflexivity |].
  split; [intros other Hne; rewrite (Hothers other Hne);
          unfold w1, set_currentConversationId, set_ticks, set_conversations;
          cbn [conversations]; apply lookup_insert_ne; congruence |].
  split; [rewrite (outline_app id w1 w2 fresh msg Hfresh Hmsgs), Hrole, Hcontent;
          unfold outline, messagesOf; rewrite Hfresh; reflexivity |].
  eexists. split; [exact Hstored | reflexivity].
Qed.

(** X27.  Clearing needs the confirmation: declined, it changes nothing.
    Confirmed, on a stored current conversation, it empties the messages of
    that conversation and of no other, sets the preview to [Cleared], and
    keeps title, identifier and the choice of the current conversation; the
    welcome message, shown again, is then the only message. *)
Theorem X27_clearing `{H : Host} (confirmed : bool) (cur : string) (c : Conversation)
    (w : World) :
  currentConversationId w = Some cur -> cur <> EmptyString ->
  conversations w !! cur = Some c ->
  let w' := fst (clearConversationMessages confirmed w) in
  snd (clearConversationMessages confirmed w) = inr tt /\
  if confirmed
  then
    (exists c', conversations w' !! cur = Some c' /\
                c_messages c' = [] /\ c_preview c' = "Cleared" /\
                c_title c' = c_title c /\ c_id c' = c_id c /\
                c_createdAt c' = c_createdAt c) /\
    (forall other, other <> cur -> conversations w' !! other = conversations w !! other) /\
    same_settings w w' /\
    outline cur (fst (showWelcomeMessage w')) = [(assistant, JStr welcomeText)]
  else w' = w.
Proof.
  intros Hcur Hne Hc w'.
  pose proof (truthy_id_Some cur Hne) as Ht.
  set (cleared := {| c_id := c_id c; c_title := c_title c; c_messages := [];
                     c_createdAt := c_createdAt c; c_updatedAt := Date_now (ticks w);
                     c_preview := "Cleared" |}).
  assert (clearConversationMessages confirmed w
          = if confirmed
            then (set_currentConversationId (fun _ => Some cur)
                    (set_ticks S (set_conversations (insert cur cleared) w)), inr tt)
            else (w, inr tt)) as Hclear.
  { unfold clearConversationMessages. rewrite Hcur, Ht. cbn [negb].
    destruct confirmed; cbn [negb]; [| reflexivity].
    rewrite Hc. unfold loadConversation. rewrite Ht. reflexivity. }
  subst w'. rewrite Hclear. destruct confirmed; cbn [fst snd]; [| split; reflexivity].
  split; [reflexivity |].
  set (w1 := set_currentConversationId _ _).
  assert (conversations w1 !! cur = Some cleared) as Hcleared by apply lookup_insert_eq.
  split; [exists cleared; split; [exact Hcleared | repeat split] |].
  split; [intros other Hother; unfold w1, set_currentConversationId, set_ticks,
            set_conversations; cbn [conversations]; apply lookup_insert_ne; congruence |].
  split; [split; [reflexivity | cbn; congruence] |].
  assert (showWelcomeMessage w1 = addMessage assistant (JStr welcomeText) (Some cur) w1) as ->.
  { unfold showWelcomeMessage.
    change (currentConversationId w1) with (Some cur). cbv beta iota.
    rewrite Hcleared. cbn [c_messages cleared].
    rewrite addMessage_current. reflexivity. }
  destruct (addMessage_appends assistant (JStr welcomeText) cur cleared w1 Hne Hcleared eq_refl)
    as (w2 & msg & Hadd & Hmsgs & Hrole & Hcontent & _).
  rewrite Hadd. cbn [fst].
  rewrite (outline_app cur w1 w2 cleared msg Hcleared Hmsgs), Hrole, Hcontent.
  unfold outline, messagesOf. rewrite Hcleared. reflexivity.
Qed.

Lemma X27_witness :
  let w := Example.world (Example.llm (JStr "aipipe") (JStr "token")) in
  let w' := fst (@clearConversationMessages (Ref.host []) true w) in
  messagesOf "conv_1" w' = [] /\
  outline "conv_1" (fst (@showWelcomeMessage (Ref.host []) w')) = [(assistant, JStr welcomeText)].
Proof.
  intros w w'.
  destruct (@X27_clearing (Ref.host []) true "conv_1" Example.conversation w
              eq_refl ltac:(discriminate) eq_refl)
    as (_ & (c' & Hc' & Hm & _) & _ & _ & Hwelcome).
  split; [| exact Hwelcome].
  unfold messagesOf, w'. rewrite Hc'. exact Hm.
Defined.

(** ** Sending a message *)

Lemma agentLoop_returns `{H : Host} (cid : string) (w : World) :
  snd (agentLoop cid w) = inr tt.
Proof.
  rewrite agentLoop_eq. destruct (conversations w !! cid); [| reflexivity].
  destruct (loop_bounded 5 cid w) as (w' & -> & _). reflexivity.
Qed.


Lemma createNewConversation_eq `{H : Host} (w : World) :
  createNewConversation w
  = (set_currentConversationId (fun _ => Some ("conv_" +:+ pretty (Date_now (ticks w))))
       (set_ticks (fun _ => S (S (S (ticks w))))
          (set_conversations
             (insert ("conv_" +:+ pretty (Date_now (ticks w)))
                {| c_id := "conv_" +:+ pretty (Date_now (ticks w));
                   c_title := "New Conversation"; c_messages := [];
                   c_createdAt := Date_now (S (ticks w));
                   c_updatedAt := Date_now (S (S (ticks w))); c_preview := "..." |}) w)),
     inr ("conv_" +:+ pretty (Date_now (ticks w)))).
Proof.
  unfold createNewConversation, loadConversation.
  rewrite (truthy_id_Some _ (conv_id_set (pretty (Date_now (ticks w))))). reflexivity.
Qed.

(** The steps of [sendMessage] on the state, once the guard has let the
    message through: the notice of demo mode, the choice of the
    conversation, the user's message, the loop. *)
Lemma sendMessage_runs `{H : Host} (trim : string -> string) (v : string) (a : App) :
  trim v <> EmptyString -> isProcessing a = false ->
  keyTested (settings_llm (world a)) = inr tt ->
  exists w1 w2 convId,
    w1 = (if negb (truthy (apiKey (settings_llm (world a))))
          then fst (addMessage assistant (JStr demoNotice) None (world a))
          else world a) /\
    (w2, convId) = match currentConversationId w1 with
                   | Some c =>
                       if truthy_id (Some c) then (w1, c)
                       else (fst (createNewConversation w1),
                             "conv_" +:+ pretty (Date_now (ticks w1)))
                   | None => (fst (createNewConversation w1),
                              "conv_" +:+ pretty (Date_now (ticks w1)))
                   end /\
    sendMessage trim (Some v) a
    = ({| world := fst (agentLoop convId
                          (fst (addMessage user (JStr (trim v)) (Some convId) w2)));
          isProcessing := false; cache := cache a |}, inr tt).
Proof.
  intros Hinput Hidle Hkey.
  set (w1 := if negb (truthy (apiKey (settings_llm (world a))))
             then fst (addMessage assistant (JStr demoNotice) None (world a))
             else world a).
  assert ((if negb (truthy (apiKey (settings_llm (world a))))
           then addMessage assistant (JStr demoNotice) None
           else ret tt) (world a) = (w1, inr tt)) as Hstep1.
  { unfold w1. destruct (negb _); [| reflexivity].
    pose proof (addMessage_returns assistant (JStr demoNotice) None (world a)) as Hr.
    destruct (addMessage _ _ _ _) as [w r]. cbn in Hr. subst r. reflexivity. }
  assert (exists w2 convId,
            (w2, convId) = match currentConversationId w1 with
                           | Some c =>
                               if truthy_id (Some c) then (w1, c)
                               else (fst (createNewConversation w1),
                                     "conv_" +:+ pretty (Date_now (ticks w1)))
                           | None => (fst (createNewConversation w1),
                                      "conv_" +:+ pretty (Date_now (ticks w1)))
                           end /\
            (cur <- gets currentConversationId ;;
             match cur with
             | Some c => if truthy_id cur then ret c else createNewConversation
             | None => createNewConversation
             end) w1 = (w2, inr convId)) as (w2 & convId & Hpick & Hstep2).
  { unfold bind, gets.
    destruct (currentConversationId w1) as [c |]; [destruct (truthy_id (Some c)) |];
      eexists; eexists; (split; [reflexivity |]);
      first [reflexivity | rewrite createNewConversation_eq; reflexivity]. }
  exists w1, w2, convId. split; [reflexivity |]. split; [exact Hpick |].
  pose proof (addMessage_returns user (JStr (trim v)) (Some convId) w2) as Hstep3.
  pose proof (agentLoop_returns convId
                (fst (addMessage user (JStr (trim v)) (Some convId) w2))) as Hstep4.
  unfold sendMessage.
  apply String.eqb_neq in Hinput. rewrite Hinput, Hidle. cbn [orb].
  unfold bindA at 1. unfold liftW at 1. rewrite Hstep1. cbv beta iota.
  unfold bindA at 1. unfold liftW at 1. unfold lift at 1. rewrite Hkey. cbv beta iota.
  unfold bindA at 1. cbv beta iota.
  unfold bindA at 1. unfold liftW at 1. cbn [world set_world set_isProcessing].
  rewrite Hstep2. cbv beta iota.
  unfold bindA at 1. unfold liftW at 1. cbn [world set_world set_isProcessing].
  destruct (addMessage user (JStr (trim v)) (Some convId) w2) as [w3 r3].
  cbn [fst snd] in *. subst r3. cbv beta iota.
  unfold liftW, try_catch. cbn [world set_world set_isProcessing].
  destruct (agentLoop convId w3) as [w4 r4]. cbn [fst snd] in *. subst r4.
  reflexivity.
Qed.

Lemma createNewConversation_keeps `{H : Host} (w : World) :
  settings_llm (fst (createNewConversation w)) = settings_llm w /\
  requests (fst (createNewConversation w)) = requests w /\
  apiCalls (fst (createNewConversation w)) = apiCalls w.
Proof. rewrite createNewConversation_eq. repeat split. Qed.

Lemma log_grows_same (n : nat) (w w' : World) : requests w' = requests w -> log_grows n w w'.
Proof. intros Hr. exists []. rewrite app_nil_r. split; [exact Hr | cbn; lia]. Qed.

Lemma log_grows_after (n : nat) (w w1 w' : World) :
  requests w1 = requests w -> log_grows n w1 w' -> log_grows n w w'.
Proof. intros Hr (rqs & Hreq & Hn). exists rqs. rewrite <- Hr. split; assumption. Qed.

(** A message for a conversation that is not stored is dropped. *)
Lemma addMessage_dropped `{H : Host} (role : Role) (content : jsval) (cid : string) (w : World) :
  cid <> EmptyString -> conversations w !! cid = None ->
  addMessage role content (Some cid) w = (w, inr tt).
Proof.
  intros Hcid Hnone. unfold addMessage. rewrite (truthy_id_Some cid Hcid).
  cbv beta iota zeta. rewrite (truthy_id_Some cid Hcid). cbn [negb].
  rewrite Hnone. reflexivity.
Qed.

(** Without a target and without a current conversation, nothing is added. *)
Lemma addMessage_nowhere `{H : Host} (role : Role) (content : jsval) (w : World) :
  truthy_id (currentConversationId w) = false ->
  addMessage role content None w = (w, inr tt).
Proof.
  intros Hcur. unfold addMessage. change (truthy_id None) with false.
  cbv beta iota zeta. rewrite Hcur. cbn [negb].
  destruct (currentConversationId w); reflexivity.
Qed.

(** The effect of a message that is stored, as the statements below use
    it. *)
Lemma addMessage_outline `{H : Host} (role : Role) (content : jsval) (cid : string)
    (c : Conversation) (w : World) :
  cid <> EmptyString -> conversations w !! cid = Some c -> nullish content = false ->
  exists c',
    conversations (fst (addMessage role content (Some cid) w)) !! cid = Some c' /\
    c_title c' = c_title (touch role content 0 c) /\
    outline cid (fst (addMessage role content (Some cid) w))
    = (outline cid w ++ [(role, content)])%list /\
    settings_llm (fst (addMessage role content (Some cid) w)) = settings_llm w /\
    currentConversationId (fst (addMessage role content (Some cid) w))
    = currentConversationId w /\
    requests (fst (addMessage role content (Some cid) w)) = requests w /\
    apiCalls (fst (addMessage role content (Some cid) w)) = apiCalls w.
Proof.
  intros Hcid Hc Hnn.
  destruct (addMessage_stored role content cid c w Hcid Hc Hnn)
    as (msg & Hrole & Hcontent & Hstored & Hcur).
  eexists. split; [exact Hstored |].
  split; [unfold touch; destruct content; try reflexivity;
          destruct (is_system role); reflexivity |].
  split; [| split; [apply addMessage_same_settings
                   | split; [exact Hcur
                            | split; [apply addMessage_requests | apply addMessage_apiCalls]]]].
  unfold outline at 1. unfold messagesOf at 1. rewrite Hstored, touch_messages.
  cbn [push c_messages]. rewrite List.map_app. cbn [List.map].
  rewrite Hrole, Hcontent. unfold outline, messagesOf. rewrite Hc. reflexivity.
Qed.

Lemma callLLM_demo `{H : Host} (conversation : Conversation) (w : World) :
  truthy (provider (settings_llm w)) = true ->
  truthy (apiKey (settings_llm w)) = false ->
  callLLM conversation w = (w, inr demoResponse).
Proof.
  intros Hp Hk. unfold callLLM. unfold bind at 1. unfold gets. cbv beta iota.
  rewrite Hp, Hk. reflexivity.
Qed.

Lemma keyTested_falsy (llm : LLMSettings) :
  truthy (apiKey llm) = false -> keyTested llm = inr tt.
Proof.
  intros Hk. unfold keyTested, jor. rewrite Hk.
  repeat case_match; reflexivity.
Qed.

(** When the key has no text form, [sendMessage] stops at the test of the
    key, before the processing flag is raised. *)
Lemma sendMessage_rejects `{H : Host} (trim : string -> string) (v : string) (a : App)
    (e : exn) :
  trim v <> EmptyString -> isProcessing a = false ->
  keyTested (settings_llm (world a)) = inl e ->
  sendMessage trim (Some v) a
  = ({| world := world a; isProcessing := false; cache := cache a |}, inl e).
Proof.
  intros Hinput Hidle Hkey.
  assert (truthy (apiKey (settings_llm (world a))) = true) as Htruthy.
  { destruct (truthy (apiKey (settings_llm (world a)))) eqn:Ht; [reflexivity |].
    rewrite (keyTested_falsy _ Ht) in Hkey. discriminate. }
  unfold sendMessage.
  apply String.eqb_neq in Hinput. rewrite Hinput, Hidle, Htruthy. cbn [orb negb].
  unfold bindA at 1. unfold liftW at 1. unfold ret at 1. cbv beta iota.
  unfold bindA at 1. unfold liftW at 1. unfold lift at 1. rewrite Hkey.
  cbn [world set_world]. unfold set_world. cbn [world isProcessing cache].
  rewrite Hidle. reflexivity.
Qed.

(** X28.  [sendMessage] and its guard.  With a blank input, or while a
    message is being processed, it does nothing.  Otherwise it returns
    normally with the processing flag cleared -- unless the provider is
    [aipipe] and the key has no text form, in which case the test of the
    key throws and nothing has changed.  In every case it leaves the cache
    and the settings alone and issues at most two requests; when a current
    conversation is chosen, that choice stays and the conversations only
    grow; and when nothing is stored under the chosen identifier, the
    user's text is dropped without a trace and the model is not called. *)
Theorem X28_sendMessage_settles `{H : Host} (trim : string -> string)
    (userInput : option string) (a : App) :
  let input := match userInput with Some v => trim v | None => EmptyString end in
  exists a' r,
    sendMessage trim userInput a = (a', r) /\
    cache a' = cache a /\
    settings_llm (world a') = settings_llm (world a) /\
    log_grows 2 (world a) (world a') /\
    (if (input =? EmptyString)%string || isProcessing a
     then a' = a /\ r = inr tt
     else match keyTested (settings_llm (world a)) with
          | inr _ => r = inr tt /\ isProcessing a' = false
          | inl e => r = inl e /\ isProcessing a' = false /\ world a' = world a
          end) /\
    (forall cur, currentConversationId (world a) = Some cur -> cur <> EmptyString ->
       currentConversationId (world a') = Some cur /\
       append_only (world a) (world a') /\
       (conversations (world a) !! cur = None -> world a' = world a)).
Proof.
  intros input.
  destruct ((input =? EmptyString)%string || isProcessing a) eqn:Hguard.
  { exists a, (inr tt).
    split; [unfold sendMessage; fold input; rewrite Hguard; reflexivity |].
    repeat split; try reflexivity;
      first [assumption | apply log_grows_refl | apply append_only_refl]. }
  apply orb_false_iff in Hguard as [Hinput Hidle].
  destruct userInput as [v |]; [| discriminate]. subst input.
  apply String.eqb_neq in Hinput.
  destruct (keyTested (settings_llm (world a))) as [e | []] eqn:Hkey.
  { eexists. eexists. split; [apply (sendMessage_rejects trim v a e Hinput Hidle Hkey) |].
    cbn [world cache isProcessing].
    repeat split; try reflexivity;
      first [assumption | apply log_grows_refl | apply append_only_refl]. }
  destruct (sendMessage_runs trim v a Hinput Hidle Hkey)
    as (w1 & w2 & convId & Hw1 & Hpick & ->).
  eexists. eexists. split; [reflexivity |]. cbn [world cache isProcessing].
  set (w3 := fst (addMessage user (JStr (trim v)) (Some convId) w2)).
  assert (settings_llm w1 = settings_llm (world a) /\
          currentConversationId w1 = currentConversationId (world a) /\
          requests w1 = requests (world a) /\ append_only (world a) w1) as (Hs1 & Hc1 & Hr1 & Ha1).
  { rewrite Hw1. destruct (negb _); [| repeat split; apply append_only_refl].
    split; [apply addMessage_same_settings |].
    split; [apply addMessage_same_settings |].
    split; [apply addMessage_requests | apply addMessage_append_only]. }
  assert (settings_llm w2 = settings_llm w1 /\ requests w2 = requests w1) as (Hs2 & Hr2).
  { destruct (currentConversationId w1) as [c |]; [destruct (truthy_id (Some c)) |];
      injection Hpick as -> ->; try (split; reflexivity);
      destruct (createNewConversation_keeps w1) as (? & ? & _); split; assumption. }
  assert (settings_llm w3 = settings_llm w2 /\ requests w3 = requests w2) as (Hs3 & Hr3).
  { split; [apply addMessage_same_settings | apply addMessage_requests]. }
  split; [reflexivity |].
  split; [destruct (agentLoop_same_settings convId w3) as [Hs4 _]; congruence |].
  split; [eapply log_grows_after; [| apply agentLoop_log]; congruence |].
  split; [split; reflexivity |].
  intros cur Hcur Hne.
  rewrite <- Hc1 in Hcur. rewrite Hcur, (truthy_id_Some cur Hne) in Hpick.
  injection Hpick as -> ->.
  split; [| split].
  - destruct (agentLoop_same_settings cur w3) as [_ Hc4]. rewrite Hc4.
    unfold w3. destruct (addMessage_same_settings user (JStr (trim v)) (Some cur) w1) as [_ ->].
    exact Hcur.
  - eapply append_only_trans; [exact Ha1 |].
    eapply append_only_trans; [apply (addMessage_append_only user (JStr (trim v)) (Some cur)) |].
    apply agentLoop_append_only.
  - intros Hnone.
    assert (w1 = world a) as Hsame1.
    { rewrite Hw1. destruct (negb _); [| reflexivity].
      rewrite addMessage_current, <- Hc1, Hcur, addMessage_dropped by assumption.
      reflexivity. }
    unfold w3. rewrite Hsame1 in *.
    rewrite addMessage_dropped by assumption. cbn [fst].
    rewrite agentLoop_eq, Hnone. reflexivity.
Qed.

(** X29.  Demo mode, end to end.  With a provider but no key, a message
    sent to the stored current conversation leaves three entries there, in
    this order -- the notice that demo mode is on, the user's text, the
    canned demo reply -- without a request to the network, and is counted
    as one API call. *)
Theorem X29_demo_transcript `{H : Host} (trim : string -> string) (v cur : string)
    (c : Conversation) (a : App) :
  trim v <> EmptyString -> isProcessing a = false ->
  truthy (provider (settings_llm (world a))) = true ->
  truthy (apiKey (settings_llm (world a))) = false ->
  currentConversationId (world a) = Some cur -> cur <> EmptyString ->
  conversations (world a) !! cur = Some c ->
  exists a',
    sendMessage trim (Some v) a = (a', inr tt) /\
    outline cur (world a')
    = (outline cur (world a)
       ++ [(assistant, JStr demoNotice); (user, JStr (trim v)); (assistant, JStr demoContent)])%list /\
    requests (world a') = requests (world a) /\
    apiCalls (world a') = apiCalls (world a) + 1 /\
    isProcessing a' = false.
Proof.
  intros Hinput Hidle Hprovider Hkey Hcur Hne Hc.
  destruct (sendMessage_runs trim v a Hinput Hidle (keyTested_falsy _ Hkey))
    as (w1 & w2 & convId & Hw1 & Hpick & ->).
  eexists. split; [reflexivity |]. cbn [world isProcessing].
  rewrite Hkey in Hw1. cbn [negb] in Hw1.
  rewrite addMessage_current, Hcur in Hw1.
  destruct (addMessage_outline assistant (JStr demoNotice) cur c (world a) Hne Hc eq_refl)
    as (c1 & Hc1 & _ & Ho1 & Hs1 & Hcur1 & Hr1 & Ha1).
  rewrite <- Hw1 in Hc1, Ho1, Hs1, Hcur1, Hr1, Ha1.
  rewrite Hcur1, Hcur, (truthy_id_Some cur Hne) in Hpick. injection Hpick as -> ->.
  destruct (addMessage_outline user (JStr (trim v)) cur c1 w1 Hne Hc1 eq_refl)
    as (c2 & Hc2 & _ & Ho2 & Hs2 & _ & Hr2 & Ha2).
  set (w3 := fst (addMessage user (JStr (trim v)) (Some cur) w1)) in *.
  rewrite (agentLoop_closed cur c2 w3 Hc2).
  rewrite (callLLM_demo c2 (set_modelCalls S w3))
    by (cbn [settings_llm set_modelCalls]; congruence).
  cbv zeta.
  change (parseAPIResponse demoResponse) with (@inr exn _ (JObj [("content", JStr demoContent)])).
  cbv beta iota.
  change (prop (JObj [("content", JStr demoContent)]) "content") with (JStr demoContent).
  change (truthy (JStr demoContent)) with true. cbv iota. cbn [fst].
  set (w4 := set_apiCalls (fun n => n + 1) (set_modelCalls S w3)).
  destruct (addMessage_outline assistant (JStr demoContent) cur c2 w4 Hne Hc2 eq_refl)
    as (c3 & _ & _ & Ho3 & _ & _ & Hr3 & Ha3).
  split; [| split; [| split; [| reflexivity]]].
  - rewrite Ho3. change (outline cur w4) with (outline cur w3).
    rewrite Ho2, Ho1, <- !app_assoc. reflexivity.
  - rewrite Hr3. change (requests w4) with (requests w3). congruence.
  - rewrite Ha3. change (apiCalls w4) with (apiCalls w3 + 1). congruence.
Qed.

Lemma X29_witness :
  let a := {| world := Example.world (Example.llm (JStr "aipipe") (JStr EmptyString));
              isProcessing := false; cache := ∅ |} in
  exists a',
    @sendMessage (Ref.host []) Page.trim (Some "  What is IBM?  ") a = (a', inr tt) /\
    outline "conv_1" (world a')
    = [(user, JStr "IBM"); (assistant, JStr demoNotice); (user, JStr "What is IBM?");
       (assistant, JStr demoContent)] /\
    requests (world a') = [] /\
    apiCalls (world a') = 1 /\
    isProcessing a' = false.
Proof.
  intros a.
  apply (@X29_demo_transcript (Ref.host []) Page.trim "  What is IBM?  " "conv_1"
           Example.conversation a).
  - discriminate.
  - reflexivity.
  - reflexivity.
  - reflexivity.
  - reflexivity.
  - discriminate.
  - reflexivity.
Defined.

(** X30.  Without a current conversation, the first message opens one: it
    is named after the clock, made current, and begins with the user's
    text, whose first 30 characters become its title -- and stay, unless
    they read [New Conversation].  The notice of demo mode, which is
    written before the conversation exists, is lost.  No other
    conversation is touched.  The key is one that passes the test of the
    key.  (Characters are bytes here, as in [touch].) *)
Theorem X30_first_message_opens_a_conversation `{H : Host} (trim : string -> string)
    (v : string) (a : App) :
  trim v <> EmptyString -> isProcessing a = false ->
  keyTested (settings_llm (world a)) = inr tt ->
  truthy_id (currentConversationId (world a)) = false ->
  substring 0 30 (trim v) <> "New Conversation" ->
  let id := "conv_" +:+ pretty (Date_now (ticks (world a))) in
  exists a' c rest,
    sendMessage trim (Some v) a = (a', inr tt) /\
    currentConversationId (world a') = Some id /\
    conversations (world a') !! id = Some c /\
    c_title c = substring 0 30 (trim v) /\
    outline id (world a') = (user, JStr (trim v)) :: rest /\
    (forall other, other <> id ->
       conversations (world a') !! other = conversations (world a) !! other).
Proof.
  intros Hinput Hidle Hkey Hnocur Hplaceholder id.
  destruct (sendMessage_runs trim v a Hinput Hidle Hkey)
    as (w1 & w2 & convId & Hw1 & Hpick & Hsend).
  assert (w1 = world a) as ->.
  { rewrite Hw1. destruct (negb _); [| reflexivity].
    rewrite (addMessage_nowhere _ _ _ Hnocur). reflexivity. }
  assert ((w2, convId) = (fst (createNewConversation (world a)), id)) as Hnew.
  { rewrite Hpick. destruct (currentConversationId (world a)) as [c0 |]; [| reflexivity].
    rewrite Hnocur. reflexivity. }
  injection Hnew as -> ->. clear Hpick Hw1.
  pose proof (conv_id_set (pretty (Date_now (ticks (world a))))) as Hid. fold id in Hid.
  set (fresh := {| c_id := id; c_title := "New Conversation"; c_messages := [];
                   c_createdAt := Date_now (S (ticks (world a)));
                   c_updatedAt := Date_now (S (S (ticks (world a))));
                   c_preview := "..." |}).
  set (w2 := fst (createNewConversation (world a))) in *.
  assert (conversations w2 !! id = Some fresh /\ currentConversationId w2 = Some id /\
          forall other, other <> id -> conversations w2 !! other = conversations (world a) !! other)
    as (Hfresh & Hcur2 & Hothers2).
  { unfold w2. rewrite createNewConversation_eq. cbn [fst]. fold id. fold fresh.
    split; [apply lookup_insert_eq |]. split; [reflexivity |].
    intros other Hne. unfold set_currentConversationId, set_ticks, set_conversations.
    cbn [conversations]. apply lookup_insert_ne. congruence. }
  destruct (addMessage_outline user (JStr (trim v)) id fresh w2 Hid Hfresh eq_refl)
    as (c3 & Hc3 & Htitle3 & Ho3 & _ & Hcur3 & _).
  set (w3 := fst (addMessage user (JStr (trim v)) (Some id) w2)) in *.
  assert (c_title c3 = substring 0 30 (trim v)) as Htitle.
  { rewrite Htitle3. cbn.
    destruct (substring 0 30 (trim v) =? EmptyString)%string eqn:Hsub; [| reflexivity].
    apply String.eqb_eq, substring_empty in Hsub. contradiction. }
  destruct (agentLoop_titles_kept id w3 id c3 Hc3) as (c4 & Hc4 & Htitle4).
  { rewrite Htitle. intros Hempty. apply substring_empty in Hempty. contradiction. }
  { rewrite Htitle. exact Hplaceholder. }
  destruct (agentLoop_append_only id w3 id c3 Hc3) as (c4' & added & Hc4' & Hmsgs).
  rewrite Hc4 in Hc4'. injection Hc4' as <-.
  exists {| world := fst (agentLoop id w3); isProcessing := false; cache := cache a |},
         c4, (List.map (fun m => (m_role m, m_content m)) added).
  split; [exact Hsend |]. cbn [world].
  split; [destruct (agentLoop_same_settings id w3) as [_ ->]; congruence |].
  split; [exact Hc4 |].
  split; [congruence |].
  split.
  - unfold outline at 1. unfold messagesOf at 1. rewrite Hc4, Hmsgs, List.map_app.
    unfold outline in Ho3. unfold messagesOf in Ho3. rewrite Hc3, Hfresh in Ho3.
    rewrite Ho3. reflexivity.
  - intros other Hne. rewrite (agentLoop_others id other w3 Hid Hne).
    unfold w3. rewrite (addMessage_others _ _ id other w2 Hid Hne). apply Hothers2. exact Hne.
Qed.

Lemma X30_witness :
  let w := Example.world (Example.llm (JStr "aipipe") JUndef) in
  let a := {| world := set_currentConversationId (fun _ => None) w;
              isProcessing := false; cache := ∅ |} in
  exists a' c rest,
    @sendMessage (Ref.host []) Page.trim (Some "What does IBM stand for, and when?") a
    = (a', inr tt) /\
    currentConversationId (world a') = Some "conv_1700000000000" /\
    conversations (world a') !! "conv_1700000000000" = Some c /\
    c_title c = "What does IBM stand for, and w" /\
    outline "conv_1700000000000" (world a')
    = (user, JStr "What does IBM stand for, and when?") :: rest /\
    (forall other, other <> "conv_1700000000000" ->
       conversations (world a') !! other = conversations (world a) !! other).
Proof.
  intros w a.
  apply (@X30_first_message_opens_a_conversation (Ref.host []) Page.trim
           "What does IBM stand for, and when?" a).
  - discriminate.
  - reflexivity.
  - reflexivity.
  - reflexivity.
  - discriminate.
Defined.
